(** * weboob: the page-dispatch engine and the extraction filters

    A shallow embedding of

    - [weboob/tools/browser2/filters.py]: [Filter.select] and
      [Filter.__call__], and the filters [CleanText], [CleanDecimal],
      [Attr], [Link], [Regexp], [Map], [Time], [Duration], [TableCell] and
      [Join];
    - [weboob/tools/browser/browser.py]: [check_location], [BasePage],
      [StandardBrowser] with [openurl], [readurl], [save_response],
      [buildurl] and the proxy of its constructor, and [BaseBrowser] with
      its constructor, [home], [absurl], [location], [submit],
      [follow_link] and [_change_location];
    - [modules/creditdunord/browser.py]: [is_logged], [home] and [login]
      of a browser built on [BaseBrowser].

    Python text is a list of code points, a [dict] is a [gmap], an exception
    is an outcome of its own, and the browser object is a record threaded
    through a state monad.  The transport (mechanize), the HTML parser and the
    [re] engine are collaborators of the code: they are section variables
    here, and a small concrete instance of each is given at the end to run
    the definitions on examples. *)

From Stdlib Require Import Ascii String.
From stdpp Require Import gmap strings list numbers.

(** ** Outcomes of a Python call *)

(** The exception classes the two files raise or catch.  The mechanize and
    urllib2 classes are those named in the [except] clauses of [browser.py]. *)
Inductive Exn :=
| BrowserIncorrectPassword
| BrowserBanned
| BrowserUnavailable
| BrowserHTTPNotFound
| BrowserHTTPError
| BrowserRetry
| HTTPError (code : Z)          (* urllib2.HTTPError, seen through getcode() *)
| URLError                      (* urllib2.URLError *)
| BadStatusLine                 (* httplib.BadStatusLine *)
| response_seek_wrapper         (* mechanize.response_seek_wrapper *)
| BrowserStateError             (* mechanize.BrowserStateError *)
| KeyError
| ValueError
| IndexError
| TypeError
| AttributeError
| StopIteration
| OverflowError
| InvalidOperation              (* decimal.InvalidOperation *)
| NotImplementedError.

#[global] Instance Exn_eq_dec : EqDecision Exn.
Proof. solve_decision. Defined.

(** [Diverge] stands for a call that did not return within the fuel given to
    the engine; no [except] clause catches it. *)
Inductive Outcome (A : Type) :=
| Ok (a : A)
| Raise (e : Exn)
| Diverge.
Arguments Ok {A} a.
Arguments Raise {A} e.
Arguments Diverge {A}.

Definition is_ok {A} (o : Outcome A) : bool :=
  match o with Ok _ => true | _ => false end.

(** Sequencing of calls that may raise: [x ← m; k] runs [k] on the value of
    [m] and lets an exception of [m] through. *)
#[global] Instance Outcome_ret : MRet Outcome := λ A a, Ok a.
#[global] Instance Outcome_bind : MBind Outcome := λ A B k m,
  match m with
  | Ok a => k a
  | Raise e => Raise e
  | Diverge => Diverge
  end.

(** What the filters do when they find nothing: [return self.default] if a
    default was given, [raise] if [self.default is _NO_DEFAULT]. *)
Definition default_or_raise {A} (default : option A) (e : Exn) : Outcome A :=
  match default with
  | Some d => Ok d
  | None => Raise e
  end.

(** LookupError and its subclasses: the "lookup-style" errors. *)
Definition lookup_style (e : Exn) : bool :=
  match e with KeyError | IndexError => true | _ => false end.

(** * Part I: the extraction filters *)

Module Filters.

(** ** Text *)

(** A character is a code point; [u] reads an ASCII literal. *)
Definition char := N.
Definition text := list char.

Definition u (s : string) : text := map N_of_ascii (list_ascii_of_string s).
Arguments u s%_string.

Definition SP : char := 32%N.

(** [\s] of the [re] module when the UNICODE flag is not given:
    the set [ \t\n\r\f\v]. *)
Definition re_space (c : char) : bool :=
  (c =? 32)%N || ((9 <=? c)%N && (c <=? 13)%N).

(** The character class of [CleanText.clean]: [[\s\xa0\t]]. *)
Definition clean_class (c : char) : bool :=
  re_space c || (c =? 160)%N || (c =? 9)%N.

(** [unicode.isspace] (the characters [unicode.strip()] removes). *)
Definition unicode_isspace (c : char) : bool :=
  ((9 <=? c)%N && (c <=? 13)%N) || ((28 <=? c)%N && (c <=? 32)%N)
  || (c =? 133)%N || (c =? 160)%N || (c =? 5760)%N || (c =? 6158)%N
  || ((8192 <=? c)%N && (c <=? 8202)%N) || (c =? 8232)%N || (c =? 8233)%N
  || (c =? 8239)%N || (c =? 8287)%N || (c =? 12288)%N.

(** [str.isspace] in the C locale (the characters [str.strip()] removes). *)
Definition str_isspace (c : char) : bool := re_space c.

(** [re.sub(cls+, ' ', txt)]: every maximal run of characters of the class
    becomes one space.  [in_run] tells that the previous character was in
    the class, so that the run has been replaced already. *)
Fixpoint sub_runs (cls : char → bool) (in_run : bool) (txt : text) : text :=
  match txt with
  | [] => []
  | c :: r =>
      if cls c then
        if in_run then sub_runs cls true r else SP :: sub_runs cls true r
      else c :: sub_runs cls false r
  end.

Fixpoint lstrip (ws : char → bool) (txt : text) : text :=
  match txt with
  | [] => []
  | c :: r => if ws c then lstrip ws r else txt
  end.

(** [rstrip] drops a character when it is a space and nothing but spaces
    follows it. *)
Fixpoint rstrip (ws : char → bool) (txt : text) : text :=
  match txt with
  | [] => []
  | c :: r =>
      match rstrip ws r with
      | [] => if ws c then [] else [c]
      | r' => c :: r'
      end
  end.

Definition strip (ws : char → bool) (txt : text) : text :=
  rstrip ws (lstrip ws txt).

(** [sep.join(parts)] *)
Fixpoint join (sep : text) (parts : list text) : text :=
  match parts with
  | [] => []
  | [p] => p
  | p :: ps => p ++ sep ++ join sep ps
  end.

(** [txt.replace(old, new)] for a one-character [old]. *)
Definition replace_char (old : char) (new : text) (txt : text) : text :=
  flat_map (λ c, if (c =? old)%N then new else [c]) txt.

(** A text that does not begin with a space. *)
Definition starts_clean (ws : char → bool) (t : text) : Prop :=
  match t with
  | [] => True
  | c :: _ => ws c = false
  end.

(** ** Values *)

(** [decimal.Decimal]: sign, coefficient and exponent, as the class stores
    them ([_sign], [_int], [_exp]); the number is
    [(-1)^sign * coefficient * 10^exponent]. *)
Record Decimal := mkDecimal {
  d_sign : bool;
  d_int : N;
  d_exp : Z
}.

(** An lxml element, as far as the filters look at it: the pieces of text
    [itertext()] yields, the [attrib] dictionary, and the children that
    indexing reaches. *)
#[warnings="-register-all"]
Inductive Element :=
| mkElement (itertext : list text) (attrib : gmap text text)
            (children : list Element).

Definition el_itertext (e : Element) : list text :=
  match e with mkElement t _ _ => t end.
Definition el_attrib (e : Element) : gmap text text :=
  match e with mkElement _ a _ => a end.
Definition el_children (e : Element) : list Element :=
  match e with mkElement _ _ c => c end.

#[warnings="-register-all"]
Inductive Value :=
| VNone
| VStr (t : text)
| VInt (z : Z)
| VDecimal (d : Decimal)
| VTime (hour minute second : Z)         (* datetime.time *)
| VTimedelta (hours minutes seconds : Z) (* datetime.timedelta *)
| VElem (e : Element)
| VList (l : list Value).

(** ** Numbers *)

Definition is_digit (c : char) : bool := (48 <=? c)%N && (c <=? 57)%N.

(** The characters of a number as written: digits, the sign, the point and
    the comma. *)
Definition number_char (c : char) : bool :=
  is_digit c || (c =? 45)%N || (c =? 46)%N || (c =? 44)%N.

(** [int(digits)] for a string of ASCII digits, most significant first *)
Definition digits_value (ds : text) : N :=
  fold_left (λ acc c, (10 * acc + (c - 48))%N) ds 0%N.

(** [span p l]: the longest prefix of [l] whose elements satisfy [p], and
    the rest. *)
Fixpoint span {A} (p : A → bool) (l : list A) : list A * list A :=
  match l with
  | [] => ([], [])
  | x :: r =>
      if p x then let '(a, b) := span p r in (x :: a, b) else ([], l)
  end.

(** [Decimal(string)]: an optional sign, an integer part, an optional point
    and fractional part, with a digit somewhere, and nothing after; the
    coefficient is [int(intpart + fracpart)] and the exponent
    [-len(fracpart)].  The exponent, [Inf] and [NaN] forms of the decimal
    module all need a letter and are not read here. *)
Definition Decimal_of_text (ws : char → bool) (s : text) : Outcome Decimal :=
  let s := strip ws s in
  let '(sign, s) :=
    match s with
    | c :: r =>
        if (c =? 45)%N then (true, r)
        else if (c =? 43)%N then (false, r)
        else (false, s)
    | [] => (false, s)
    end in
  let '(intpart, rest) := span is_digit s in
  let '(fracpart, rest) :=
    match rest with
    | c :: r => if (c =? 46)%N then span is_digit r else ([], rest)
    | [] => ([], rest)
    end in
  match rest, intpart ++ fracpart with
  | [], _ :: _ =>
      Ok (mkDecimal sign (digits_value (intpart ++ fracpart))
                    (- Z.of_nat (length fracpart)))
  | _, _ => Raise InvalidOperation
  end.

(** [Decimal(value)] *)
Definition Decimal_of (ws : char → bool) (v : Value) : Outcome Decimal :=
  match v with
  | VInt z => Ok (mkDecimal (z <? 0)%Z (Z.to_N (Z.abs z)) 0)
  | VDecimal d => Ok d
  | VStr s => Decimal_of_text ws s
  | _ => Raise TypeError
  end.

(** [int(s or 0)] on a group of a match *)
Definition int_of_group (g : option text) : Outcome Z :=
  match g with
  | None | Some [] => Ok 0%Z
  | Some s =>
      if forallb is_digit s then Ok (Z.of_N (digits_value s))
      else Raise ValueError
  end.

(** ** The regular expression engine *)

(** A match object: [groups()] and [groupdict()]. *)
Record Match := mkMatch {
  m_groups : list (option text);
  m_groupdict : list (text * option text)
}.

Fixpoint assoc {A} (k : text) (l : list (text * A)) : option A :=
  match l with
  | [] => None
  | (k', v) :: r => if decide (k = k') then Some v else assoc k r
  end.

Section Text.

(** The space predicate of the string type at hand: [unicode_isspace] for a
    unicode object, [str_isspace] for a byte string. *)
Variable isspace : char → bool.

(** [re.compile(pattern, flags).search(txt)] and [mobj.expand(template)] *)
Variable re_search : text → Z → text → option Match.
Variable re_expand : Match → text → Outcome text.

(** [CleanText.clean] on a string *)
Definition clean_str (txt : text) : text :=
  strip isspace (sub_runs clean_class false txt).

(** [CleanText.clean]: a string is cleaned as it is; anything else must have
    [itertext()], which only an element has. *)
Definition clean (txt : Value) : Outcome text :=
  match txt with
  | VStr t => Ok (clean_str t)
  | VElem e =>
      Ok (clean_str (join [SP] (map (strip isspace) (el_itertext e))))
  | _ => Raise AttributeError
  end.

(** [CleanText.remove] *)
Definition remove (txt : text) (symbols : text) : text :=
  fold_left (λ t symbol, replace_char symbol [] t) symbols txt.

(** [map(self.clean, txt)], stopping at the first exception *)
Fixpoint clean_all (l : list Value) : Outcome (list text) :=
  match l with
  | [] => Ok []
  | v :: r => t ← clean v; ts ← clean_all r; Ok (t :: ts)
  end.

(** [CleanText.filter] *)
Definition CleanText_filter (symbols : text) (txt : Value) : Outcome text :=
  txt ← match txt with
        | VList l => ts ← clean_all l; Ok (VStr (join [SP] ts))
        | _ => Ok txt
        end;
  txt ← clean txt;
  Ok (remove txt symbols).

(** [re.sub(ur'[^\d\-\.]', '', text)] *)
Definition keep_number_chars (txt : text) : text :=
  List.filter (λ c, is_digit c || (c =? 45)%N || (c =? 46)%N) txt.

(** [CleanDecimal.filter]; the constructor leaves [symbols] empty. *)
Definition CleanDecimal_filter (replace_dots : bool) (default : option Value)
    (txt : Value) : Outcome Decimal :=
  txt ← CleanText_filter [] txt;
  let txt :=
    if replace_dots then replace_char 44%N [46%N] (replace_char 46%N [] txt)
    else txt in
  match Decimal_of_text isspace (keep_number_chars txt) with
  | Raise InvalidOperation =>
      match default with
      | Some d => Decimal_of isspace d
      | None => Raise InvalidOperation
      end
  | r => r
  end.

(** [el[0]] *)
Definition first_item (el : Value) : Outcome Value :=
  match el with
  | VList (x :: _) => Ok x
  | VStr (c :: _) => Ok (VStr [c])
  | VElem (mkElement _ _ (x :: _)) => Ok (VElem x)
  | VList [] | VStr [] | VElem _ => Raise IndexError
  | _ => Raise TypeError
  end.

(** [x.attrib[attr]] *)
Definition attrib_item (x : Value) (attr : text) : Outcome text :=
  match x with
  | VElem e =>
      match el_attrib e !! attr with
      | Some v => Ok v
      | None => Raise KeyError
      end
  | _ => Raise AttributeError
  end.

(** [Attr.filter] *)
Definition Attr_filter (attr : text) (default : option Value) (el : Value)
    : Outcome Value :=
  match x ← first_item el; attrib_item x attr with
  | Ok v => Ok (VStr v)
  | Raise IndexError => default_or_raise default ValueError
  | Raise KeyError => default_or_raise default KeyError
  | Raise e => Raise e
  | Diverge => Diverge
  end.

(** [Link.filter]: [Attr] with [attr = 'href'] *)
Definition Link_filter (default : option Value) (el : Value) : Outcome Value :=
  Attr_filter (u "href") default el.

(** [Regexp.filter]: a list or tuple has no [itertext], and [search] wants a
    string. *)
Definition Regexp_filter (pattern : text) (template : option text) (flags : Z)
    (default : option Value) (txt : Value) : Outcome Value :=
  match txt with
  | VList _ => Raise AttributeError
  | VStr s =>
      match re_search pattern flags s with
      | None => default_or_raise default KeyError
      | Some mobj =>
          match template with
          | None =>
              match omap id (m_groups mobj) with
              | g :: _ => Ok (VStr g)
              | [] => Raise StopIteration
              end
          | Some t => r ← re_expand mobj t; Ok (VStr r)
          end
      end
  | _ => Raise TypeError
  end.

(** [Map.filter]; the keys of [map_dict] are strings, a list cannot be
    hashed. *)
Definition Map_filter (map_dict : gmap text Value) (default : option Value)
    (txt : Value) : Outcome Value :=
  match txt with
  | VStr s =>
      match map_dict !! s with
      | Some v => Ok v
      | None => default_or_raise default KeyError
      end
  | VList _ => Raise TypeError
  | _ => default_or_raise default KeyError
  end.

(** [Time.regexp] and [Duration.regexp] *)
Definition Time_regexp : text :=
  u "(?P<hh>\d+):?(?P<mm>\d+)(:(?P<ss>\d+))?".
Definition Duration_regexp : text :=
  u "((?P<hh>\d+)[:;])?(?P<mm>\d+)[;:](?P<ss>\d+)".

(** [int(m.groupdict()[index] or 0)] *)
Definition group_int (m : Match) (index : text) : Outcome Z :=
  match assoc index (m_groupdict m) with
  | Some g => int_of_group g
  | None => Raise KeyError
  end.

(** The integers that fit a C [int] *)
Definition c_int (z : Z) : bool :=
  ((-2147483648 <=? z) && (z <=? 2147483647))%Z.

(** [datetime.time(hour=, minute=, second=)]: the arguments are first
    converted to C integers, which raises [OverflowError] on one that does
    not fit; then the ranges are checked. *)
Definition datetime_time (h m s : Z) : Outcome Value :=
  if negb (c_int h && c_int m && c_int s) then Raise OverflowError
  else if ((0 <=? h) && (h <? 24) && (0 <=? m) && (m <? 60)
           && (0 <=? s) && (s <? 60))%Z
  then Ok (VTime h m s) else Raise ValueError.

(** The days of a span of [h] hours, [m] minutes and [s] seconds, once the
    span is normalised *)
Definition timedelta_days (h m s : Z) : Z :=
  ((3600 * h + 60 * m + s) / 86400)%Z.

(** [datetime.timedelta(hours=, minutes=, seconds=)]: any integers are
    taken, and [OverflowError] is raised when the days of the span are more
    than 999999999 in magnitude. *)
Definition datetime_timedelta (h m s : Z) : Outcome Value :=
  if ((-999999999 <=? timedelta_days h m s)
      && (timedelta_days h m s <=? 999999999))%Z
  then Ok (VTimedelta h m s) else Raise OverflowError.

(** [Time.filter], shared by [Duration] with its own [klass] and [regexp] *)
Definition Time_filter_gen (regexp : text) (klass : Z → Z → Z → Outcome Value)
    (default : option Value) (txt : Value) : Outcome Value :=
  match txt with
  | VStr s =>
      match re_search regexp 0 s with
      | Some m =>
          hh ← group_int m (u "hh");
          mm ← group_int m (u "mm");
          ss ← group_int m (u "ss");
          klass hh mm ss
      | None => default_or_raise default ValueError
      end
  | _ => Raise TypeError
  end.

Definition Time_filter := Time_filter_gen Time_regexp datetime_time.
Definition Duration_filter := Time_filter_gen Duration_regexp datetime_timedelta.

(** Modelled from the spec: the table element, whose [get_colnum] a row
    calls through [item.parent], is not among the sources.  A row knows the
    index its table has registered for each column name, and its cells;
    [get_colnum(name)] is the index registered for [name], or [None]. *)
Record Row := mkRow {
  row_columns : gmap text nat;
  row_cells : list Value
}.

(** [item.xpath('./td[%s]' % (idx + 1))]: the node list with the cell, if
    the row has it. *)
Definition row_td (item : Row) (idx : nat) : Value :=
  match row_cells item !! idx with
  | Some c => VList [c]
  | None => VList []
  end.

(** [TableCell.__call__] *)
Fixpoint TableCell_call (names : list text) (default : option Value)
    (item : Row) : Outcome Value :=
  match names with
  | [] => default_or_raise default KeyError
  | name :: rest =>
      match row_columns item !! name with
      | Some idx => Ok (row_td item idx)
      | None => TableCell_call rest default item
      end
  end.

(** ** The filters that take a default, as one family *)

Inductive Combinator :=
| CTableCell (names : list text)
| CCleanDecimal (replace_dots : bool)
| CAttr (attr : text)
| CLink
| CRegexp (pattern : text) (template : option text) (flags : Z)
| CMap (map_dict : gmap text Value)
| CTime
| CDuration.

(** What a filter is called on: the value its selector gave, or, for
    [TableCell], the row. *)
Inductive Input :=
| OfValue (v : Value)
| OfRow (r : Row).

(** The filter built with [default] ([None] is [_NO_DEFAULT]), called. *)
Definition apply (c : Combinator) (default : option Value) (x : Input)
    : Outcome Value :=
  match c, x with
  | CTableCell names, OfRow r => TableCell_call names default r
  | CCleanDecimal replace_dots, OfValue v =>
      d ← CleanDecimal_filter replace_dots default v; Ok (VDecimal d)
  | CAttr attr, OfValue v => Attr_filter attr default v
  | CLink, OfValue v => Link_filter default v
  | CRegexp pattern template flags, OfValue v =>
      Regexp_filter pattern template flags default v
  | CMap map_dict, OfValue v => Map_filter map_dict default v
  | CTime, OfValue v => Time_filter default v
  | CDuration, OfValue v => Duration_filter default v
  | _, _ => Raise AttributeError
  end.

(** The inputs on which a filter finds nothing: no column of those names,
    a text that is no number, an empty node list or an element without the
    attribute, a text the pattern does not match, a key the dictionary does
    not have. *)
Definition finds_nothing (c : Combinator) (x : Input) : bool :=
  match c, x with
  | CTableCell names, OfRow r =>
      forallb (λ name, bool_decide (row_columns r !! name = None)) names
  | CCleanDecimal replace_dots, OfValue v =>
      match CleanText_filter [] v with
      | Ok txt =>
          let txt :=
            if replace_dots
            then replace_char 44%N [46%N] (replace_char 46%N [] txt)
            else txt in
          negb (is_ok (Decimal_of_text isspace (keep_number_chars txt)))
      | _ => false
      end
  | CAttr attr, OfValue (VList []) => true
  | CAttr attr, OfValue (VList (VElem e :: _)) =>
      bool_decide (el_attrib e !! attr = None)
  | CLink, OfValue (VList []) => true
  | CLink, OfValue (VList (VElem e :: _)) =>
      bool_decide (el_attrib e !! u "href" = None)
  | CRegexp pattern _ flags, OfValue (VStr s) =>
      bool_decide (re_search pattern flags s = None)
  | CMap map_dict, OfValue (VStr s) => bool_decide (map_dict !! s = None)
  | CTime, OfValue (VStr s) => bool_decide (re_search Time_regexp 0 s = None)
  | CDuration, OfValue (VStr s) =>
      bool_decide (re_search Duration_regexp 0 s = None)
  | _, _ => false
  end.

(** The class of the exception each filter raises when it finds nothing and
    has no default. *)
Definition raised_without_default (c : Combinator) (x : Input) : Exn :=
  match c, x with
  | CTableCell _, _ | CRegexp _ _ _, _ | CMap _, _ => KeyError
  | CAttr _, OfValue (VList []) | CLink, OfValue (VList []) => ValueError
  | CAttr _, _ | CLink, _ => KeyError
  | CTime, _ | CDuration, _ => ValueError
  | CCleanDecimal _, _ => InvalidOperation
  end.

Definition is_CleanDecimal (c : Combinator) : bool :=
  match c with CCleanDecimal _ => true | _ => false end.

(** ** Filters called on an item *)

(** The item a filter is called on, and [item.xpath(selector)]. *)
Context {Item : Type}.
Variable xpath : Item → text → Outcome Value.

(** What a filter is built on: an XPath expression, another filter called
    first, or anything else, which is taken as the value itself. *)
Inductive Selector :=
| SXPath (expr : text)
| SFilter (f : Item → Outcome Value)
| SValue (v : Value).

(** [Filter.select] *)
Definition select (selector : Selector) (item : Item) : Outcome Value :=
  match selector with
  | SXPath expr => xpath item expr
  | SFilter f => f item
  | SValue v => Ok v
  end.

(** [Filter.__call__], for the [filter] method of the class at hand *)
Definition Filter_call (filter : Value → Outcome Value) (selector : Selector)
    (item : Item) : Outcome Value :=
  v ← select selector item; filter v.

(** [CleanText(selector, symbols)] and
    [CleanDecimal(selector, replace_dots, default)], called *)
Definition CleanText_call (symbols : text) : Selector → Item → Outcome Value :=
  Filter_call (λ v, t ← CleanText_filter symbols v; Ok (VStr t)).

Definition CleanDecimal_call (replace_dots : bool) (default : option Value)
    : Selector → Item → Outcome Value :=
  Filter_call (λ v, d ← CleanDecimal_filter replace_dots default v;
                    Ok (VDecimal d)).

(** ** [Join] *)

(** [pattern % arg] for a string [arg] *)
Variable format : text → text → Outcome text.

(** [for li in el]: the items of a list, the characters of a string, the
    children of an element; nothing else of [Value] can be iterated. *)
Definition iter_value (el : Value) : Outcome (list Value) :=
  match el with
  | VList l => Ok l
  | VStr s => Ok (map (λ c, VStr [c]) s)
  | VElem e => Ok (map VElem (el_children e))
  | _ => Raise TypeError
  end.

(** The loop of [Join.filter], from the [res] built so far *)
Fixpoint Join_loop (pattern : text) (res : text) (el : list Value)
    : Outcome text :=
  match el with
  | [] => Ok res
  | li :: rest =>
      t ← clean li;
      s ← format pattern t;
      Join_loop pattern (res ++ s) rest
  end.

(** [Join.filter] *)
Definition Join_filter (pattern : text) (el : Value) : Outcome text :=
  l ← iter_value el; Join_loop pattern [] l.

(** ** Shapes of a text *)

(** No two spaces in a row; [prev] tells that a space comes right before. *)
Fixpoint single_spaces (prev : bool) (t : text) : bool :=
  match t with
  | [] => true
  | c :: r =>
      if (c =? SP)%N then negb prev && single_spaces true r
      else single_spaces false r
  end.

(** The text [CleanDecimal.filter] hands to [Decimal]: with [replace_dots]
    the points are dropped and the commas become points, then only digits,
    signs and points are kept. *)
Definition number_text (replace_dots : bool) (t : text) : text :=
  keep_number_chars
    (if replace_dots then replace_char 44%N [46%N] (replace_char 46%N [] t)
     else t).

End Text.

End Filters.

(** * Part II: the browser *)

Module Browser.

Local Open Scope string_scope.
Local Open Scope list_scope.

(** ** Data *)

(** What the engine reads of a mechanize response. *)
Record Response := mkResponse {
  geturl : string;
  content_type : string;
  read : string
}.

(** [self.request], of which [check_location] reads the host. *)
Record Request := mkRequest {
  host : option string
}.

(** The first positional argument of [location] and [openurl]: a string, or
    a request object built by the caller. *)
Inductive Target :=
| UrlStr (url : string)
| ReqObj (r : Request).

(** A match object of [re]: [groups()] and [groupdict()]. *)
Record Match := mkMatch {
  m_groups : list (option string);
  m_groupdict : list (string * option string)
}.

Inductive Level := WARNING | INFO | DEBUG.

Inductive Msg :=
| NoPageForURL (url : string)   (* "There isn't any page corresponding to URL %s" *)
| WentOn (username : option string) (url : string) (* "[user_id=%s] Went on %s" *)
| Relogin                       (* "!! Relogin !!" *)
| OpeningURL (t : Target)       (* 'Opening URL "%s", %s' *)
| ResponseSavedTo (n : nat).    (* "Response saved to %s" *)

(** What a run of the engine does that can be seen from outside, in the
    order it happens: the records handed to the logger, the calls into
    mechanize, the pages constructed and the hooks called on them (a page is
    named by the number it got at construction), the files written. *)
Inductive Event :=
| Log (l : Level) (m : Msg)
| MechOpen (t : Target) (data : option string)
| MechOpenNovisit (t : Target) (data : option string)
| MechSubmit
| MechFollowLink
| PageCreated (id : nat) (url : string)
| OnLoaded (id : nat)
| FileWritten (n : nat) (r : Response)
| CookieSaved.

#[global] Instance Request_eq_dec : EqDecision Request.
Proof. solve_decision. Defined.
#[global] Instance Target_eq_dec : EqDecision Target.
Proof. solve_decision. Defined.
#[global] Instance Response_eq_dec : EqDecision Response.
Proof. solve_decision. Defined.
#[global] Instance Level_eq_dec : EqDecision Level.
Proof. solve_decision. Defined.
#[global] Instance Msg_eq_dec : EqDecision Msg.
Proof. solve_decision. Defined.
#[global] Instance Event_eq_dec : EqDecision Event.
Proof. solve_decision. Defined.

(** ** [check_location] *)

Definition startswith_slash (url : string) : bool :=
  match url with
  | String "/" _ => true
  | _ => false
  end.

(** ['%s' % x] for a value that may be [None] *)
Definition fmt (x : option string) : string :=
  match x with
  | Some s => s
  | None => "None"
  end.

(** Does the character occur in the string? *)
Fixpoint occurs (c : ascii) (s : string) : bool :=
  match s with
  | "" => false
  | String x r => bool_decide (x = c) || occurs c r
  end.

(** The URL without its fragment, as a description of [check_location]
    would have it: everything from the first ['#'] on is dropped. *)
Fixpoint without_fragment (url : string) : string :=
  match url with
  | "" => ""
  | String c r =>
      if decide (c = "#"%char) then "" else String c (without_fragment r)
  end.

(** The part of a line before its last ['#'], when it has one. *)
Fixpoint cut_last_hash (line : string) : option string :=
  match line with
  | "" => None
  | String c r =>
      match cut_last_hash r with
      | Some p => Some (String c p)
      | None => if decide (c = "#"%char) then Some "" else None
      end
  end.

Definition newline : ascii := "010"%char.

(** [s.split('\n')] and ['\n'.join(ls)] *)
Fixpoint lines (s : string) : list string :=
  match s with
  | "" => [""]
  | String c r =>
      if decide (c = newline) then "" :: lines r
      else match lines r with
           | l :: ls => String c l :: ls
           | [] => [String c ""]
           end
  end.

Fixpoint unlines (ls : list string) : string :=
  match ls with
  | [] => ""
  | [l] => l
  | l :: ls => l +:+ String newline (unlines ls)
  end.

(** The [re.sub] of [check_location]: its pattern is a group of any
    characters, greedy, then ['#'], then any characters, and the match is
    replaced by the group.  A dot does not match a newline, so a match stays
    inside a line; the group is greedy, so in a line with a ['#'] the match
    starts at the beginning of the line, its group runs to the last ['#'] of
    the line, and the rest of the line is dropped. *)
Definition sub_fragment (url : string) : string :=
  unlines (map (λ l, default l (cut_last_hash l)) (lines url)).

(** ['^%s$' % key] *)
Definition anchored (key : string) : string := "^" +:+ key +:+ "$".

(** The dictionary a display [{k1: v1, k2: v2, ...}] builds: the pairs are
    stored one after the other, a later one replacing an earlier one of the
    same key. *)
Definition dict_literal {V} (pairs : list (string * V)) : gmap string V :=
  fold_left (λ d kv, <[kv.1 := kv.2]> d) pairs ∅.

Section Engine.

Context {PageCls Document World : Type}.

(** ** Class attributes *)

Variable PROTOCOL : string.
Variable DOMAIN : option string.
Variable PAGES : gmap string PageCls.
Variable SAVE_RESPONSES : bool.

(** ** Collaborators *)

(** [d.items()]: the bindings of a dictionary, in the order in which its
    hash table holds them. *)
Variable dict_items : gmap string PageCls → list (string * PageCls).

(** [re.compile(pattern).match(string)] *)
Variable re_match : string → string → option Match.

(** [self.parser.parse(result, self.ENCODING)] *)
Variable parse : Response → Document.

(** mechanize: each call answers with a response or raises, and moves the
    state of the transport (cookies, current request, the site itself). *)
Variable mech_open : Target → option string → World → Outcome Response * World.
Variable mech_open_novisit :
  Target → option string → World → Outcome Response * World.
Variable mech_submit : World → Outcome Response * World.
Variable mech_follow_link : World → Outcome Response * World.
Variable world_request : World → option Request.

(** ** The page and the browser objects *)

(** [BasePage]; [page_id] is the identity of the object. *)
Record Page := mkPage {
  page_id : nat;
  page_cls : PageCls;
  page_document : Document;
  page_url : string;
  page_groups : list (option string);
  page_group_dict : list (string * option string)
}.

Record BrowserState := mkBrowser {
  page : option Page;
  username : option string;
  password : option string;
  _cookie : bool;                (* a cookie jar is configured *)
  responses_count : nat;
  next_id : nat;                 (* the number of the next page object *)
  trace : list Event;
  world : World
}.

Definition set_page (p : option Page) (b : BrowserState) : BrowserState :=
  mkBrowser p (username b) (password b) (_cookie b) (responses_count b)
            (next_id b) (trace b) (world b).
Definition set_world (w : World) (b : BrowserState) : BrowserState :=
  mkBrowser (page b) (username b) (password b) (_cookie b)
            (responses_count b) (next_id b) (trace b) w.
Definition add_event (e : Event) (b : BrowserState) : BrowserState :=
  mkBrowser (page b) (username b) (password b) (_cookie b)
            (responses_count b) (next_id b) (trace b ++ [e]) (world b).
Definition set_responses_count (n : nat) (b : BrowserState) : BrowserState :=
  mkBrowser (page b) (username b) (password b) (_cookie b) n
            (next_id b) (trace b) (world b).
Definition set_next_id (n : nat) (b : BrowserState) : BrowserState :=
  mkBrowser (page b) (username b) (password b) (_cookie b)
            (responses_count b) n (trace b) (world b).

(** ** The monad of methods: state and exceptions *)

Definition M (A : Type) : Type := BrowserState → Outcome A * BrowserState.

Definition ret {A} (a : A) : M A := λ b, (Ok a, b).
Definition raise {A} (e : Exn) : M A := λ b, (Raise e, b).
Definition diverge {A} : M A := λ b, (Diverge, b).
Definition bind {A B} (m : M A) (k : A → M B) : M B := λ b,
  match m b with
  | (Ok a, b') => k a b'
  | (Raise e, b') => (Raise e, b')
  | (Diverge, b') => (Diverge, b')
  end.
Definition get : M BrowserState := λ b, (Ok b, b).
Definition modify (f : BrowserState → BrowserState) : M unit :=
  λ b, (Ok tt, f b).
Definition emit (e : Event) : M unit := modify (add_event e).

Notation "x <- m ;; k" := (bind m (λ x, k))
  (at level 100, m at next level, right associativity).
Notation "m ;; k" := (bind m (λ _, k))
  (at level 100, right associativity).

(** [try: m  except ...: ...]: [handler e] is the body of the clause that
    catches [e], if there is one.  What a clause raises is not caught. *)
Definition try_except {A} (m : M A) (handler : Exn → option (M A)) : M A :=
  λ b,
  match m b with
  | (Raise e, b') =>
      match handler e with
      | Some h => h b'
      | None => (Raise e, b')
      end
  | r => r
  end.

(** ** Module code *)

(** What a module writes in [login], [home] and [on_loaded]: calls of the
    browser's own methods, tests on the browser, [raise]. *)
Inductive Proc :=
| PDone
| PRaise (e : Exn)
| PLocation (t : Target) (data : option string) (no_login : bool) (k : Proc)
| PSubmit (nologin : bool) (k : Proc)
| PFollowLink (k : Proc)
| POpenurl (t : Target) (data : option string) (if_fail_raise : bool)
           (k : Proc)
| PIf (c : BrowserState → bool) (k1 k2 : Proc).

(** [login()], [is_logged()] and [home()] of the module, and [on_loaded()] of
    each page class. *)
Variable login : Proc.
Variable is_logged : BrowserState → bool.
Variable home : Proc.
Variable on_loaded : PageCls → Proc.

(** [BasePage.on_loaded] *)
Definition BasePage_on_loaded : Proc := PDone.

(** [BaseBrowser.home] *)
Definition BaseBrowser_home : Proc :=
  match DOMAIN with
  | Some d => PLocation (UrlStr (PROTOCOL +:+ "://" +:+ d +:+ "/")) None false PDone
  | None => PDone
  end.

(** The bound methods a call goes through when the code says
    [self.location(...)], [self.submit(...)], [self.follow_link(...)]. *)
Record Self := mkSelf {
  self_location : Target → option string → bool → M unit;
  self_submit : bool → M unit;
  self_follow_link : M unit;
  self_openurl : Target → option string → bool → M (option Response)
}.

Fixpoint run (self : Self) (p : Proc) : M unit :=
  match p with
  | PDone => ret tt
  | PRaise e => raise e
  | PLocation t data no_login k =>
      self_location self t data no_login ;; run self k
  | PSubmit nologin k => self_submit self nologin ;; run self k
  | PFollowLink k => self_follow_link self ;; run self k
  | POpenurl t data if_fail_raise k =>
      self_openurl self t data if_fail_raise ;; run self k
  | PIf c k1 k2 => b <- get ;; if c b then run self k1 else run self k2
  end.

(** ** Exceptions of the transport *)

(** The classes of [except (mechanize.response_seek_wrapper,
    urllib2.HTTPError, urllib2.URLError, BadStatusLine)] *)
Definition is_transport_error (e : Exn) : bool :=
  match e with
  | response_seek_wrapper | HTTPError _ | URLError | BadStatusLine => true
  | _ => false
  end.

(** [StandardBrowser.get_exception] *)
Definition get_exception (e : Exn) : Exn :=
  match e with
  | HTTPError 404 => BrowserHTTPNotFound
  | _ => BrowserHTTPError
  end.

(** ** The decorators *)

(** The URL [check_location] hands to the method it wraps. *)
Definition check_location_url (b : BrowserState) (url : string) : string :=
  let url :=
    if startswith_slash url
       && match world_request (world b) with
          | None => true
          | Some r => bool_decide (host r ≠ DOMAIN)
          end
    then PROTOCOL +:+ "://" +:+ fmt DOMAIN +:+ url
    else url in
  sub_fragment url.

(** The first argument [check_location] hands to the method it wraps: a
    string is rewritten, anything else is passed as it is. *)
Definition check_location_target (b : BrowserState) (t : Target) : Target :=
  match t with
  | UrlStr url => UrlStr (check_location_url b url)
  | ReqObj _ => t
  end.

(** [check_location] *)
Definition check_location {A} (func : Target → M A) (t : Target) : M A :=
  λ b, func (check_location_target b t) b.

(** Modelled from the spec: the decorator [retry] of
    [weboob.tools.decorators] is not among the sources.  The call is
    attempted up to [tries] times; an exception of the class to check starts
    the next attempt, the one of the last attempt is raised to the caller. *)
Fixpoint retry {A} (check : Exn → bool) (tries : nat) (f : M A) : M A :=
  match tries with
  | 0 | 1 => f
  | S n =>
      try_except f (λ e, if check e then Some (retry check n f) else None)
  end.

Definition is_BrowserHTTPError (e : Exn) : bool :=
  bool_decide (e = BrowserHTTPError).

(** ** [StandardBrowser] *)

Definition call_mech (ev : Event)
    (f : World → Outcome Response * World) : M Response :=
  λ b, let '(r, w) := f (world b) in (r, set_world w (add_event ev b)).

(** [StandardBrowser.save_response]: the stream goes to the file numbered
    [responses_count], the counter moves on, the name is logged. *)
Definition save_response (result : Response) (warning : bool) : M unit :=
  b <- get ;;
  let n := responses_count b in
  emit (FileWritten n result) ;;
  modify (set_responses_count (S n)) ;;
  emit (Log (if warning then WARNING else INFO) (ResponseSavedTo n)).

(** ** [BaseBrowser] *)

(** The loop of [_change_location] over [self.PAGES.items()] *)
Fixpoint find_page (items : list (string * PageCls)) (url : string)
    : option (PageCls * Match) :=
  match items with
  | [] => None
  | (key, value) :: rest =>
      match re_match (anchored key) url with
      | Some m => Some (value, m)
      | None => find_page rest url
      end
  end.

(** [self.PAGES.items()] *)
Definition PAGES_items : list (string * PageCls) := dict_items PAGES.

(** The page class and the match [_change_location] finds for a URL *)
Definition dispatch (url : string) : option (PageCls * Match) :=
  find_page PAGES_items url.

(** [BaseBrowser._change_location]; [last_update], a reading of the clock,
    is left out. *)
Definition _change_location (self : Self) (result : Response) (no_login : bool)
    : M unit :=
  match dispatch (geturl result) with
  | None =>
      modify (set_page None) ;;
      emit (Log WARNING (NoPageForURL (geturl result))) ;;
      save_response result true
  | Some (pageCls, m) =>
      b <- get ;;
      emit (Log DEBUG (WentOn (username b) (geturl result))) ;;
      (if SAVE_RESPONSES then save_response result false else ret tt) ;;
      let document := parse result in
      b <- get ;;
      let p := mkPage (next_id b) pageCls document (geturl result)
                      (m_groups m) (m_groupdict m) in
      modify (set_next_id (S (next_id b))) ;;
      modify (set_page (Some p)) ;;
      emit (PageCreated (page_id p) (page_url p)) ;;
      b <- get ;;
      (if negb no_login && bool_decide (password b ≠ None)
          && negb (is_logged b)
       then emit (Log DEBUG Relogin) ;; run self login ;; raise BrowserRetry
       else ret tt) ;;
      b <- get ;;
      match page b with
      | Some p =>
          emit (OnLoaded (page_id p)) ;; run self (on_loaded (page_cls p))
      | None => raise AttributeError
      end ;;
      b <- get ;;
      if _cookie b then emit CookieSaved else ret tt
  end.

(** [self.page.url != args[0]]; a string never equals a request object. *)
Definition url_differs (p : Page) (t : Target) : bool :=
  match t with
  | UrlStr url => bool_decide (page_url p ≠ url)
  | ReqObj _ => true
  end.

(** The body of [BaseBrowser.location], under its decorators *)
Definition location_body (self : Self) (t : Target) (data : option string)
    (no_login : bool) : M unit :=
  try_except
    (result <- call_mech (MechOpen t data) (mech_open t data) ;;
     _change_location self result no_login)
    (λ e,
       match e with
       | BrowserRetry => Some (
           b <- get ;;
           match page b with
           | Some p =>
               if url_differs p t then self_location self t data true
               else ret tt
           | None => self_location self t data true
           end)
       | BrowserStateError => Some (
           run self home ;; self_location self t data no_login)
       | _ =>
           if is_transport_error e
           then Some (modify (set_page None) ;; raise (get_exception e))
           else None
       end).

(** [BaseBrowser.location] *)
Definition location (self : Self) (t : Target) (data : option string)
    (no_login : bool) : M unit :=
  check_location
    (λ t, retry is_BrowserHTTPError 3 (location_body self t data no_login)) t.

(** [BaseBrowser.submit] *)
Definition submit (self : Self) (nologin : bool) : M unit :=
  try_except
    (result <- call_mech MechSubmit mech_submit ;;
     _change_location self result nologin)
    (λ e,
       match e with
       | BrowserStateError | BrowserRetry => Some (raise BrowserUnavailable)
       | _ =>
           if is_transport_error e
           then Some (modify (set_page None) ;; raise (get_exception e))
           else None
       end).

(** [BaseBrowser.follow_link] *)
Definition follow_link (self : Self) : M unit :=
  try_except
    (result <- call_mech MechFollowLink mech_follow_link ;;
     _change_location self result false)
    (λ e,
       match e with
       | BrowserStateError | BrowserRetry => Some (
           run self home ;; raise BrowserUnavailable)
       | _ =>
           if is_transport_error e
           then Some (modify (set_page None) ;; raise (get_exception e))
           else None
       end).

(** [StandardBrowser.openurl], on a [BaseBrowser]; [if_fail_raise] is
    [if_fail == 'raise'], and [None] is the [None] the method returns. *)
Definition openurl (self : Self) (t : Target) (data : option string)
    (if_fail_raise : bool) : M (option Response) :=
  check_location
    (λ t, retry is_BrowserHTTPError 3 (
       emit (Log DEBUG (OpeningURL t)) ;;
       try_except
         (r <- call_mech (MechOpenNovisit t data) (mech_open_novisit t data) ;;
          ret (Some r))
         (λ e,
            match e with
            | BrowserStateError | BrowserRetry => Some (
                run self home ;;
                r <- call_mech (MechOpen t data) (mech_open t data) ;;
                ret (Some r))
            | _ =>
                if is_transport_error e
                then Some (if if_fail_raise then raise (get_exception e)
                           else ret None)
                else None
            end))) t.

(** ** Tying the knot *)

(** [browser fuel] is the browser object whose methods may nest calls of
    one another [fuel] deep; a call nested deeper does not return. *)
Fixpoint browser (fuel : nat) : Self :=
  match fuel with
  | 0 => mkSelf (λ _ _ _, diverge) (λ _, diverge) diverge (λ _ _ _, diverge)
  | S n =>
      mkSelf (location (browser n)) (submit (browser n))
             (follow_link (browser n)) (openurl (browser n))
  end.

(** ** What the facts below count *)

(** The procedures that pass [no_login=True] to every [location] and
    [nologin=True] to every [submit], and do not call [follow_link], which
    has no such flag. *)
Fixpoint flagged (p : Proc) : Prop :=
  match p with
  | PDone | PRaise _ => True
  | PLocation _ _ no_login k => no_login = true ∧ flagged k
  | PSubmit nologin k => nologin = true ∧ flagged k
  | PFollowLink _ => False
  | POpenurl _ _ _ k => flagged k
  | PIf _ k1 k2 => flagged k1 ∧ flagged k2
  end.

(** ** Moments of a call *)

(** The login gate of [_change_location] *)
Definition gate (nl : bool) (b : BrowserState) : bool :=
  negb nl && bool_decide (password b ≠ None) && negb (is_logged b).

(** The page [_change_location] constructs, and the state in which it has
    constructed it *)
Definition page_made (cls : PageCls) (m : Match) (r : Response)
    (b : BrowserState) : Page :=
  mkPage (next_id b) cls (parse r) (geturl r) (m_groups m) (m_groupdict m).

Definition with_page (cls : PageCls) (m : Match) (r : Response)
    (b : BrowserState) : BrowserState :=
  add_event (PageCreated (next_id b) (geturl r))
    (set_page (Some (page_made cls m r b)) (set_next_id (S (next_id b)) b)).

(** What [_change_location] does up to the construction of the page *)
Definition before_page (r : Response) (b : BrowserState) : BrowserState :=
  let b1 := add_event (Log DEBUG (WentOn (username b) (geturl r))) b in
  if SAVE_RESPONSES
  then add_event (Log INFO (ResponseSavedTo (responses_count b1)))
         (set_responses_count (S (responses_count b1))
            (add_event (FileWritten (responses_count b1) r) b1))
  else b1.

(** What [_change_location] does once the hook has returned *)
Definition save_cookie : M unit :=
  b <- get ;; if _cookie b then emit CookieSaved else ret tt.

(** The state [_change_location] leaves when no pattern matches: no page,
    the warning with the URL in the log, the response in the file of the
    next number, and the name of the file in the log, as a warning. *)
Definition page_missing (r : Response) (b : BrowserState) : BrowserState :=
  add_event (Log WARNING (ResponseSavedTo (responses_count b)))
    (set_responses_count (S (responses_count b))
       (add_event (FileWritten (responses_count b) r)
          (add_event (Log WARNING (NoPageForURL (geturl r)))
             (set_page None b)))).

(** The test of [location] after a [BrowserRetry] *)
Definition must_reload (t : Target) (b : BrowserState) : bool :=
  match page b with
  | Some p => url_differs p t
  | None => true
  end.

(** ** What a call adds to the trace *)

(** In a run from a state where the next page gets the number [lo] to one
    where it gets [hi], the pages made and loaded are those of the numbers
    in between; a [strict] run is one that starts no login. *)
Definition event_ok (strict : bool) (lo hi : nat) (ev : Event) : Prop :=
  match ev with
  | OnLoaded i | PageCreated i _ => (lo ≤ i < hi)%nat
  | Log DEBUG Relogin => strict = false
  | _ => True
  end.

Definition step_ok (strict : bool) (b b' : BrowserState) : Prop :=
  ∃ ext, trace b' = trace b ++ ext
         ∧ (next_id b ≤ next_id b')%nat
         ∧ Forall (event_ok strict (next_id b) (next_id b')) ext.

Definition pres_at (strict : bool) {A} (b : BrowserState) (m : M A) : Prop :=
  step_ok strict b (m b).2.

(** An event that tells of no page and no login. *)
Definition neutral (ev : Event) : Prop :=
  match ev with
  | OnLoaded _ | PageCreated _ _ | Log DEBUG Relogin => False
  | _ => True
  end.

(** The calls a procedure may make in a run of this kind: all of them in
    any run, the flagged ones in a strict run. *)
Definition self_ok (strict : bool) (self : Self) : Prop :=
  (∀ t data nl b, (strict = true → nl = true) →
                  pres_at strict b (self_location self t data nl))
  ∧ (∀ nl b, (strict = true → nl = true) →
             pres_at strict b (self_submit self nl))
  ∧ (∀ b, strict = false → pres_at strict b (self_follow_link self))
  ∧ (∀ t data f b, pres_at strict b (self_openurl self t data f)).

Definition proc_ok (strict : bool) (p : Proc) : Prop :=
  strict = true → flagged p.

(** ** The other methods *)

(** [BaseBrowser.absurl] *)
Definition absurl (rel : option string) : option string :=
  match rel with
  | None => None
  | Some rel =>
      let rel := if startswith_slash rel then rel else "/" +:+ rel in
      Some (PROTOCOL +:+ "://" +:+ fmt DOMAIN +:+ rel)
  end.

(** [StandardBrowser.readurl]; [if_fail] is [None] unless the caller gives
    it, and a response is a true value. *)
Definition readurl (self : Self) (t : Target) (data : option string)
    (if_fail_raise : bool) : M (option string) :=
  result <- self_openurl self t data if_fail_raise ;;
  match result with
  | Some r =>
      (if SAVE_RESPONSES then save_response r false else ret tt) ;;
      ret (Some (read r))
  | None => ret None
  end.

(** [BrowserUnavailable] and its subclasses: what [except BrowserUnavailable]
    catches. *)
Definition is_BrowserUnavailable (e : Exn) : bool :=
  match e with
  | BrowserUnavailable | BrowserHTTPNotFound | BrowserHTTPError => true
  | _ => false
  end.

(** The truth value of a string that may be [None] *)
Definition nonempty (s : option string) : bool :=
  match s with
  | Some (String _ _) => true
  | _ => false
  end.

(** The object [BaseBrowser.__init__] has set up when it comes to its last
    statement: no page, the user name and the password, a cookie jar if
    there are cookies to share, nothing saved yet. *)
Definition new_browser (username password : option string) (cookies : bool)
    (w : World) : BrowserState :=
  mkBrowser None username password cookies 0 0 [] w.

(** [BaseBrowser.__init__], on the transport [w] *)
Definition BaseBrowser_init (self : Self) (username password : option string)
    (cookies : bool) (get_home : bool) (w : World)
    : Outcome unit * BrowserState :=
  (if nonempty password && get_home
   then try_except (run self home)
          (λ e, if is_BrowserUnavailable e then Some (ret tt) else None)
   else ret tt) (new_browser username password cookies w).

(** ** What a call keeps *)

(** The state [save_response] leaves *)
Definition saved (r : Response) (l : Level) (b : BrowserState)
    : BrowserState :=
  add_event (Log l (ResponseSavedTo (responses_count b)))
    (set_responses_count (S (responses_count b))
       (add_event (FileWritten (responses_count b) r) b)).

(** The events other than the writing of a file, the start of a login,
    the making of a page and the call of its hook *)
Definition plain (ev : Event) : Prop :=
  match ev with
  | FileWritten _ _ | Log DEBUG Relogin | PageCreated _ _ | OnLoaded _ => False
  | _ => True
  end.

(** A relation between the state before and the state after holds of a
    method, and of all the methods of a browser. *)
Definition keeps (R : BrowserState → BrowserState → Prop) {A}
    (b : BrowserState) (m : M A) : Prop :=
  R b (m b).2.

Definition self_keeps (R : BrowserState → BrowserState → Prop) (self : Self)
    : Prop :=
  (∀ t data nl b, keeps R b (self_location self t data nl))
  ∧ (∀ nl b, keeps R b (self_submit self nl))
  ∧ (∀ b, keeps R b (self_follow_link self))
  ∧ (∀ t data f b, keeps R b (self_openurl self t data f)).

(** The numbers of the files written, in the order of the writing *)
Definition written (tr : list Event) : list nat :=
  omap (λ ev, match ev with FileWritten n _ => Some n | _ => None end) tr.

(** The numbers of the pages whose hook was called, in the order of the
    calls *)
Definition loaded (tr : list Event) : list nat :=
  omap (λ ev, match ev with OnLoaded i => Some i | _ => None end) tr.

(** From [b] to [b'] the log has grown, and the hooks called in between are
    those of pages made in between, each called at most once. *)
Definition hooks_kept (b b' : BrowserState) : Prop :=
  ∃ ext, trace b' = trace b ++ ext
         ∧ (next_id b ≤ next_id b')%nat
         ∧ NoDup (loaded ext)
         ∧ Forall (λ i, (next_id b ≤ i < next_id b')%nat) (loaded ext).

(** From [b] to [b'] the log has grown, and the files written in between
    bear the numbers from the counter of [b] up to that of [b']. *)
Definition files_kept (b b' : BrowserState) : Prop :=
  ∃ ext, trace b' = trace b ++ ext
         ∧ (responses_count b ≤ responses_count b')%nat
         ∧ written ext
           = seq (responses_count b) (responses_count b' - responses_count b).

End Engine.

Notation "x <- m ;; k" := (bind m (λ x, k))
  (at level 100, m at next level, right associativity).
Notation "m ;; k" := (bind m (λ _, k))
  (at level 100, right associativity).

(** The number of times [login()] was started: [_change_location] logs
    "!! Relogin !!" right before each call, and nothing else does. *)
Definition relogins (tr : list Event) : nat :=
  length (filter (λ e, e = Log DEBUG Relogin) tr).

(** The number of calls [mechanize.Browser.open(t, data)]. *)
Definition opens (t : Target) (data : option string) (tr : list Event) : nat :=
  length (filter (λ e, e = MechOpen t data) tr).

(** The number of calls of [on_loaded] on the page of number [id]. *)
Definition loads (id : nat) (tr : list Event) : nat :=
  length (filter (λ e, e = OnLoaded id) tr).

(** From [b] to [b'] no password has been set and no login started, if
    [b] has no password. *)
Definition no_login_kept {PageCls Document World : Type}
    (b b' : @BrowserState PageCls Document World) : Prop :=
  password b = None →
  password b' = None ∧ relogins (trace b') = relogins (trace b).

(** ** The proxy *)

(** [s] without the prefix [p], if it starts with it *)
Fixpoint strip_prefix (p s : string) : option string :=
  match p, s with
  | "", _ => Some s
  | String a p', String c s' =>
      if decide (a = c) then strip_prefix p' s' else None
  | String _ _, "" => None
  end.

(** [s.split(sep, 1)] when [s.find(sep) >= 0]: the parts before and after
    the first occurrence of [sep]. *)
Fixpoint split_once (sep s : string) : option (string * string) :=
  match strip_prefix sep s with
  | Some rest => Some ("", rest)
  | None =>
      match s with
      | "" => None
      | String c r =>
          match split_once sep r with
          | Some (a, b) => Some (String c a, b)
          | None => None
          end
      end
  end.

(** The protocol and the address [StandardBrowser.__init__] hands to
    [set_proxies], if it calls it. *)
Definition proxy_setting (proxy : option string) : option (string * string) :=
  match proxy with
  | None | Some "" => None
  | Some p =>
      match split_once "://" p with
      | Some (proto, domain) => Some (proto, domain)
      | None => Some ("http", p)
      end
  end.

(** ** Building a URL *)

(** [StandardBrowser.buildurl]: the pairs given by position, or else those
    given by keyword (in the order their dictionary lists them), are encoded
    by [urllib.urlencode] and follow the base after a ['?']; with neither,
    the base is returned. *)
Definition buildurl (urlencode : list (string * string) → string)
    (base : string) (args kwargs : list (string * string)) : string :=
  let args := match args with [] => kwargs | _ :: _ => args end in
  match args with
  | [] => base
  | _ :: _ => base +:+ "?" +:+ urlencode args
  end.

End Browser.

(** * A small regular expression engine

    The engine of the [re] module is a parameter of both parts.  To run them
    on examples, this is a matcher for the patterns made of literal
    characters, the dot, a star after a character or a dot, a leading [^]
    and a trailing [$]; such patterns have no groups. *)

Module Regex.

Import Filters.

(** A pattern character against a text character; the dot matches all but
    the newline. *)
Definition matchchar (c x : char) : bool :=
  if (c =? 46)%N then negb (x =? 10)%N else (c =? x)%N.

(** [$] matches at the end, and before a newline that ends the text. *)
Definition at_end (t : text) : bool :=
  match t with
  | [] | [10%N] => true
  | _ => false
  end.

(** Does the pattern match a prefix of the text? *)
Fixpoint matchhere (re : text) : text → bool :=
  match re with
  | [] => λ _, true
  | c :: re' =>
      match re' with
      | 42%N :: re'' =>
          fix star (t : text) : bool :=
            matchhere re'' t
            || match t with
               | x :: t' => matchchar c x && star t'
               | [] => false
               end
      | [] =>
          λ t, if (c =? 36)%N then at_end t
               else match t with
                    | x :: _ => matchchar c x
                    | [] => false
                    end
      | _ =>
          λ t, match t with
               | x :: t' => matchchar c x && matchhere re' t'
               | [] => false
               end
      end
  end.

(** [re.compile(pattern).match(txt)] *)
Definition match_ (pattern txt : text) : bool :=
  match pattern with
  | 94%N :: re => matchhere re txt
  | _ => matchhere pattern txt
  end.

(** [re.compile(pattern).search(txt)] *)
Fixpoint search_from (pattern txt : text) : bool :=
  matchhere pattern txt
  || match txt with
     | _ :: t' => search_from pattern t'
     | [] => false
     end.

Definition search (pattern txt : text) : bool :=
  match pattern with
  | 94%N :: re => matchhere re txt
  | _ => search_from pattern txt
  end.

Definition re_match (pattern s : string) : option Browser.Match :=
  if match_ (u pattern) (u s) then Some (Browser.mkMatch [] []) else None.

Definition re_search (pattern : text) (flags : Z) (txt : text)
    : option Filters.Match :=
  if search pattern txt then Some (Filters.mkMatch [] []) else None.

(** [mobj.expand(template)] for a template without group references *)
Definition re_expand (m : Filters.Match) (template : text) : Outcome text :=
  Ok template.

End Regex.

(** * A site to run the browser on

    A bank with a login page, a home page and a page of accounts behind the
    login.  The session is on the side of the site. *)

Module Bank.

Import Browser.
Local Open Scope string_scope.
Local Open Scope list_scope.

Inductive Cls := LoginPage | HomePage | AccountsPage.

#[global] Instance Cls_eq_dec : EqDecision Cls.
Proof. solve_decision. Defined.

Record Site := mkSite {
  session : bool;                 (* the visitor has logged in *)
  request : option Request        (* the request mechanize is on *)
}.

Definition respond (url : string) : Response :=
  mkResponse url "text/html" "<html></html>".

Definition on_bank (w : Site) : Site :=
  mkSite (session w) (Some (mkRequest (Some "bank"))).

Definition logged_in (w : Site) : Site :=
  mkSite true (Some (mkRequest (Some "bank"))).

(** What the site answers to a request.  The accounts are shown to a
    visitor with a session and anyone else is sent to the login page; the
    right password posted to [/auth] opens the session and leads home;
    [/down] is not reachable and [/gone] does not exist. *)
Definition serve (t : Target) (data : option string) (w : Site)
    : Outcome Response * Site :=
  match t with
  | ReqObj _ => (Raise URLError, w)
  | UrlStr url =>
      if decide (url = "http://bank/auth") then
        if decide (data = Some "secret")
        then (Ok (respond "http://bank/home"), logged_in w)
        else (Ok (respond "http://bank/login"), on_bank w)
      else if decide (url = "http://bank/accounts") then
        if session w then (Ok (respond url), on_bank w)
        else (Ok (respond "http://bank/login"), on_bank w)
      else if decide (url = "http://bank/down") then (Raise URLError, w)
      else if decide (url = "http://bank/gone") then (Raise (HTTPError 404), w)
      else (Ok (respond url), on_bank w)
  end.

(** Submitting the form of the login page opens the session and leads
    home. *)
Definition serve_submit (w : Site) : Outcome Response * Site :=
  (Ok (respond "http://bank/home"), logged_in w).

Definition serve_link (w : Site) : Outcome Response * Site :=
  (Ok (respond "http://bank/home"), on_bank w).

Definition parse (r : Response) : string := read r.

Definition PAGES : gmap string Cls :=
  {[ "http://bank/login" := LoginPage;
     "http://bank/home" := HomePage;
     "http://bank/accounts" := AccountsPage ]}.

(** The order in which the dictionaries of the bank list their bindings *)
Definition dict_items : gmap string Cls → list (string * Cls) := map_to_list.

Definition State := @BrowserState Cls string Site.

(** A browser that has not moved yet, for a user with a password. *)
Definition start : State :=
  mkBrowser None (Some "alice") (Some "secret") false 0 0 []
            (mkSite false None).

(** A browser that is on the home page, with a session. *)
Definition at_home : State :=
  mkBrowser (Some (mkPage 0 HomePage "<html></html>" "http://bank/home" [] []))
            (Some "alice") (Some "secret") false 0 1 []
            (mkSite true (Some (mkRequest (Some "bank")))).

(** The two usual ways to tell a session: by the page the browser is on, or
    by what the transport holds. *)
Definition is_logged_by_page (b : State) : bool :=
  match page b with
  | Some p => bool_decide (page_cls p ≠ LoginPage)
  | None => false
  end.

Definition is_logged_by_session (b : State) : bool := session (world b).

(** A login that posts the password, with the flag, and raises if that did
    not lead away from the login page. *)
Definition login_post : @Proc Cls string Site :=
  PLocation (UrlStr "http://bank/auth") (Some "secret") true
    (PIf is_logged_by_page PDone (PRaise BrowserIncorrectPassword)).

(** A login that posts the password without loading a page. *)
Definition login_openurl : @Proc Cls string Site :=
  POpenurl (UrlStr "http://bank/auth") (Some "secret") true PDone.

(** A login that submits the form of the page it is on. *)
Definition login_submit : @Proc Cls string Site :=
  PSubmit true PDone.

(** A login that first goes to the login page, then submits its form, and
    passes the flag to the second call only. *)
Definition login_visit_unflagged : @Proc Cls string Site :=
  PLocation (UrlStr "http://bank/login") None false (PSubmit true PDone).

(** [home()] as [BaseBrowser] has it, and a [home()] that does nothing. *)
Definition home_base : @Proc Cls string Site :=
  BaseBrowser_home "http" (Some "bank").
Definition home_pass : @Proc Cls string Site := PDone.

(** The browser of a module of the bank, given its page table, [login],
    [is_logged] and [home]; the pages keep the [on_loaded] of [BasePage]. *)
Definition bank (pages : gmap string Cls) (login : @Proc Cls string Site)
    (is_logged : State → bool) (home : @Proc Cls string Site) (fuel : nat)
    : @Self Cls string Site :=
  browser "http" (Some "bank") pages false dict_items Regex.re_match parse
          serve serve serve_submit serve_link request
          login is_logged home (λ _, BasePage_on_loaded) fuel.

End Bank.

(** * A module: Crédit du Nord

    [modules/creditdunord/browser.py], a browser built on [BaseBrowser]. *)

Module CreditDuNord.

Import Browser.
Local Open Scope string_scope.
Local Open Scope list_scope.

(** The page classes of the module; none is taken to be a subclass of
    another. *)
Inductive Cls := LoginPage | AccountsPage | TransactionsPage.

#[global] Instance Cls_eq_dec : EqDecision Cls.
Proof. solve_decision. Defined.

(** [CreditDuNordBrowser.PAGES] *)
Definition PAGES : gmap string Cls :=
  dict_literal
    [ ("https://[^/]+/?", LoginPage);
      ("https://[^/]+/.*\?.*_pageLabel=page_erreur_connexion", LoginPage);
      ("https://[^/]+/vos-comptes/particuliers(\?.*)?", AccountsPage);
      ("https://[^/]+/vos-comptes/.*/transac/.*", TransactionsPage) ].

(** The group of the pattern of [login], ['www.([^\.]+).fr'], on what
    follows the first four characters: one or more characters other than a
    point, as many as possible, such that any character but a newline and
    then ["fr"] follow. *)
Fixpoint group_before_fr (s : string) : option string :=
  match s with
  | "" => None
  | String c rest =>
      if decide (c = "."%char) then None
      else
        match group_before_fr rest with
        | Some g => Some (String c g)
        | None =>
            match rest with
            | String x (String "f" (String "r" _)) =>
                if decide (x = newline) then None else Some (String c "")
            | _ => None
            end
        end
  end.

(** [bank_name] as [login] computes it from [self.DOMAIN]: the group of
    the match, or ['credit-du-nord'] when [re.match] finds none.  The
    pattern starts with ["www"] and any character but a newline. *)
Definition bank_name (domain : string) : string :=
  match domain with
  | String "w" (String "w" (String "w" (String x rest))) =>
      if decide (x = newline) then "credit-du-nord"
      else default "credit-du-nord" (group_before_fr rest)
  | _ => "credit-du-nord"
  end.

Section Site.

Context {Document World : Type}.

(** [urllib.urlencode], the order in which the dictionary [data] lists its
    items, and [s.encode('UTF-8')] *)
Variable urlencode : list (string * string) → string.
Variable dict_items : gmap string string → list (string * string).
Variable encode : string → string.

(** [self.DOMAIN], the [website] given to the constructor *)
Variable website : string.

(** [BaseBrowser.is_on_page] *)
Definition is_on_page (pageCls : Cls)
    (b : @BrowserState Cls Document World) : bool :=
  match page b with
  | Some p => bool_decide (page_cls p = pageCls)
  | None => false
  end.

(** [CreditDuNordBrowser.is_logged] *)
Definition is_logged (b : @BrowserState Cls Document World) : bool :=
  bool_decide (page b ≠ None) && negb (is_on_page LoginPage b).

(** The dictionary [data] of [login] *)
Definition login_data (username password : string) : gmap string string :=
  dict_literal
    [ ("bank", bank_name website);
      ("pagecible", "vos-comptes");
      ("password", encode password);
      ("pwAuth", "Authentification+mot+de+passe");
      ("username", encode username) ].

(** [CreditDuNordBrowser.login], for a user name and a password that are
    strings, as the method asserts; the record it hands to the logger when
    the domain gives no bank name is left out. *)
Definition login (username password : string) : @Proc Cls Document World :=
  PLocation (UrlStr (buildurl urlencode "/saga/authentification" [] []))
    (Some (urlencode (dict_items (login_data username password)))) true
    (PIf is_logged PDone (PRaise BrowserIncorrectPassword)).

(** [CreditDuNordBrowser.home] *)
Definition home (username password : string) : @Proc Cls Document World :=
  PIf is_logged
    (PLocation (UrlStr (buildurl urlencode "/vos-comptes/particuliers" [] []))
       None false PDone)
    (login username password).

End Site.

End CreditDuNord.

(** * Facts about the filters *)

Module FilterFacts.

Import Filters.

Section Cleaning.

Variable ws : char → bool.
Variable cls : char → bool.

(** *** Replacing runs *)

Lemma sub_runs_length b t : length (sub_runs cls b t) ≤ length t.
Proof.
  revert b. induction t as [|c r IH]; intros b; simpl; [lia|].
  destruct (cls c); [destruct b|]; simpl;
    [specialize (IH true) | specialize (IH true) | specialize (IH false)]; lia.
Qed.

(** A text in which the runs are replaced already is left as it is, also
    when it is read as the continuation of a run. *)
Lemma sub_runs_twice t :
  ∀ b, sub_runs cls false (sub_runs cls b t) = sub_runs cls b t
       ∧ sub_runs cls true (sub_runs cls true t) = sub_runs cls true t.
Proof.
  induction t as [|c r IH]; intros b; simpl; [done|].
  destruct (cls c) eqn:Hc.
  - split.
    + destruct b.
      * apply (IH true).
      * simpl. destruct (cls SP) eqn:Hsp.
        -- f_equal. apply (IH true).
        -- f_equal. apply (IH true).
    + apply (IH true).
  - split.
    + simpl. rewrite Hc. f_equal. apply (IH false).
    + simpl. rewrite Hc. f_equal. apply (IH false).
Qed.

Lemma sub_runs_idempotent t :
  sub_runs cls false (sub_runs cls false t) = sub_runs cls false t.
Proof. apply sub_runs_twice. Qed.

Lemma sub_runs_fixed_weaken t :
  sub_runs cls true t = t → sub_runs cls false t = t.
Proof.
  destruct t as [|c r]; simpl; [done|].
  destruct (cls c); [|done].
  intros H. pose proof (sub_runs_length true r) as Hl.
  rewrite H in Hl. simpl in Hl. lia.
Qed.

Lemma sub_runs_fixed_tail c t :
  sub_runs cls false (c :: t) = c :: t → sub_runs cls false t = t.
Proof.
  simpl. destruct (cls c).
  - intros H. apply sub_runs_fixed_weaken. congruence.
  - congruence.
Qed.

Lemma sub_runs_fixed_suffix p q :
  sub_runs cls false (p ++ q) = p ++ q → sub_runs cls false q = q.
Proof.
  induction p as [|c p IH]; simpl app; [done|].
  intros H. apply IH. by apply sub_runs_fixed_tail with c.
Qed.

Lemma sub_runs_fixed_prefix p q b :
  sub_runs cls b (p ++ q) = p ++ q → sub_runs cls b p = p.
Proof.
  revert b. induction p as [|c p IH]; intros b; simpl; [done|].
  destruct (cls c).
  - destruct b.
    + intros H. pose proof (sub_runs_length true (p ++ q)) as Hl.
      rewrite H in Hl. simpl in Hl. lia.
    + intros H. injection H as Hc H. rewrite Hc. f_equal. by apply IH.
  - intros H. injection H as H. f_equal. by apply IH.
Qed.

(** *** Stripping *)

Lemma lstrip_suffix t : ∃ p, t = p ++ lstrip ws t.
Proof.
  induction t as [|c r [p IH]]; simpl.
  - by exists [].
  - destruct (ws c).
    + exists (c :: p). simpl. by f_equal.
    + by exists [].
Qed.

Lemma rstrip_prefix t : ∃ q, t = rstrip ws t ++ q.
Proof.
  induction t as [|c r [q IH]]; simpl.
  - by exists [].
  - destruct (rstrip ws r) as [|x r'] eqn:Hr.
    + destruct (ws c).
      * by exists (c :: r).
      * exists q. simpl. f_equal. by simpl in IH.
    + exists q. simpl. f_equal. by simpl in IH.
Qed.

Lemma lstrip_starts_clean t : starts_clean ws (lstrip ws t).
Proof.
  induction t as [|c r IH]; simpl; [done|].
  destruct (ws c) eqn:Hc; [done|]. simpl. done.
Qed.

Lemma lstrip_fixed t : starts_clean ws t → lstrip ws t = t.
Proof. destruct t as [|c r]; simpl; [done|]. by intros ->. Qed.

Lemma rstrip_starts_clean t :
  starts_clean ws t → starts_clean ws (rstrip ws t).
Proof.
  destruct t as [|c r]; simpl; [done|].
  intros Hc. destruct (rstrip ws r); [rewrite Hc|]; done.
Qed.

Lemma rstrip_idempotent t : rstrip ws (rstrip ws t) = rstrip ws t.
Proof.
  induction t as [|c r IH]; simpl; [done|].
  destruct (rstrip ws r) as [|x r'] eqn:Hr.
  - destruct (ws c) eqn:Hc; simpl; [done|]. by rewrite Hc.
  - change (rstrip ws (c :: x :: r')) with
      (match rstrip ws (x :: r') with
       | [] => if ws c then [] else [c]
       | r'' => c :: r''
       end).
    by rewrite IH.
Qed.

Lemma strip_idempotent t : strip ws (strip ws t) = strip ws t.
Proof.
  unfold strip.
  rewrite (lstrip_fixed (rstrip ws (lstrip ws t))).
  - apply rstrip_idempotent.
  - apply rstrip_starts_clean, lstrip_starts_clean.
Qed.

Lemma strip_keeps_fixed t :
  sub_runs cls false t = t → sub_runs cls false (strip ws t) = strip ws t.
Proof.
  intros H. unfold strip.
  destruct (lstrip_suffix t) as [p Hp].
  destruct (rstrip_prefix (lstrip ws t)) as [q Hq].
  apply sub_runs_fixed_prefix with q. rewrite <- Hq.
  apply sub_runs_fixed_suffix with p. by rewrite <- Hp.
Qed.

End Cleaning.

Lemma clean_str_idempotent ws s :
  clean_str ws (clean_str ws s) = clean_str ws s.
Proof.
  unfold clean_str.
  rewrite strip_keeps_fixed by apply sub_runs_idempotent.
  apply strip_idempotent.
Qed.

(** C7. Text-cleaner idempotence: for every string, and whichever space
    predicate its type strips with, cleaning the cleaned string with
    [CleanText.clean] gives the cleaned string again. *)
Theorem clean_idempotent (ws : char → bool) (s : text) :
  (r ← clean ws (VStr s); clean ws (VStr r)) = clean ws (VStr s).
Proof.
  simpl. unfold mbind, Outcome_bind. simpl. f_equal. apply clean_str_idempotent.
Qed.

(** The cleaned string is left as it is by both steps of the cleaning. *)
Lemma clean_str_normal ws s :
  sub_runs clean_class false (clean_str ws s) = clean_str ws s
  ∧ strip ws (clean_str ws s) = clean_str ws s.
Proof.
  unfold clean_str. split.
  - apply strip_keeps_fixed, sub_runs_idempotent.
  - apply strip_idempotent.
Qed.

(** Spaces, a tab, a newline and a no-break space between two words and
    around them. *)
Example clean_str_words :
  clean_str unicode_isspace [32; 97; 9; 160; 32; 98; 10; 160]%N = u "a b".
Proof. reflexivity. Qed.

(** ** The decimal filter on a continental number *)

Ltac char_cases :=
  unfold number_char, is_digit, clean_class, re_space, unicode_isspace,
    str_isspace in *;
  repeat match goal with
         | H : _ && _ = true |- _ => apply andb_true_iff in H; destruct H
         | H : _ || _ = true |- _ => apply orb_true_iff in H; destruct H
         | H : _ && _ = false |- _ => apply andb_false_iff in H; destruct H
         | H : _ || _ = false |- _ => apply orb_false_iff in H; destruct H
         | H : (_ <=? _)%N = true |- _ => apply N.leb_le in H
         | H : (_ <=? _)%N = false |- _ => apply N.leb_gt in H
         | H : (_ =? _)%N = true |- _ => apply N.eqb_eq in H
         | H : (_ =? _)%N = false |- _ => apply N.eqb_neq in H
         end.

Lemma number_char_not_class c : number_char c = true → clean_class c = false.
Proof.
  intros H. destruct (clean_class c) eqn:E; [|done].
  exfalso. char_cases; lia.
Qed.

Lemma number_char_not_space c :
  number_char c = true → unicode_isspace c = false.
Proof.
  intros H. destruct (unicode_isspace c) eqn:E; [|done].
  exfalso. char_cases; lia.
Qed.

Lemma sub_runs_none cls t :
  Forall (λ c, cls c = false) t → sub_runs cls false t = t.
Proof.
  induction 1 as [|c r Hc _ IH]; simpl; [done|]. by rewrite Hc, IH.
Qed.

Lemma rstrip_none ws t : Forall (λ c, ws c = false) t → rstrip ws t = t.
Proof.
  induction 1 as [|c r Hc _ IH]; simpl; [done|].
  rewrite IH, Hc. by destruct r.
Qed.

Lemma strip_none ws t : Forall (λ c, ws c = false) t → strip ws t = t.
Proof.
  intros H. unfold strip. rewrite lstrip_fixed.
  - by apply rstrip_none.
  - destruct H; simpl; done.
Qed.

Section Numbers.

Variable ws : char → bool.
Hypothesis ws_spaces : ∀ c, ws c = true → unicode_isspace c = true.

Lemma number_char_not_ws c : number_char c = true → ws c = false.
Proof.
  intros H. destruct (ws c) eqn:E; [|done].
  apply ws_spaces in E. by rewrite number_char_not_space in E.
Qed.

Lemma clean_str_number t :
  Forall (λ c, number_char c = true) t → clean_str ws t = t.
Proof.
  intros H. unfold clean_str. rewrite sub_runs_none.
  - apply strip_none. eapply List.Forall_impl; [|exact H].
    intros c. apply number_char_not_ws.
  - eapply List.Forall_impl; [|exact H]. intros c. apply number_char_not_class.
Qed.

End Numbers.

Lemma replace_char_app old new a b :
  replace_char old new (a ++ b)
  = replace_char old new a ++ replace_char old new b.
Proof. unfold replace_char. apply flat_map_app. Qed.

Lemma replace_char_absent old new t :
  Forall (λ c, c ≠ old) t → replace_char old new t = t.
Proof.
  induction 1 as [|c r Hc _ IH]; [done|].
  unfold replace_char in *. simpl. rewrite IH.
  apply N.eqb_neq in Hc. by rewrite Hc.
Qed.

Lemma remove_points t :
  Forall (λ c, is_digit c = true ∨ c = 46%N) t →
  replace_char 46%N [] t = List.filter is_digit t.
Proof.
  induction 1 as [|c r Hc _ IH]; [done|].
  unfold replace_char in *. simpl. rewrite IH.
  destruct Hc as [Hc | ->].
  - rewrite Hc. destruct (c =? 46)%N eqn:E; [|done].
    exfalso. char_cases; lia.
  - done.
Qed.

Lemma filter_digits t : Forall (λ c, is_digit c = true) (List.filter is_digit t).
Proof.
  apply List.Forall_forall. intros c Hc. by apply filter_In in Hc as [_ Hc].
Qed.

Lemma digits_number_chars t :
  Forall (λ c, is_digit c = true) t → Forall (λ c, number_char c = true) t.
Proof.
  apply List.Forall_impl. intros c H. unfold number_char. by rewrite H.
Qed.

Lemma digits_without old t :
  (old = 44 ∨ old = 45 ∨ old = 46)%N →
  Forall (λ c, is_digit c = true) t → Forall (λ c, c ≠ old) t.
Proof.
  intros Ho. apply List.Forall_impl. intros c H ->.
  char_cases; lia.
Qed.

Lemma keep_number_chars_fixed t :
  Forall (λ c, is_digit c = true ∨ c = 45%N ∨ c = 46%N) t →
  keep_number_chars t = t.
Proof.
  induction 1 as [|c r Hc _ IH]; [done|].
  unfold keep_number_chars in *. simpl. rewrite IH.
  destruct Hc as [-> | [-> | ->]]; done.
Qed.

Lemma span_digits a b :
  Forall (λ c, is_digit c = true) a →
  match b with [] => True | c :: _ => is_digit c = false end →
  span is_digit (a ++ b) = (a, b).
Proof.
  intros Ha Hb. induction Ha as [|c r Hc _ IH]; simpl.
  - destruct b as [|c b]; [done|]. simpl. by rewrite Hb.
  - by rewrite Hc, IH.
Qed.

(** The text the parser of [Decimal] gets from a continental number: the sign
    if there is one, the digits of the integer part, a point, the
    fractional digits. *)
Lemma Decimal_of_digits ws (neg : bool) (ip fp : text) :
  (∀ c, ws c = true → unicode_isspace c = true) →
  Forall (λ c, is_digit c = true) ip → ip ≠ [] →
  Forall (λ c, is_digit c = true) fp →
  Decimal_of_text ws ((if neg then [45%N] else []) ++ ip ++ 46%N :: fp)
  = Ok (mkDecimal neg (digits_value (ip ++ fp)) (- Z.of_nat (length fp))).
Proof.
  intros Hws Hip Hne Hfp. unfold Decimal_of_text.
  rewrite strip_none.
  2:{ apply List.Forall_impl with (P := λ c, number_char c = true).
      - intros c. by apply number_char_not_ws.
      - apply Forall_app. split; [destruct neg; repeat constructor|].
        apply Forall_app. split; [by apply digits_number_chars|].
        constructor; [done|]. by apply digits_number_chars. }
  assert (Hspan : span is_digit (ip ++ 46%N :: fp) = (ip, 46%N :: fp))
    by (by apply span_digits).
  assert (Hfrac : span is_digit fp = (fp, [])).
  { rewrite <- (app_nil_r fp) at 1. by apply span_digits. }
  destruct ip as [|d ip']; [done|].
  assert (Hd : (d =? 45)%N = false ∧ (d =? 43)%N = false).
  { inversion Hip as [|? ? Hd _]; subst.
    split; apply N.eqb_neq; intros ->; char_cases; lia. }
  destruct Hd as [Hd1 Hd2].
  destruct neg; simpl app in *.
  - cbn [N.eqb Pos.eqb]. rewrite Hspan. cbn [N.eqb Pos.eqb].
    by rewrite Hfrac.
  - cbv beta iota. rewrite Hd1, Hd2, Hspan. cbn [N.eqb Pos.eqb].
    by rewrite Hfrac.
Qed.

(** C6. The decimal filter with [replace_dots] on reads a continental number
    exactly: ["1.234,56"] is the decimal of coefficient 123456 and exponent
    -2, ["-12,00"] the negative decimal of coefficient 1200 and exponent
    -2, and in general a sign, an integer part of digits and points, a
    comma and any number of fractional digits give the coefficient made of
    all the digits and the exponent that counts the fractional ones.  The
    value is held as an integer coefficient and an integer exponent. *)
Theorem CleanDecimal_continental_exact :
  CleanDecimal_filter unicode_isspace true None (VStr (u "1.234,56"))
  = Ok (mkDecimal false 123456 (-2))
  ∧ CleanDecimal_filter unicode_isspace true None (VStr (u "-12,00"))
    = Ok (mkDecimal true 1200 (-2))
  ∧ ∀ (ws : char → bool) (default : option Value) (neg : bool)
      (ip fp : text),
      (∀ c, ws c = true → unicode_isspace c = true) →
      Forall (λ c, is_digit c = true ∨ c = 46%N) ip →
      Exists (λ c, is_digit c = true) ip →
      Forall (λ c, is_digit c = true) fp →
      CleanDecimal_filter ws true default
        (VStr ((if neg then [45%N] else []) ++ ip ++ 44%N :: fp))
      = Ok (mkDecimal neg (digits_value (List.filter is_digit ip ++ fp))
                      (- Z.of_nat (length fp))).
Proof.
  split; [done|]. split; [done|].
  intros ws default neg ip fp Hws Hip Hex Hfp.
  unfold CleanDecimal_filter, CleanText_filter.
  cbn [clean mbind Outcome_bind remove fold_left].
  assert (Hsg : Forall (λ c, c = 45%N) (if neg then [45%N] else []))
    by (destruct neg; repeat constructor).
  remember (if neg then [45%N] else []) as sg eqn:Esg.
  rewrite (clean_str_number ws Hws).
  2:{ apply Forall_app. split.
      - eapply List.Forall_impl; [|exact Hsg]. by intros c ->.
      - apply Forall_app. split.
        + eapply List.Forall_impl; [|exact Hip]. intros c [H | ->]; [|done].
          unfold number_char. by rewrite H.
        + constructor; [done|]. by apply digits_number_chars. }
  rewrite !replace_char_app.
  rewrite (replace_char_absent 46%N [] sg)
    by (eapply List.Forall_impl; [|exact Hsg]; by intros c ->).
  rewrite (remove_points ip Hip).
  change (replace_char 46%N [] (44%N :: fp))
    with (44%N :: replace_char 46%N [] fp).
  rewrite (replace_char_absent 46%N [] fp) by (apply digits_without; auto).
  rewrite (replace_char_absent 44%N [46%N] sg)
    by (eapply List.Forall_impl; [|exact Hsg]; by intros c ->).
  rewrite (replace_char_absent 44%N [46%N] (List.filter is_digit ip))
    by (apply digits_without; auto using filter_digits).
  change (replace_char 44%N [46%N] (44%N :: fp))
    with (46%N :: replace_char 44%N [46%N] fp).
  rewrite (replace_char_absent 44%N [46%N] fp) by (apply digits_without; auto).
  rewrite keep_number_chars_fixed.
  2:{ apply Forall_app. split.
      - eapply List.Forall_impl; [|exact Hsg]. auto.
      - apply Forall_app. split.
        + eapply List.Forall_impl; [|apply filter_digits]. auto.
        + constructor; [auto|]. eapply List.Forall_impl; [|exact Hfp]. auto. }
  subst sg.
  assert (Hne : List.filter is_digit ip ≠ []).
  { apply List.Exists_exists in Hex as (c & Hin & Hc).
    intros Hnil.
    assert (In c (List.filter is_digit ip)) as Hin' by (by apply filter_In).
    rewrite Hnil in Hin'. done. }
  pose proof (Decimal_of_digits ws neg _ fp Hws (filter_digits ip) Hne Hfp)
    as HD.
  unfold text, char in *. by rewrite HD.
Qed.

(** An amount with six fractional digits and two thousands separators. *)
Lemma CleanDecimal_continental_exact_witness :
  CleanDecimal_filter unicode_isspace true None
    (VStr (u "-1.234.567,891234"))
  = Ok (mkDecimal true 1234567891234 (-6)).
Proof.
  pose proof (proj2 (proj2 CleanDecimal_continental_exact)
                unicode_isspace None true (u "1.234.567") (u "891234")) as H.
  apply H.
  - auto.
  - repeat (constructor; [first [left; reflexivity | right; reflexivity]|]).
    constructor.
  - constructor. reflexivity.
  - repeat (constructor; [reflexivity|]). constructor.
Defined.

(** ** Defaults *)

Section Defaults.

Variable ws : char → bool.
Variable re_search : text → Z → text → option Filters.Match.
Variable re_expand : Filters.Match → text → Outcome text.

Lemma Decimal_of_text_outcomes s :
  is_ok (Decimal_of_text ws s) = false →
  Decimal_of_text ws s = Raise InvalidOperation.
Proof.
  unfold Decimal_of_text.
  repeat match goal with
         | |- context [let '(_, _) := ?p in _] => destruct p
         end.
  repeat match goal with
         | |- context [match ?l with [] => _ | _ :: _ => _ end] => destruct l
         end; simpl; done.
Qed.

Lemma TableCell_no_column names default item :
  forallb (λ name, bool_decide (row_columns item !! name = None)) names = true →
  TableCell_call names default item = default_or_raise default KeyError.
Proof.
  induction names as [|name rest IH]; simpl; [done|].
  intros [Hn Hrest]%andb_true_iff. apply bool_decide_eq_true in Hn.
  rewrite Hn. by apply IH.
Qed.

(** What each filter does when it finds nothing.  On an input on which a
    filter finds nothing (no column of the names, a text that is no number, an empty node list
    or an element without the attribute, no match of the pattern, a key
    that is not mapped), the filter built without a default raises the
    exception of [raised_without_default]: [KeyError] for [TableCell],
    [Regexp], [Map] and for [Attr] and [Link] on an element without the
    attribute, [ValueError] for [Attr] and [Link] on an empty node list and
    for [Time] and [Duration], [InvalidOperation] for [CleanDecimal]; and
    every filter but [CleanDecimal], built with a default, returns that
    default. *)
Theorem default_or_raise_contract (c : Combinator) (x : Input) :
  finds_nothing ws re_search c x = true →
  apply ws re_search re_expand c None x = Raise (raised_without_default c x)
  ∧ (is_CleanDecimal c = false →
     ∀ d, apply ws re_search re_expand c (Some d) x = Ok d).
Proof.
  destruct c, x as [v | r]; simpl; try done.
  - (* TableCell *)
    intros H. split; intros; by rewrite TableCell_no_column.
  - (* CleanDecimal *)
    unfold CleanDecimal_filter.
    destruct (CleanText_filter ws [] v) as [txt| |]; simpl; try done.
    intros H%negb_true_iff. apply Decimal_of_text_outcomes in H.
    unfold mbind, Outcome_bind. rewrite H. done.
  - (* Attr *)
    destruct v as [| | | | | | |[|[]]]; simpl; try done.
    unfold Attr_filter. simpl. intros H%bool_decide_eq_true. by rewrite H.
  - (* Link *)
    destruct v as [| | | | | | |[|[]]]; simpl; try done.
    unfold Link_filter, Attr_filter. simpl.
    intros H%bool_decide_eq_true. by rewrite H.
  - (* Regexp *)
    destruct v; simpl; try done. intros H%bool_decide_eq_true. by rewrite H.
  - (* Map *)
    destruct v; simpl; try done. intros H%bool_decide_eq_true. by rewrite H.
  - (* Time *)
    destruct v; simpl; try done. unfold Time_filter, Time_filter_gen.
    intros H%bool_decide_eq_true. by rewrite H.
  - (* Duration *)
    destruct v; simpl; try done. unfold Duration_filter, Time_filter_gen.
    intros H%bool_decide_eq_true. by rewrite H.
Qed.

End Defaults.

(** A [Map] asked for a key it does not have. *)
Lemma default_or_raise_contract_witness :
  let c := CMap {[ u "debit" := VInt (-1) ]} in
  let x := OfValue (VStr (u "credit")) in
  apply unicode_isspace Regex.re_search Regex.re_expand c None x
  = Raise KeyError
  ∧ apply unicode_isspace Regex.re_search Regex.re_expand c (Some VNone) x
    = Ok VNone.
Proof.
  intros c x.
  destruct (default_or_raise_contract unicode_isspace Regex.re_search
              Regex.re_expand c x) as [H1 H2].
  - reflexivity.
  - split; [exact H1 | apply H2; reflexivity].
Defined.

(** C5 at [Link] on an empty node list.  The docstring of [Link] has it
    raise [IndexError], a lookup error, when the tag is not found.
    [Attr.filter], which [Link] inherits, catches the [IndexError] that
    [el[0]] raises on the empty list and, when no default was given, raises
    [ValueError] in its place, which is no lookup error.  With a default,
    the default is returned. *)
Theorem Link_of_nothing_raises_ValueError (ws : char → bool)
    (re_search : text → Z → text → option Filters.Match)
    (re_expand : Filters.Match → text → Outcome text) :
  finds_nothing ws re_search CLink (OfValue (VList [])) = true
  ∧ first_item (VList []) = Raise IndexError
  ∧ apply ws re_search re_expand CLink None (OfValue (VList []))
    = Raise ValueError
  ∧ lookup_style IndexError = true
  ∧ lookup_style ValueError = false
  ∧ ∀ d, apply ws re_search re_expand CLink (Some d) (OfValue (VList []))
         = Ok d.
Proof. repeat split. Qed.

(** [CleanDecimal] hands its default to [Decimal]: a default that is no
    number is not returned. *)
Lemma CleanDecimal_default_converted :
  CleanDecimal_filter unicode_isspace true (Some (VInt 0)) (VStr (u "n/a"))
  = Ok (mkDecimal false 0 0)
  ∧ CleanDecimal_filter unicode_isspace true (Some VNone) (VStr (u "n/a"))
    = Raise TypeError.
Proof. split; reflexivity. Qed.

(** ** The shape of a cleaned text *)

Section Shapes.

Variable ws : char → bool.

Lemma sub_runs_class cls b t :
  Forall (λ c, cls c = true → c = SP) (sub_runs cls b t).
Proof.
  revert b. induction t as [|c r IH]; intros b; simpl; [constructor|].
  destruct (cls c) eqn:E.
  - destruct b; [apply IH|]. constructor; [done|apply IH].
  - constructor; [|apply IH]. congruence.
Qed.

Lemma sub_runs_single_spaces b t :
  single_spaces b (sub_runs clean_class b t) = true.
Proof.
  revert b. induction t as [|c r IH]; intros b; simpl; [done|].
  destruct (clean_class c) eqn:E.
  - destruct b; [apply IH|]. simpl. apply IH.
  - simpl. destruct (c =? SP)%N eqn:Ec.
    + apply N.eqb_eq in Ec. subst c. discriminate E.
    + apply IH.
Qed.

Lemma single_spaces_weaken b t :
  single_spaces b t = true → single_spaces false t = true.
Proof.
  destruct t as [|c r]; simpl; [done|]. destruct (c =? SP)%N, b; simpl; done.
Qed.

Lemma single_spaces_suffix p b t :
  single_spaces b (p ++ t) = true → single_spaces false t = true.
Proof.
  revert b. induction p as [|c p IH]; intros b; simpl.
  - apply single_spaces_weaken.
  - destruct (c =? SP)%N.
    + intros [_ H]%andb_true_iff. by apply IH in H.
    + apply IH.
Qed.

Lemma single_spaces_no_pair b t :
  single_spaces b t = true → ∀ a r, t ≠ a ++ SP :: SP :: r.
Proof.
  intros H a r ->. revert b H.
  induction a as [|c a IH]; intros b; simpl.
  - destruct b; simpl; done.
  - destruct (c =? SP)%N.
    + intros [_ H]%andb_true_iff. by apply IH in H.
    + apply IH.
Qed.

Lemma rstrip_ends_clean t r c : rstrip ws t = r ++ [c] → ws c = false.
Proof.
  revert r. induction t as [|c0 t IH]; intros r; simpl.
  - by destruct r.
  - destruct (rstrip ws t) as [|x r'] eqn:E.
    + destruct (ws c0) eqn:Ec; [by destruct r|].
      destruct r as [|? [|]]; simpl; intros [=]; by subst.
    + destruct r as [|y r]; simpl.
      * intros [=].
      * intros [= <- Hr]. by apply (IH r).
Qed.

Lemma clean_str_shape s :
  let t := clean_str ws s in
  Forall (λ c, clean_class c = true → c = SP) t
  ∧ (∀ a r, t ≠ a ++ SP :: SP :: r)
  ∧ (∀ c r, t = c :: r → ws c = false)
  ∧ (∀ c r, t = r ++ [c] → ws c = false).
Proof.
  intros t. subst t. unfold clean_str, strip.
  set (t0 := sub_runs clean_class false s).
  destruct (lstrip_suffix ws t0) as [p Hp].
  destruct (rstrip_prefix ws (lstrip ws t0)) as [q Hq].
  pose proof (sub_runs_class clean_class false s) as Hc. fold t0 in Hc.
  pose proof (sub_runs_single_spaces false s) as Hs. fold t0 in Hs.
  rewrite Hp, Hq in Hc, Hs.
  split; [|split; [|split]].
  - apply Forall_app in Hc as [_ Hc]. by apply Forall_app in Hc as [Hc _].
  - intros a r E. apply single_spaces_suffix in Hs.
    rewrite E, <- !app_assoc in Hs. simpl in Hs.
    by apply (single_spaces_no_pair _ _ Hs a (r ++ q)).
  - intros c r E.
    pose proof (rstrip_starts_clean ws _ (lstrip_starts_clean ws t0)) as H.
    by rewrite E in H.
  - intros c r E. by apply rstrip_ends_clean in E.
Qed.

(** What [CleanText.filter] returns when no symbols are to be removed,
    whether it was given a string, an element or a list of them: of the
    characters of the class of [clean] (white space, the no-break space)
    only the space is left, no two spaces follow one another, and neither
    the first nor the last character is one that [strip] removes. *)
Theorem CleanText_single_spaces (v : Value) (t : text) :
  CleanText_filter ws [] v = Ok t →
  Forall (λ c, clean_class c = true → c = SP) t
  ∧ (∀ a r, t ≠ a ++ SP :: SP :: r)
  ∧ (∀ c r, t = c :: r → ws c = false)
  ∧ (∀ c r, t = r ++ [c] → ws c = false).
Proof.
  unfold CleanText_filter. intros H.
  assert (∃ s, t = clean_str ws s) as [s ->]; [|apply clean_str_shape].
  destruct v; simpl in H; try (injection H as <-; eauto); try done.
  destruct (clean_all ws l) as [ts| |]; simpl in H; try done.
  injection H as <-; eauto.
Qed.

End Shapes.

(** A line of a statement, as an element with two pieces of text. *)
Lemma CleanText_single_spaces_witness :
  let v := VElem (mkElement [u " Solde  au"; [160; 9; 50; 10]%N] ∅ []) in
  CleanText_filter unicode_isspace [] v = Ok (u "Solde au 2")
  ∧ ∀ a r, u "Solde au 2" ≠ a ++ SP :: SP :: r.
Proof.
  intros v. split; [reflexivity|].
  apply (CleanText_single_spaces unicode_isspace v (u "Solde au 2")).
  reflexivity.
Defined.

Lemma replace_char_filter s t :
  replace_char s [] t = List.filter (λ c, negb (c =? s)%N) t.
Proof.
  unfold replace_char. induction t as [|c r IH]; simpl; [done|].
  rewrite IH. by destruct (c =? s)%N.
Qed.

(** [CleanText.remove] drops every occurrence of every character of
    [symbols] and nothing else: what is left is the text without the
    characters that occur in [symbols], in their order. *)
Theorem remove_filters (txt symbols : text) :
  remove txt symbols
  = List.filter (λ c, negb (existsb (N.eqb c) symbols)) txt.
Proof.
  unfold remove. revert txt.
  induction symbols as [|s rest IH]; intros txt; simpl.
  - induction txt as [|c r IHr]; simpl; [done|]. by rewrite <- IHr.
  - rewrite IH, replace_char_filter.
    induction txt as [|c r IHr]; simpl; [done|].
    destruct (c =? s)%N; simpl; [done|]. by rewrite IHr.
Qed.

(** ** What the decimal filter reads *)

Section Reading.

Variable ws : char → bool.
Hypothesis ws_spaces : ∀ c, ws c = true → unicode_isspace c = true.

Lemma number_text_app rd a b :
  number_text rd (a ++ b) = number_text rd a ++ number_text rd b.
Proof.
  unfold number_text, keep_number_chars.
  destruct rd; by rewrite ?replace_char_app, List.filter_app.
Qed.

Lemma number_text_other rd c : number_char c = false → number_text rd [c] = [].
Proof.
  intros E. unfold number_char in E.
  apply orb_false_iff in E as [E E44]. apply orb_false_iff in E as [E E46].
  apply orb_false_iff in E as [Ed E45].
  unfold number_text, keep_number_chars, replace_char.
  destruct rd; simpl; rewrite ?E46; simpl; rewrite ?E44; simpl;
    by rewrite Ed, E45, ?E46.
Qed.

Lemma number_text_filter rd t :
  number_text rd (List.filter number_char t) = number_text rd t.
Proof.
  induction t as [|c r IH]; [done|].
  change (c :: r) with ([c] ++ r) at 2. rewrite number_text_app. simpl.
  destruct (number_char c) eqn:E.
  - change (c :: List.filter number_char r)
      with ([c] ++ List.filter number_char r).
    by rewrite number_text_app, IH.
  - by rewrite (number_text_other rd c E), IH.
Qed.

Lemma filter_sub_runs b t :
  List.filter number_char (sub_runs clean_class b t)
  = List.filter number_char t.
Proof.
  revert b. induction t as [|c r IH]; intros b; simpl; [done|].
  destruct (clean_class c) eqn:E.
  - assert (number_char c = false) as ->.
    { destruct (number_char c) eqn:En; [|done].
      by rewrite number_char_not_class in E. }
    destruct b; simpl; apply IH.
  - simpl. by rewrite IH.
Qed.

Lemma ws_not_number c : ws c = true → number_char c = false.
Proof.
  intros H. destruct (number_char c) eqn:E; [|done].
  by rewrite (number_char_not_ws ws ws_spaces) in H.
Qed.

Lemma filter_lstrip t :
  List.filter number_char (lstrip ws t) = List.filter number_char t.
Proof.
  induction t as [|c r IH]; simpl; [done|].
  destruct (ws c) eqn:E; [|done]. by rewrite (ws_not_number c E).
Qed.

Lemma filter_rstrip t :
  List.filter number_char (rstrip ws t) = List.filter number_char t.
Proof.
  induction t as [|c r IH]; simpl; [done|].
  destruct (rstrip ws r) as [|x r'] eqn:Er.
  - simpl in IH. rewrite <- IH.
    destruct (ws c) eqn:E; [by rewrite (ws_not_number c E)|done].
  - change (List.filter number_char (c :: x :: r'))
      with (if number_char c then c :: List.filter number_char (x :: r')
            else List.filter number_char (x :: r')).
    by rewrite IH.
Qed.

Lemma filter_clean_str s :
  List.filter number_char (clean_str ws s) = List.filter number_char s.
Proof.
  unfold clean_str, strip.
  by rewrite filter_rstrip, filter_lstrip, filter_sub_runs.
Qed.

Lemma number_text_clean_str rd s :
  number_text rd (clean_str ws s) = number_text rd s.
Proof.
  by rewrite <- number_text_filter, filter_clean_str, number_text_filter.
Qed.

(** [CleanDecimal.filter] reads the digits, the signs, the points and the
    commas of a string and nothing else: letters, currency signs and white
    space, wherever they stand, do not change what it returns or raises. *)
Theorem CleanDecimal_reads_number_chars (replace_dots : bool)
    (d : option Value) (s : text) :
  CleanDecimal_filter ws replace_dots d (VStr s)
  = CleanDecimal_filter ws replace_dots d (VStr (List.filter number_char s)).
Proof.
  unfold CleanDecimal_filter, CleanText_filter.
  cbn [clean mbind Outcome_bind remove fold_left].
  fold (number_text replace_dots (clean_str ws s)).
  fold (number_text replace_dots (clean_str ws (List.filter number_char s))).
  by rewrite !number_text_clean_str, number_text_filter.
Qed.

End Reading.

(** An amount with its currency and a space between the thousands. *)
Lemma CleanDecimal_reads_number_chars_witness :
  CleanDecimal_filter unicode_isspace true None (VStr (u "EUR 1 234,56 "))
  = CleanDecimal_filter unicode_isspace true None (VStr (u "1234,56")).
Proof.
  apply (CleanDecimal_reads_number_chars unicode_isspace (λ c H, H) true None
           (u "EUR 1 234,56 ")).
Defined.

(** ** Filters on filters, and the filters with a default once more *)

Section Calls.

Variable ws : char → bool.
Variable re_search : text → Z → text → option Filters.Match.
Variable re_expand : Filters.Match → text → Outcome text.
Context {Item : Type}.
Variable xpath : Item → text → Outcome Value.
Variable format : text → text → Outcome text.

Lemma CleanText_filter_again v t :
  CleanText_filter ws [] v = Ok t → CleanText_filter ws [] (VStr t) = Ok t.
Proof.
  unfold CleanText_filter. intros H.
  assert (∃ s, t = clean_str ws s) as [s ->].
  { destruct v; simpl in H; try (injection H as <-; eauto); try done.
    destruct (clean_all ws l) as [ts| |]; simpl in H; try done.
    injection H as <-; eauto. }
  simpl. unfold remove. simpl. by rewrite clean_str_idempotent.
Qed.

(** [CleanDecimal(CleanText(selector))], the chain of the docstring of
    [Filter], does what [CleanDecimal(selector)] does, on every item and
    whatever the selector yields: [CleanDecimal.filter] cleans the text
    itself, and cleaning a cleaned text changes nothing. *)
Theorem CleanDecimal_of_CleanText (replace_dots : bool) (d : option Value)
    (selector : Selector) (item : Item) :
  CleanDecimal_call ws xpath replace_dots d
    (SFilter (CleanText_call ws xpath [] selector)) item
  = CleanDecimal_call ws xpath replace_dots d selector item.
Proof.
  unfold CleanDecimal_call, CleanText_call, Filter_call.
  cbn [select].
  destruct (select xpath selector item) as [v| |]; simpl; try done.
  destruct (CleanText_filter ws [] v) as [t| |] eqn:E; simpl.
  - unfold CleanDecimal_filter.
    rewrite (CleanText_filter_again v t E), E. done.
  - unfold CleanDecimal_filter. rewrite E. done.
  - unfold CleanDecimal_filter. rewrite E. done.
Qed.

Lemma omap_id_nones {A} (l : list (option A)) :
  Forall (λ g, g = None) l → omap id l = [].
Proof. induction 1 as [|g r -> _ IH]; simpl; done. Qed.

(** [Regexp.filter] without a template, on a string the pattern matches:
    the result is the first group that took part in the match, the groups
    before it that did not are skipped; and when no group took part (or the
    pattern has none) the filter raises [StopIteration], with or without a
    default. *)
Theorem Regexp_first_group (pattern : text) (flags : Z) (d : option Value)
    (s : text) (mobj : Filters.Match) :
  re_search pattern flags s = Some mobj →
  (∀ pre g post,
     m_groups mobj = pre ++ Some g :: post → Forall (λ x, x = None) pre →
     Regexp_filter re_search re_expand pattern None flags d (VStr s)
     = Ok (VStr g))
  ∧ (Forall (λ x, x = None) (m_groups mobj) →
     Regexp_filter re_search re_expand pattern None flags d (VStr s)
     = Raise StopIteration).
Proof.
  intros Hm. unfold Regexp_filter. rewrite Hm. split.
  - intros pre g post -> Hpre.
    rewrite omap_app, (omap_id_nones pre Hpre). done.
  - intros H. by rewrite (omap_id_nones _ H).
Qed.

(** A default is used only when nothing is found: on an input on which a
    filter built without a default returns a value, the same filter built
    with any default returns that value. *)
Theorem default_unused_on_success (c : Combinator) (x : Input) (v : Value) :
  apply ws re_search re_expand c None x = Ok v →
  ∀ d, apply ws re_search re_expand c d x = Ok v.
Proof.
  intros H d. destruct c, x as [w | r]; simpl in *; try done.
  - (* TableCell *)
    revert H. induction names as [|name rest IH]; simpl; [done|].
    destruct (row_columns r !! name); [done|]. apply IH.
  - (* CleanDecimal *)
    revert H. unfold CleanDecimal_filter.
    destruct (CleanText_filter ws [] w) as [txt| |]; simpl; try done.
    match goal with
    | |- context [Decimal_of_text ws ?t] =>
        destruct (Decimal_of_text ws t) as [?|e|]
    end; simpl; try done.
    destruct e; simpl; done.
  - (* Attr *)
    revert H. unfold Attr_filter.
    destruct (first_item w ≫= λ x, attrib_item x attr) as [t|e|]; try done.
    destruct e; simpl; done.
  - (* Link *)
    revert H. unfold Link_filter, Attr_filter.
    destruct (first_item w ≫= λ x, attrib_item x (u "href")) as [t|e|];
      try done.
    destruct e; simpl; done.
  - (* Regexp *)
    revert H. unfold Regexp_filter. destruct w; try done.
    destruct (re_search pattern flags t); [done|]. simpl. done.
  - (* Map *)
    revert H. unfold Map_filter. destruct w; try done.
    destruct (map_dict !! t); done.
  - (* Time *)
    revert H. unfold Time_filter, Time_filter_gen. destruct w; try done.
    destruct (re_search Time_regexp 0 t); done.
  - (* Duration *)
    revert H. unfold Duration_filter, Time_filter_gen. destruct w; try done.
    destruct (re_search Duration_regexp 0 t); done.
Qed.

Lemma int_of_digits (g : text) :
  forallb is_digit g = true →
  int_of_group (Some g) = Ok (Z.of_N (digits_value g)).
Proof. intros H. unfold int_of_group. destruct g; [done|]. by rewrite H. Qed.

Lemma c_int_of_N (n : N) : c_int (Z.of_N n) = (n <=? 2147483647)%N.
Proof.
  unfold c_int.
  assert ((-2147483648 <=? Z.of_N n)%Z = true) as ->
    by (apply Z.leb_le; lia).
  destruct (N.leb_spec n 2147483647), (Z.leb_spec (Z.of_N n) 2147483647);
    simpl; lia.
Qed.

(** [Time.filter] on a string its pattern matches, with the digits of the
    hours and minutes in the groups [hh] and [mm] and those of the seconds,
    if any, in [ss] (the second is 0 when the group is missing): when one
    of the three numbers does not fit a C integer, [OverflowError] is
    raised; otherwise the result is that time of day when the hour is below
    24 and the minute and the second below 60, and [ValueError] is raised
    when they are not.  A default prevents neither exception. *)
Theorem Time_of_day_checked (d : option Value) (s : text)
    (m : Filters.Match) (h mi : text) (sec : option text) :
  re_search Time_regexp 0 s = Some m →
  assoc (u "hh") (m_groupdict m) = Some (Some h) →
  assoc (u "mm") (m_groupdict m) = Some (Some mi) →
  assoc (u "ss") (m_groupdict m) = Some sec →
  forallb is_digit h = true → forallb is_digit mi = true →
  forallb is_digit (default [] sec) = true →
  let H := digits_value h in
  let M := digits_value mi in
  let S := digits_value (default [] sec) in
  Time_filter re_search d (VStr s)
  = if negb ((H <=? 2147483647) && (M <=? 2147483647)
             && (S <=? 2147483647))%N
    then Raise OverflowError
    else if ((H <? 24) && (M <? 60) && (S <? 60))%N
    then Ok (VTime (Z.of_N H) (Z.of_N M) (Z.of_N S))
    else Raise ValueError.
Proof.
  intros Hm Hh Hmi Hs Dh Dmi Ds H M S.
  unfold Time_filter, Time_filter_gen. rewrite Hm.
  unfold group_int. rewrite Hh, Hmi, Hs.
  rewrite (int_of_digits h Dh), (int_of_digits mi Dmi).
  assert (int_of_group sec = Ok (Z.of_N S)) as ->.
  { destruct sec as [g|]; [by apply int_of_digits|done]. }
  cbn [mbind Outcome_bind]. unfold datetime_time.
  fold H M. rewrite !c_int_of_N.
  destruct (negb _); [done|].
  assert ((0 <=? Z.of_N H)%Z = true) as -> by (apply Z.leb_le; lia).
  assert ((0 <=? Z.of_N M)%Z = true) as -> by (apply Z.leb_le; lia).
  assert ((0 <=? Z.of_N S)%Z = true) as -> by (apply Z.leb_le; lia).
  assert (∀ n k : N, (Z.of_N n <? Z.of_N k)%Z = (n <? k)%N) as E.
  { intros n k.
    destruct (N.ltb_spec n k), (Z.ltb_spec (Z.of_N n) (Z.of_N k)); lia. }
  change 24%Z with (Z.of_N 24). change 60%Z with (Z.of_N 60).
  rewrite !E.
  by destruct (H <? 24)%N, (M <? 60)%N, (S <? 60)%N.
Qed.

Lemma timedelta_days_of_N (h m s : N) :
  timedelta_days (Z.of_N h) (Z.of_N m) (Z.of_N s)
  = Z.of_N ((3600 * h + 60 * m + s) / 86400).
Proof.
  unfold timedelta_days.
  rewrite N2Z.inj_div, !N2Z.inj_add, !N2Z.inj_mul. reflexivity.
Qed.

(** [Duration.filter] on a string its pattern matches, with the digits of
    the minutes and seconds in the groups [mm] and [ss] and those of the
    hours, if any, in [hh] (the hours are 0 when the group is missing): the
    result is the span of these hours, minutes and seconds, with no bound
    on the minutes and the seconds, as long as the span is of no more than
    999999999 days; beyond that [OverflowError] is raised.  The default is
    not used. *)
Theorem Duration_bounded_by_days (d : option Value) (s : text)
    (m : Filters.Match) (h : option text) (mi sec : text) :
  re_search Duration_regexp 0 s = Some m →
  assoc (u "hh") (m_groupdict m) = Some h →
  assoc (u "mm") (m_groupdict m) = Some (Some mi) →
  assoc (u "ss") (m_groupdict m) = Some (Some sec) →
  forallb is_digit (default [] h) = true →
  forallb is_digit mi = true → forallb is_digit sec = true →
  let H := digits_value (default [] h) in
  let M := digits_value mi in
  let S := digits_value sec in
  Duration_filter re_search d (VStr s)
  = if ((3600 * H + 60 * M + S) / 86400 <=? 999999999)%N
    then Ok (VTimedelta (Z.of_N H) (Z.of_N M) (Z.of_N S))
    else Raise OverflowError.
Proof.
  intros Hm Hh Hmi Hs Dh Dmi Ds H M S.
  unfold Duration_filter, Time_filter_gen. rewrite Hm.
  unfold group_int. rewrite Hh, Hmi, Hs.
  rewrite (int_of_digits mi Dmi), (int_of_digits sec Ds).
  assert (int_of_group h = Ok (Z.of_N H)) as ->.
  { destruct h as [g|]; [by apply int_of_digits|done]. }
  cbn [mbind Outcome_bind]. unfold datetime_timedelta.
  fold M S. rewrite timedelta_days_of_N.
  set (days := ((3600 * H + 60 * M + S) / 86400)%N).
  assert ((-999999999 <=? Z.of_N days)%Z = true) as ->
    by (apply Z.leb_le; lia).
  assert ((Z.of_N days <=? 999999999)%Z = (days <=? 999999999)%N) as ->.
  { destruct (N.leb_spec days 999999999),
      (Z.leb_spec (Z.of_N days) 999999999); lia. }
  done.
Qed.

Lemma Join_loop_res pattern res l :
  Join_loop ws format pattern res l
  = (r ← Join_loop ws format pattern [] l; Ok (res ++ r)).
Proof.
  revert res. induction l as [|li rest IH]; intros res; simpl.
  - by rewrite app_nil_r.
  - destruct (clean ws li) as [t| |]; simpl; try done.
    destruct (format pattern t) as [s| |]; simpl; try done.
    rewrite (IH (res ++ s)), (IH s).
    destruct (Join_loop ws format pattern [] rest); simpl; try done.
    by rewrite app_assoc.
Qed.

(** [Join.filter] on a list of nodes in two parts gives the result on the
    first part followed by the result on the second, with nothing in
    between, and raises what the first of them raises. *)
Theorem Join_app (pattern : text) (a b : list Value) :
  Join_filter ws format pattern (VList (a ++ b))
  = (ra ← Join_filter ws format pattern (VList a);
     rb ← Join_filter ws format pattern (VList b);
     Ok (ra ++ rb)).
Proof.
  unfold Join_filter. simpl.
  induction a as [|li rest IH]; simpl.
  - by destruct (Join_loop ws format pattern [] b).
  - destruct (clean ws li) as [t| |]; simpl; try done.
    destruct (format pattern t) as [s| |]; simpl; try done.
    rewrite (Join_loop_res pattern s (rest ++ b)), IH.
    rewrite (Join_loop_res pattern s rest).
    destruct (Join_loop ws format pattern [] rest) as [ra| |]; simpl;
      try done.
    destruct (Join_loop ws format pattern [] b) as [rb| |]; simpl; try done.
    by rewrite app_assoc.
Qed.

End Calls.

(** A pattern with two alternatives, of which the second matched. *)
Lemma Regexp_first_group_witness :
  let mobj := Filters.mkMatch [None; Some (u "42")] [] in
  Regexp_filter (λ _ _ _, Some mobj) Regex.re_expand (u "(a)|(\d+)") None 0
    None (VStr (u "42"))
  = Ok (VStr (u "42")).
Proof.
  intros mobj.
  apply (proj1 (Regexp_first_group (λ _ _ _, Some mobj) Regex.re_expand
                  (u "(a)|(\d+)") 0 None (u "42") mobj eq_refl)
           [None] (u "42") []).
  - reflexivity.
  - repeat constructor.
Defined.

(** A [Map] asked for a key it has, with a default. *)
Lemma default_unused_on_success_witness :
  apply unicode_isspace Regex.re_search Regex.re_expand
    (CMap {[ u "debit" := VInt (-1) ]}) (Some VNone) (OfValue (VStr (u "debit")))
  = Ok (VInt (-1)).
Proof.
  apply (default_unused_on_success unicode_isspace Regex.re_search
           Regex.re_expand (CMap {[ u "debit" := VInt (-1) ]})
           (OfValue (VStr (u "debit"))) (VInt (-1))).
  reflexivity.
Defined.

(** "25:00" matches the pattern of [Time] and is no time of day. *)
Lemma Time_of_day_checked_witness :
  let m := Filters.mkMatch [Some (u "25"); Some (u "00"); None; None]
             [(u "hh", Some (u "25")); (u "mm", Some (u "00"));
              (u "ss", None)] in
  Time_filter (λ _ _ _, Some m) (Some VNone) (VStr (u "25:00"))
  = Raise ValueError.
Proof.
  intros m.
  apply (Time_of_day_checked (λ _ _ _, Some m) (Some VNone) (u "25:00") m
           (u "25") (u "00") None); reflexivity.
Defined.

(** "90:15" is a span of ninety minutes and a quarter. *)
Lemma Duration_bounded_by_days_witness :
  let m := Filters.mkMatch [None; None; Some (u "90"); Some (u "15")]
             [(u "hh", None); (u "mm", Some (u "90"));
              (u "ss", Some (u "15"))] in
  Duration_filter (λ _ _ _, Some m) None (VStr (u "90:15"))
  = Ok (VTimedelta 0 90 15).
Proof.
  intros m.
  apply (Duration_bounded_by_days (λ _ _ _, Some m) None (u "90:15") m
           None (u "90") (u "15")); reflexivity.
Defined.

(** ** A text that is no number *)

Section NoDigits.

Variable ws : char → bool.

Lemma span_no_digit (t : text) :
  Forall (λ c, is_digit c = false) t → span is_digit t = ([], t).
Proof. destruct 1 as [|c r Hc _]; simpl; [done|]. by rewrite Hc. Qed.

Lemma Decimal_of_text_no_digit (t : text) :
  Forall (λ c, is_digit c = false) t →
  Decimal_of_text ws t = Raise InvalidOperation.
Proof.
  intros Ht. unfold Decimal_of_text.
  assert (Hs : Forall (λ c, is_digit c = false) (strip ws t)).
  { unfold strip.
    destruct (lstrip_suffix ws t) as [p Hp].
    destruct (rstrip_prefix ws (lstrip ws t)) as [q Hq].
    rewrite Hp, Hq in Ht.
    apply Forall_app in Ht as [_ Ht]. by apply Forall_app in Ht as [Ht _]. }
  set (s := strip ws t) in *. clearbody s.
  assert (Hsign : ∀ (sg : bool) (r : text),
            Forall (λ c, is_digit c = false) r →
            (let '(intpart, rest) := span is_digit r in
             let '(fracpart, rest0) :=
               match rest with
               | [] => ([], rest)
               | c :: r0 => if (c =? 46)%N then span is_digit r0 else ([], rest)
               end in
             match rest0 with
             | [] =>
                 match intpart ++ fracpart with
                 | [] => Raise InvalidOperation
                 | _ :: _ =>
                     Ok (mkDecimal sg (digits_value (intpart ++ fracpart))
                           (- Z.of_nat (length fracpart)))
                 end
             | _ :: _ => Raise InvalidOperation
             end) = Raise InvalidOperation).
  { intros sg r Hr. rewrite (span_no_digit r Hr).
    destruct r as [|c r0]; [done|].
    destruct (c =? 46)%N.
    - inversion Hr; subst. rewrite (span_no_digit r0) by done. by destruct r0.
    - done. }
  destruct s as [|c r]; [apply (Hsign false []); constructor|].
  inversion Hs; subst.
  destruct (c =? 45)%N; [by apply Hsign|].
  destruct (c =? 43)%N; [by apply Hsign|].
  by apply (Hsign false (c :: r)).
Qed.

Lemma no_digit_replace old new (t : text) :
  Forall (λ c, is_digit c = false) new →
  Forall (λ c, is_digit c = false) t →
  Forall (λ c, is_digit c = false) (replace_char old new t).
Proof.
  intros Hn. unfold replace_char. induction 1 as [|c r Hc _ IH]; simpl; [done|].
  apply Forall_app. split; [|done]. destruct (c =? old)%N; [done|by constructor].
Qed.

Lemma no_digit_sub_runs b (s : text) :
  Forall (λ c, is_digit c = false) s →
  Forall (λ c, is_digit c = false) (sub_runs clean_class b s).
Proof.
  intros Hs. revert b.
  induction Hs as [|c r Hc _ IH]; intros b; simpl; [done|].
  destruct (clean_class c); [destruct b|]; try apply IH.
  - constructor; [done|apply IH].
  - constructor; [done|apply IH].
Qed.

Lemma no_digit_clean_str (s : text) :
  Forall (λ c, is_digit c = false) s →
  Forall (λ c, is_digit c = false) (clean_str ws s).
Proof.
  intros Hs. unfold clean_str, strip.
  set (t0 := sub_runs clean_class false s).
  assert (H0 : Forall (λ c, is_digit c = false) t0)
    by (by apply no_digit_sub_runs).
  destruct (lstrip_suffix ws t0) as [p Hp].
  destruct (rstrip_prefix ws (lstrip ws t0)) as [q Hq].
  rewrite Hp, Hq in H0.
  apply Forall_app in H0 as [_ H0]. by apply Forall_app in H0 as [H0 _].
Qed.

(** A text without a digit is no number, whatever else it holds (the
    empty text, a dash, a word): [CleanDecimal.filter] raises
    [InvalidOperation] when it has no default, and otherwise returns what
    [Decimal] makes of the default, or raises what [Decimal] raises on
    it. *)
Theorem CleanDecimal_without_digits (replace_dots : bool) (d : option Value)
    (s : text) :
  Forall (λ c, is_digit c = false) s →
  CleanDecimal_filter ws replace_dots d (VStr s)
  = match d with
    | Some v => Decimal_of ws v
    | None => Raise InvalidOperation
    end.
Proof.
  intros Hs. unfold CleanDecimal_filter, CleanText_filter.
  cbn [clean mbind Outcome_bind remove fold_left].
  rewrite Decimal_of_text_no_digit; [done|].
  unfold keep_number_chars.
  apply List.Forall_forall. intros c Hc. apply filter_In in Hc as [Hc _].
  revert c Hc. apply List.Forall_forall.
  destruct replace_dots.
  - apply no_digit_replace; [by repeat constructor|].
    apply no_digit_replace; [done|]. by apply no_digit_clean_str.
  - by apply no_digit_clean_str.
Qed.

End NoDigits.

(** "n/a" with the default 0. *)
Lemma CleanDecimal_without_digits_witness :
  CleanDecimal_filter unicode_isspace true (Some (VInt 0)) (VStr (u "n/a"))
  = Ok (mkDecimal false 0 0).
Proof.
  apply (CleanDecimal_without_digits unicode_isspace true (Some (VInt 0))
           (u "n/a")).
  repeat constructor.
Defined.

End FilterFacts.

(** * Facts about the browser *)

Module BrowserFacts.

Import Browser.
Local Open Scope string_scope.
Local Open Scope list_scope.
Local Open Scope nat_scope.

(** ** The page table *)

Section Dispatch.

Context {PageCls : Type}.
Variable re_match : string → string → option Match.

Lemma find_page_Some (items : list (string * PageCls)) url v m :
  find_page re_match items url = Some (v, m) ↔
  ∃ pre key post,
    items = pre ++ (key, v) :: post
    ∧ re_match (anchored key) url = Some m
    ∧ Forall (λ kv : string * PageCls, re_match (anchored kv.1) url = None) pre.
Proof.
  induction items as [|[k w] rest IH]; simpl.
  - split; [done|]. intros (pre & key & post & H & _). by destruct pre.
  - destruct (re_match (anchored k) url) as [m'|] eqn:Hk.
    + split.
      * intros [= -> ->]. exists [], k, rest. by repeat split.
      * intros (pre & key & post & H & Hm & Hpre).
        destruct pre as [|[k' w'] pre]; simpl in H.
        -- injection H as -> -> ->. congruence.
        -- injection H as -> -> ->. inversion Hpre; subst. simpl in *.
           congruence.
    + rewrite IH. split.
      * intros (pre & key & post & -> & Hm & Hpre).
        exists ((k, w) :: pre), key, post. repeat split; [done|].
        by constructor.
      * intros (pre & key & post & H & Hm & Hpre).
        destruct pre as [|[k' w'] pre]; simpl in H.
        -- injection H as -> -> ->. congruence.
        -- injection H as -> -> ->. inversion Hpre; subst.
           by exists pre, key, post.
Qed.

Lemma find_page_None (items : list (string * PageCls)) url :
  find_page re_match items url = None ↔
  Forall (λ kv : string * PageCls, re_match (anchored kv.1) url = None) items.
Proof.
  induction items as [|[k w] rest IH]; simpl.
  - split; [constructor | done].
  - destruct (re_match (anchored k) url) eqn:Hk.
    + split; [done|]. inversion 1; subst. simpl in *. congruence.
    + rewrite IH. split; [by constructor | by inversion 1].
Qed.

(** If one binding only matches, it is found wherever it stands. *)
Lemma find_page_only (items : list (string * PageCls)) url key v m :
  (key, v) ∈ items →
  re_match (anchored key) url = Some m →
  (∀ key' v', (key', v') ∈ items → key' ≠ key →
              re_match (anchored key') url = None) →
  NoDup items.*1 →
  find_page re_match items url = Some (v, m).
Proof.
  induction items as [|[k w] rest IH]; simpl; intros Hin Hm Hothers Hnd.
  - by apply elem_of_nil in Hin.
  - apply list.NoDup_cons in Hnd as [Hk Hnd].
    apply elem_of_cons in Hin as [[= <- <-] | Hin].
    + by rewrite Hm.
    + assert (k ≠ key) as Hne.
      { intros ->. apply Hk. apply list_elem_of_fmap. by exists (key, v). }
      rewrite (Hothers k w) by (done || left).
      apply IH; auto. intros key' v' Hin'. apply (Hothers key' v'). by right.
Qed.

Lemma dict_literal_list_to_map (pairs : list (string * PageCls)) :
  dict_literal pairs = list_to_map (rev pairs).
Proof.
  unfold dict_literal, list_to_map.
  symmetry. apply (fold_left_rev_right (λ p : string * PageCls, <[p.1:=p.2]>)).
Qed.

(** A display with distinct keys builds the same dictionary in whatever
    order its pairs are written. *)
Lemma dict_literal_permutation (pairs1 pairs2 : list (string * PageCls)) :
  NoDup pairs1.*1 → pairs1 ≡ₚ pairs2 →
  dict_literal pairs1 = dict_literal pairs2.
Proof.
  intros Hnd Hp. rewrite !dict_literal_list_to_map.
  apply list_to_map_proper.
  - by rewrite <- Permutation_rev.
  - by rewrite <- !Permutation_rev.
Qed.

(** Whatever the order of a dictionary is, [items()] lists its bindings,
    each once. *)
Variable dict_items : gmap string PageCls → list (string * PageCls).
Hypothesis dict_items_lists : ∀ d, dict_items d ≡ₚ map_to_list d.

Lemma elem_of_dict_items d key v : (key, v) ∈ dict_items d ↔ d !! key = Some v.
Proof. by rewrite dict_items_lists, elem_of_map_to_list. Qed.

Lemma NoDup_dict_items d : NoDup (dict_items d).*1.
Proof. rewrite dict_items_lists. apply NoDup_fst_map_to_list. Qed.

(** C1, as the code has it.  [dispatch] goes through the bindings in the
    order in which the dictionary [PAGES] lists them, matches the URL
    against each pattern put between [^] and [$], and returns the class and
    the match of the first binding that matches; it finds nothing exactly
    when no pattern of the table matches.  Whatever that order is, a URL
    that one pattern only matches goes to the class of that pattern. *)
Theorem dispatch_first_in_dict_order (PAGES : gmap string PageCls)
    (url : string) :
  (∀ v m,
     dispatch PAGES dict_items re_match url = Some (v, m) ↔
     ∃ pre key post,
       dict_items PAGES = pre ++ (key, v) :: post
       ∧ re_match (anchored key) url = Some m
       ∧ Forall (λ kv : string * PageCls,
                   re_match (anchored kv.1) url = None) pre)
  ∧ (dispatch PAGES dict_items re_match url = None ↔
     ∀ key v, PAGES !! key = Some v → re_match (anchored key) url = None)
  ∧ (∀ key v m,
       PAGES !! key = Some v → re_match (anchored key) url = Some m →
       (∀ key', key' ≠ key → is_Some (PAGES !! key') →
                re_match (anchored key') url = None) →
       dispatch PAGES dict_items re_match url = Some (v, m)).
Proof.
  unfold dispatch, PAGES_items. repeat split.
  - by apply find_page_Some.
  - by apply find_page_Some.
  - rewrite find_page_None, list.Forall_forall. intros H key v Hk.
    apply (H (key, v)). by apply elem_of_dict_items.
  - rewrite find_page_None, list.Forall_forall. intros H [key v] Hk.
    apply (H key v). by apply elem_of_dict_items.
  - intros key v m Hk Hm Hothers. apply find_page_only with key; auto.
    + by apply elem_of_dict_items.
    + intros key' v' Hin Hne. apply Hothers; [done|].
      apply elem_of_dict_items in Hin. by exists v'.
    + apply NoDup_dict_items.
Qed.

End Dispatch.

(** The table of the bank sends the page of accounts to its class. *)
Lemma dispatch_first_in_dict_order_witness :
  dispatch Bank.PAGES Bank.dict_items Regex.re_match "http://bank/accounts"
  = Some (Bank.AccountsPage, mkMatch [] []).
Proof.
  pose proof (dispatch_first_in_dict_order Regex.re_match Bank.dict_items
                (λ d, reflexivity _) Bank.PAGES "http://bank/accounts")
    as (_ & _ & Honly).
  apply (Honly "http://bank/accounts"); [reflexivity | reflexivity |].
  intros key' Hne [v Hv].
  unfold Bank.PAGES in Hv.
  repeat (apply lookup_insert_Some in Hv as [[<- _] | [_ Hv]];
          [first [reflexivity | by destruct Hne]|]).
  apply lookup_singleton_Some in Hv as [<- _].
  first [reflexivity | by destruct Hne].
Defined.

(** The patterns are matched against the whole URL: neither a URL that
    goes on after a match nor one that begins before it is dispatched. *)
Example dispatch_whole_url :
  dispatch Bank.PAGES Bank.dict_items Regex.re_match "http://bank/home/more"
  = None
  ∧ dispatch Bank.PAGES Bank.dict_items Regex.re_match "php?http://bank/home"
    = None.
Proof. split; reflexivity. Qed.

(** C1, as the spec has it, fails: the table does not keep the order of its
    declaration.  A catch-all pattern written before or after a more
    specific one gives the same dictionary, so, in whatever order
    dictionaries list their bindings, [dispatch] cannot return the first
    match of both declarations. *)
Lemma dispatch_not_in_declaration_order :
  ¬ ∃ dict_items : gmap string Bank.Cls → list (string * Bank.Cls),
      ∀ (pairs : list (string * Bank.Cls)) (url : string),
        dispatch (dict_literal pairs) dict_items Regex.re_match url
        = find_page Regex.re_match pairs url.
Proof.
  intros [dict_items H].
  pose proof (H [("http://bank/a.*", Bank.AccountsPage);
                 ("http://bank/.*", Bank.HomePage)]
                "http://bank/accounts") as H1.
  pose proof (H [("http://bank/.*", Bank.HomePage);
                 ("http://bank/a.*", Bank.AccountsPage)]
                "http://bank/accounts") as H2.
  rewrite (dict_literal_permutation
             [("http://bank/.*", Bank.HomePage);
              ("http://bank/a.*", Bank.AccountsPage)]
             [("http://bank/a.*", Bank.AccountsPage);
              ("http://bank/.*", Bank.HomePage)]) in H2.
  - rewrite H1 in H2. vm_compute in H2. discriminate H2.
  - apply (bool_decide_unpack _). vm_compute. reflexivity.
  - apply Permutation_swap.
Qed.

(** ** Runs of the engine *)

Section Runs.

Context {PageCls Document World : Type}.

Variable PROTOCOL : string.
Variable DOMAIN : option string.
Variable PAGES : gmap string PageCls.
Variable SAVE_RESPONSES : bool.
Variable dict_items : gmap string PageCls → list (string * PageCls).
Variable re_match : string → string → option Match.
Variable parse : Response → Document.
Variable mech_open : Target → option string → World → Outcome Response * World.
Variable mech_open_novisit :
  Target → option string → World → Outcome Response * World.
Variable mech_submit : World → Outcome Response * World.
Variable mech_follow_link : World → Outcome Response * World.
Variable world_request : World → option Request.
Variable login : @Proc PageCls Document World.
Variable is_logged : @BrowserState PageCls Document World → bool.
Variable home : @Proc PageCls Document World.
Variable on_loaded : PageCls → @Proc PageCls Document World.

Local Abbreviation State := (@BrowserState PageCls Document World).
Local Abbreviation Method := (@M PageCls Document World).
Local Abbreviation change_location :=
  (_change_location PAGES SAVE_RESPONSES dict_items re_match parse login is_logged
                    on_loaded).
Local Abbreviation loc_body :=
  (location_body PAGES SAVE_RESPONSES dict_items re_match parse mech_open login
                 is_logged home on_loaded).
Local Abbreviation loc :=
  (location PROTOCOL DOMAIN PAGES SAVE_RESPONSES dict_items re_match parse mech_open
            world_request login is_logged home on_loaded).
Local Abbreviation sub :=
  (submit PAGES SAVE_RESPONSES dict_items re_match parse mech_submit login is_logged
          on_loaded).
Local Abbreviation follow :=
  (follow_link PAGES SAVE_RESPONSES dict_items re_match parse mech_follow_link login
               is_logged home on_loaded).
Local Abbreviation open_url :=
  (openurl PROTOCOL DOMAIN mech_open mech_open_novisit world_request home).
Local Abbreviation the_browser :=
  (browser PROTOCOL DOMAIN PAGES SAVE_RESPONSES dict_items re_match parse mech_open
           mech_open_novisit mech_submit mech_follow_link world_request
           login is_logged home on_loaded).
Local Abbreviation target_of :=
  (check_location_target PROTOCOL DOMAIN world_request).

Lemma event_ok_mono strict lo hi lo' hi' ev :
  lo' ≤ lo → hi ≤ hi' → event_ok strict lo hi ev → event_ok strict lo' hi' ev.
Proof.
  intros Hlo Hhi. destruct ev as [[] []| | | | | | | |]; simpl; auto; lia.
Qed.

Lemma step_ok_refl strict (b : State) : step_ok strict b b.
Proof. exists []. by rewrite app_nil_r. Qed.

Lemma step_ok_trans strict (b1 b2 b3 : State) :
  step_ok strict b1 b2 → step_ok strict b2 b3 → step_ok strict b1 b3.
Proof.
  intros (e1 & Ht1 & Hn1 & Hf1) (e2 & Ht2 & Hn2 & Hf2).
  exists (e1 ++ e2). split; [by rewrite Ht2, Ht1, app_assoc|].
  split; [lia|]. apply Forall_app. split.
  - eapply List.Forall_impl; [|exact Hf1].
    intros ev. apply event_ok_mono; lia.
  - eapply List.Forall_impl; [|exact Hf2].
    intros ev. apply event_ok_mono; lia.
Qed.

Lemma step_ok_event strict (b : State) ev :
  neutral ev → step_ok strict b (add_event ev b).
Proof.
  intros Hev. exists [ev]. repeat split; [done|].
  constructor; [|constructor].
  destruct ev as [[] []| | | | | | | |]; simpl in *; done.
Qed.

Lemma step_ok_same strict (b b' : State) :
  trace b' = trace b → next_id b' = next_id b → step_ok strict b b'.
Proof.
  intros Ht Hn. exists []. rewrite app_nil_r, Hn. by repeat split.
Qed.

Section Strictness.

Variable strict : bool.

Lemma at_ret {A} (b : State) (a : A) : pres_at strict b (ret a).
Proof. apply step_ok_refl. Qed.

Lemma at_raise {A} (b : State) e : pres_at strict b (@raise _ _ _ A e).
Proof. apply step_ok_refl. Qed.

Lemma at_diverge {A} (b : State) : pres_at strict b (@diverge _ _ _ A).
Proof. apply step_ok_refl. Qed.

Lemma at_bind {A B} b (m : Method A) (k : A → Method B) :
  pres_at strict b m →
  (∀ a b1, m b = (Ok a, b1) → pres_at strict b1 (k a)) →
  pres_at strict b (bind m k).
Proof.
  unfold pres_at, bind. intros Hm Hk.
  destruct (m b) as [[a| e |] b1] eqn:E; simpl in *; [|done..].
  eapply step_ok_trans; [exact Hm|]. by apply Hk.
Qed.

Lemma at_try {A} b (m : Method A) handler :
  pres_at strict b m →
  (∀ e b1 h, m b = (Raise e, b1) → handler e = Some h → pres_at strict b1 h) →
  pres_at strict b (try_except m handler).
Proof.
  unfold pres_at, try_except. intros Hm Hh.
  destruct (m b) as [[a| e |] b1] eqn:E; simpl in *; [done| |done].
  destruct (handler e) as [h|] eqn:Eh; [|done].
  eapply step_ok_trans; [exact Hm|]. by eapply Hh.
Qed.

Lemma at_retry {A} check tries (f : Method A) b :
  (∀ b, pres_at strict b f) → pres_at strict b (retry check tries f).
Proof.
  intros Hf. revert b. induction tries as [|n IH]; intros b; simpl; [done|].
  destruct n; [done|].
  apply at_try; [done|]. intros e b1 h _ Hh.
  destruct (check e); [|done]. injection Hh as <-. apply IH.
Qed.

Lemma at_emit (b : State) ev : neutral ev → pres_at strict b (emit ev).
Proof. intros. by apply step_ok_event. Qed.

Lemma at_modify b (f : State → State) :
  (∀ b, trace (f b) = trace b) → (∀ b, next_id (f b) = next_id b) →
  pres_at strict b (modify f).
Proof. intros Ht Hn. apply step_ok_same; [apply Ht | apply Hn]. Qed.

Lemma at_call_mech (b : State) ev f :
  neutral ev → pres_at strict b (call_mech ev f).
Proof.
  intros Hev. unfold pres_at, call_mech.
  destruct (f (world (b : State))) as [r w]. simpl.
  eapply step_ok_trans; [by apply step_ok_event|]. by apply step_ok_same.
Qed.

Lemma at_save_response (b : State) r w : pres_at strict b (save_response r w).
Proof.
  unfold save_response.
  apply at_bind; [apply at_ret|]. intros b0 b1 _.
  apply at_bind; [by apply at_emit|]. intros _ b2 _.
  apply at_bind; [by apply at_modify|]. intros _ b3 _.
  apply at_emit. by destruct w.
Qed.

Lemma at_run self p (b : State) :
  self_ok strict self → proc_ok strict p → pres_at strict b (run self p).
Proof.
  intros (Hloc & Hsub & Hfol & Hopen) Hp. unfold proc_ok in Hp.
  revert b. induction p as [| e | t data nl k IH | nl k IH | k IH
                            | t data f k IH | c k1 IH1 k2 IH2];
    intros b; simpl in *.
  - apply at_ret.
  - apply at_raise.
  - apply at_bind; [apply Hloc; intros; by apply Hp|].
    intros _ b1 _. apply IH. intros; by apply Hp.
  - apply at_bind; [apply Hsub; intros; by apply Hp|].
    intros _ b1 _. apply IH. intros; by apply Hp.
  - assert (strict = false) as Es by (destruct strict; [by destruct Hp | done]).
    apply at_bind; [by apply Hfol|]. intros _ b1 _. apply IH.
    rewrite Es. done.
  - apply at_bind; [apply Hopen|]. intros _ b1 _. by apply IH.
  - apply at_bind; [apply at_ret|]. intros b0 b1 _.
    destruct (c b0); [apply IH1 | apply IH2]; intros; by apply Hp.
Qed.

(** *** Stepping through a method *)

Lemma bind_get {A} (k : State → Method A) b : (b' <- get ;; k b') b = k b b.
Proof. reflexivity. Qed.

Lemma bind_modify {A} f (k : Method A) b : (modify f ;; k) b = k (f b).
Proof. reflexivity. Qed.

Lemma bind_emit {A} ev (k : Method A) b : (emit ev ;; k) b = k (add_event ev b).
Proof. reflexivity. Qed.

Lemma bind_ret {A B} (a : A) (k : A → Method B) b : (x <- ret a ;; k x) b = k a b.
Proof. reflexivity. Qed.

Lemma bind_emit_bind {A B} ev (m : Method A) (k : A → Method B) b :
  (x <- (emit ev ;; m) ;; k x) b = (x <- m ;; k x) (add_event ev b).
Proof. reflexivity. Qed.

(** A block that ends in [raise] does not come to what follows it. *)
Lemma bind_raise_state {A B C} (m : Method A) e (k : B → Method C) b :
  (x <- (m ;; raise e) ;; k x) b = (m ;; raise e) b.
Proof. unfold bind, raise. by destruct (m b) as [[| |] ?]. Qed.

Lemma bind_raise_snd {A B} (m : Method A) e b :
  ((m ;; @raise _ _ _ B e) b).2 = (m b).2.
Proof. unfold bind, raise. by destruct (m b) as [[| |] ?]. Qed.

Lemma bind_raise_not_ok {A B} (m : Method A) e b :
  is_ok ((m ;; @raise _ _ _ B e) b).1 = false.
Proof. unfold bind, raise. by destruct (m b) as [[| |] ?]. Qed.

(** [_change_location] on a URL of the table, by the state of the gate *)
Lemma change_location_found self r nl b cls m :
  dispatch PAGES dict_items re_match (geturl r) = Some (cls, m) →
  let b1 := with_page parse cls m r (before_page SAVE_RESPONSES r b) in
  change_location self r nl b =
  if gate is_logged nl b1
  then (run self login ;; raise BrowserRetry) (add_event (Log DEBUG Relogin) b1)
  else (run self (on_loaded cls) ;; save_cookie)
         (add_event (OnLoaded (next_id (before_page SAVE_RESPONSES r b))) b1).
Proof.
  intros Hd b1. unfold _change_location. rewrite Hd.
  rewrite bind_get, bind_emit.
  assert (Hsave :
    ∀ (k : Method unit),
      ((if SAVE_RESPONSES then save_response r false else ret tt) ;; k)
        (add_event (Log DEBUG (WentOn (username b) (geturl r))) b)
      = k (before_page SAVE_RESPONSES r b)).
  { intros k. unfold before_page. by destruct SAVE_RESPONSES. }
  rewrite Hsave. rewrite bind_get. cbv zeta.
  rewrite !bind_modify, bind_emit, bind_get.
  fold (page_made parse cls m r (before_page SAVE_RESPONSES r b)).
  change (add_event _ (set_page _ (set_next_id _ (before_page SAVE_RESPONSES r b))))
    with b1.
  change (negb nl && bool_decide (password b1 ≠ None) && negb (is_logged b1))
    with (gate is_logged nl b1).
  destruct (gate is_logged nl b1).
  - by rewrite bind_emit_bind, bind_raise_state.
  - rewrite bind_ret, bind_get. reflexivity.
Qed.

(** [_change_location] on a URL that is not in the table *)
Lemma change_location_not_found self r nl b :
  dispatch PAGES dict_items re_match (geturl r) = None →
  change_location self r nl b =
  (Ok tt,
   add_event (Log WARNING (ResponseSavedTo (responses_count b)))
     (set_responses_count (S (responses_count b))
        (add_event (FileWritten (responses_count b) r)
           (add_event (Log WARNING (NoPageForURL (geturl r)))
              (set_page None b))))).
Proof. intros Hd. unfold _change_location. by rewrite Hd. Qed.

Lemma step_ok_before_page (b : State) r : step_ok strict b (before_page SAVE_RESPONSES r b).
Proof.
  unfold before_page.
  set (b1 := add_event (Log DEBUG (WentOn (username b) (geturl r))) b).
  assert (step_ok strict b b1) as H1 by (by apply step_ok_event).
  destruct SAVE_RESPONSES; [|done].
  eapply step_ok_trans; [exact H1|].
  set (b2 := add_event (FileWritten (responses_count b1) r) b1).
  apply step_ok_trans with b2; [by apply step_ok_event|].
  set (b3 := set_responses_count (S (responses_count b1)) b2).
  apply step_ok_trans with b3; [by apply step_ok_same|].
  by apply step_ok_event.
Qed.

Hypothesis login_ok : proc_ok strict login.
Hypothesis home_ok : proc_ok strict home.
Hypothesis on_loaded_ok : ∀ cls, proc_ok strict (on_loaded cls).

Lemma at_save_cookie (b : State) : pres_at strict b save_cookie.
Proof.
  unfold save_cookie. apply at_bind; [apply at_ret|]. intros b0 b1 _.
  destruct (_cookie b0); [by apply at_emit | apply at_ret].
Qed.

Lemma at_change_location self r nl b :
  self_ok strict self → (strict = true → nl = true) →
  pres_at strict b (change_location self r nl).
Proof.
  intros Hself Hnl. unfold pres_at.
  destruct (dispatch PAGES dict_items re_match (geturl r)) as [[cls m]|] eqn:Hd.
  2:{ rewrite change_location_not_found by done. simpl.
      set (b1 := set_page None b).
      set (b2 := add_event (Log WARNING (NoPageForURL (geturl r))) b1).
      set (b3 := add_event (FileWritten (responses_count b) r) b2).
      set (b4 := set_responses_count (S (responses_count b)) b3).
      apply step_ok_trans with b1; [by apply step_ok_same|].
      apply step_ok_trans with b2; [by apply step_ok_event|].
      apply step_ok_trans with b3; [by apply step_ok_event|].
      apply step_ok_trans with b4; [by apply step_ok_same|].
      by apply step_ok_event. }
  rewrite (change_location_found self r nl b cls m Hd). cbv zeta.
  pose proof (step_ok_before_page b r) as H0.
  set (b0 := before_page SAVE_RESPONSES r b) in *.
  destruct (gate is_logged nl (with_page parse cls m r b0)) eqn:G.
  - assert (strict = false) as Es.
    { destruct strict; [|done]. rewrite Hnl in G by done. done. }
    rewrite bind_raise_snd.
    eapply step_ok_trans; [exact H0|].
    eapply step_ok_trans; [|by apply at_run].
    exists [PageCreated (next_id b0) (geturl r); Log DEBUG Relogin].
    split; [by simpl; rewrite <- app_assoc|]. split; [simpl; lia|].
    repeat constructor; simpl; (done || lia).
  - eapply step_ok_trans; [exact H0|].
    eapply step_ok_trans.
    2:{ apply at_bind; [by apply at_run|]. intros _ b2 _.
        apply at_save_cookie. }
    exists [PageCreated (next_id b0) (geturl r); OnLoaded (next_id b0)].
    split; [by simpl; rewrite <- app_assoc|]. split; [simpl; lia|].
    repeat constructor; simpl; lia.
Qed.

Lemma at_location_body self t data nl b :
  self_ok strict self → (strict = true → nl = true) →
  pres_at strict b (loc_body self t data nl).
Proof.
  intros Hself Hnl. unfold location_body.
  apply at_try.
  - apply at_bind; [by apply at_call_mech|]. intros r b1 _.
    by apply at_change_location.
  - intros e b1 h _ Hh.
    destruct e; simpl in Hh; try discriminate; injection Hh as <-.
    + (* BrowserRetry *)
      apply at_bind; [apply at_ret|]. intros b2 b3 _.
      destruct (page b2) as [p|];
        [destruct (url_differs p t); [|apply at_ret]|];
        by apply Hself.
    + apply at_bind; [by apply at_modify|]. intros. apply at_raise.
    + apply at_bind; [by apply at_modify|]. intros. apply at_raise.
    + apply at_bind; [by apply at_modify|]. intros. apply at_raise.
    + apply at_bind; [by apply at_modify|]. intros. apply at_raise.
    + (* BrowserStateError *)
      apply at_bind; [by apply at_run|]. intros _ b2 _. by apply Hself.
Qed.

Lemma at_location self t data nl b :
  self_ok strict self → (strict = true → nl = true) →
  pres_at strict b (loc self t data nl).
Proof.
  intros Hself Hnl. unfold location, check_location.
  apply at_retry. intros b'. by apply at_location_body.
Qed.

Lemma at_submit self nl b :
  self_ok strict self → (strict = true → nl = true) →
  pres_at strict b (sub self nl).
Proof.
  intros Hself Hnl. unfold submit.
  apply at_try.
  - apply at_bind; [by apply at_call_mech|]. intros r b1 _.
    by apply at_change_location.
  - intros e b1 h _ Hh.
    destruct e; simpl in Hh; try discriminate; injection Hh as <-;
      first [ apply at_raise
            | apply at_bind; [by apply at_modify|]; intros; apply at_raise ].
Qed.

Lemma at_follow_link self b :
  self_ok strict self → strict = false → pres_at strict b (follow self).
Proof.
  intros Hself Es. unfold follow_link.
  apply at_try.
  - apply at_bind; [by apply at_call_mech|]. intros r b1 _.
    apply at_change_location; [done|]. rewrite Es. done.
  - intros e b1 h _ Hh.
    destruct e; simpl in Hh; try discriminate; injection Hh as <-;
      first [ apply at_bind; [by apply at_modify|]; intros; apply at_raise
            | apply at_bind; [by apply at_run|]; intros; apply at_raise ].
Qed.

Lemma at_openurl self t data f b :
  self_ok strict self → pres_at strict b (open_url self t data f).
Proof.
  intros Hself. unfold openurl, check_location.
  apply at_retry. intros b'.
  apply at_bind; [by apply at_emit|]. intros _ b1 _.
  apply at_try.
  - apply at_bind; [by apply at_call_mech|]. intros. apply at_ret.
  - intros e b2 h _ Hh.
    destruct e; simpl in Hh; try discriminate; injection Hh as <-;
      first [ destruct f; [apply at_raise | apply at_ret]
            | apply at_bind; [by apply at_run|]; intros;
              apply at_bind; [by apply at_call_mech|]; intros; apply at_ret ].
Qed.

(** Every method of the browser keeps to the pages it makes itself, and, in
    a strict run, starts no login. *)
Lemma browser_ok fuel : self_ok strict (the_browser fuel).
Proof.
  induction fuel as [|n IH]; simpl.
  - repeat split; intros; apply at_diverge.
  - repeat split; intros.
    + by apply at_location.
    + by apply at_submit.
    + by apply at_follow_link.
    + by apply at_openurl.
Qed.

End Strictness.

(** *** Logins *)

Lemma relogins_app tr1 tr2 :
  relogins (tr1 ++ tr2) = relogins tr1 + relogins tr2.
Proof. unfold relogins. by rewrite list.filter_app, length_app. Qed.

Lemma relogins_strict lo hi ext :
  Forall (event_ok true lo hi) ext → relogins ext = 0.
Proof.
  induction 1 as [|ev ext Hev _ IH]; [done|].
  change (ev :: ext) with ([ev] ++ ext). rewrite relogins_app, IH.
  unfold relogins. rewrite list.filter_cons.
  destruct (decide (ev = Log DEBUG Relogin)) as [-> | _]; [|done].
  simpl in Hev. done.
Qed.

Lemma step_ok_relogins (b b' : State) :
  step_ok true b b' → relogins (trace b') = relogins (trace b).
Proof.
  intros (ext & -> & _ & Hext). rewrite relogins_app.
  rewrite (relogins_strict _ _ _ Hext). lia.
Qed.

(** C4, as the code has it.  There is no counter: what keeps a navigation
    from starting a login is the flag of the call.  If [login], [home] and
    the [on_loaded] hooks pass [no_login=True] to each [location] and
    [nologin=True] to each [submit] they call, then, however deep the calls
    nest and whatever [is_logged] answers, no login is started while
    [login] runs, nor in any [location] or [submit] called with the
    flag. *)
Theorem flagged_calls_start_no_login (fuel : nat) (b : State) :
  flagged login → flagged home → (∀ cls, flagged (on_loaded cls)) →
  relogins (trace (run (the_browser fuel) login b).2) = relogins (trace b)
  ∧ (∀ t data,
       relogins (trace (self_location (the_browser fuel) t data true b).2)
       = relogins (trace b))
  ∧ relogins (trace (self_submit (the_browser fuel) true b).2)
    = relogins (trace b).
Proof.
  intros Hl Hh Ho.
  assert (Hb : self_ok true (the_browser fuel))
    by (apply browser_ok; unfold proc_ok; auto).
  repeat split; intros; apply step_ok_relogins.
  - apply at_run; [done|]. by intros _.
  - by apply Hb.
  - by apply Hb.
Qed.

(** *** A URL that is not in the table *)

Lemma call_mech_run ev f (b : State) :
  call_mech ev f b = ((f (world b)).1, set_world (f (world b)).2 (add_event ev b)).
Proof. unfold call_mech. by destruct (f (world b)). Qed.

Lemma retry_not_checked {A} check tries (f : Method A) b out b' :
  f b = (out, b') →
  (∀ e, out = Raise e → check e = false) →
  retry check tries f b = (out, b').
Proof.
  intros Hf Hout. destruct tries as [|[|n]]; simpl; [done..|].
  unfold try_except. rewrite Hf. destruct out as [a|e|]; [done| |done].
  by rewrite (Hout e).
Qed.

(** C2, as the code has it.  When the URL of the response matches no
    pattern, [_change_location] sets the page to [None], logs a warning
    with the URL, saves the response and logs the name of the file, and
    returns: no exception is raised, and [location], [submit] and
    [follow_link] return to their caller with no current page. *)
Theorem unmatched_url_returns_without_page self r :
  dispatch PAGES dict_items re_match (geturl r) = None →
  (∀ nl b, change_location self r nl b = (Ok tt, page_missing r b))
  ∧ (∀ t data nl b w,
       mech_open (target_of b t) data (world b) = (Ok r, w) →
       loc self t data nl b
       = (Ok tt,
          page_missing r
            (set_world w (add_event (MechOpen (target_of b t) data) b))))
  ∧ (∀ nl b w,
       mech_submit (world b) = (Ok r, w) →
       sub self nl b
       = (Ok tt, page_missing r (set_world w (add_event MechSubmit b))))
  ∧ (∀ b w,
       mech_follow_link (world b) = (Ok r, w) →
       follow self b
       = (Ok tt, page_missing r (set_world w (add_event MechFollowLink b)))).
Proof.
  intros Hd.
  assert (Hc : ∀ nl b, change_location self r nl b = (Ok tt, page_missing r b))
    by (intros; by apply change_location_not_found).
  split; [exact Hc|]. repeat split.
  - intros t data nl b w Ho. unfold location, check_location.
    apply retry_not_checked; [|done].
    unfold location_body, try_except, bind.
    rewrite call_mech_run, Ho. simpl. by rewrite Hc.
  - intros nl b w Ho. unfold submit, try_except, bind.
    rewrite call_mech_run, Ho. simpl. by rewrite Hc.
  - intros b w Ho. unfold follow_link, try_except, bind.
    rewrite call_mech_run, Ho. simpl. by rewrite Hc.
Qed.

(** *** A transport that fails *)

Lemma location_body_transport self t data nl b e b1 :
  (result <- call_mech (MechOpen t data) (mech_open t data) ;;
   change_location self result nl) b = (Raise e, b1) →
  is_transport_error e = true →
  loc_body self t data nl b = (Raise (get_exception e), set_page None b1).
Proof.
  intros Hm He. unfold location_body, try_except. rewrite Hm.
  by destruct e.
Qed.

Lemma submit_transport self nl b e b1 :
  (result <- call_mech MechSubmit mech_submit ;;
   change_location self result nl) b = (Raise e, b1) →
  is_transport_error e = true →
  sub self nl b = (Raise (get_exception e), set_page None b1).
Proof.
  intros Hm He. unfold submit, try_except. rewrite Hm.
  by destruct e.
Qed.

Lemma location_body_down self t data nl b e w :
  mech_open t data (world b) = (Raise e, w) →
  is_transport_error e = true →
  loc_body self t data nl b
  = (Raise (get_exception e),
     set_page None (set_world w (add_event (MechOpen t data) b))).
Proof.
  intros Ho He. apply location_body_transport; [|done].
  unfold bind. by rewrite call_mech_run, Ho.
Qed.

(** C10.  When what [location] or [submit] tries (the call of mechanize,
    then [_change_location]) raises an HTTP error, a URL error, a bad status
    line or a mechanize response as an error, the method sets the page to
    [None] and raises the error [get_exception] makes of it; and when the
    transport fails so on every attempt at a URL, the decorated [location]
    ends in that error with no current page, whichever page was current
    before. *)
Theorem transport_failure_clears_page self :
  (∀ t data nl b e b1,
     (result <- call_mech (MechOpen t data) (mech_open t data) ;;
      change_location self result nl) b = (Raise e, b1) →
     is_transport_error e = true →
     loc_body self t data nl b = (Raise (get_exception e), set_page None b1)
     ∧ page (loc_body self t data nl b).2 = None)
  ∧ (∀ nl b e b1,
       (result <- call_mech MechSubmit mech_submit ;;
        change_location self result nl) b = (Raise e, b1) →
       is_transport_error e = true →
       sub self nl b = (Raise (get_exception e), set_page None b1)
       ∧ page (sub self nl b).2 = None)
  ∧ (∀ t data nl b,
       (∀ w, ∃ e w', mech_open (target_of b t) data w = (Raise e, w')
                     ∧ is_transport_error e = true) →
       ∃ e b', loc self t data nl b = (Raise (get_exception e), b')
               ∧ is_transport_error e = true
               ∧ page b' = None).
Proof.
  repeat split.
  - by apply location_body_transport.
  - by rewrite (location_body_transport self t data nl b e b1).
  - by apply submit_transport.
  - by rewrite (submit_transport self nl b e b1).
  - intros t data nl b Hdown. unfold location, check_location.
    remember (target_of b t) as t' eqn:Et. clear Et.
    assert (Hbody : ∀ b0, ∃ e b', loc_body self t' data nl b0
                                  = (Raise (get_exception e), b')
                                  ∧ is_transport_error e = true
                                  ∧ page b' = None).
    { intros b0. destruct (Hdown (world b0)) as (e & w' & Ho & He).
      exists e, (set_page None
                   (set_world w' (add_event (MechOpen t' data) b0))).
      split; [by apply location_body_down | done]. }
    generalize 3. intros tries. revert b.
    induction tries as [|n IH]; intros b; simpl; [apply Hbody|].
    destruct n; [apply Hbody|].
    unfold try_except at 1.
    destruct (Hbody b) as (e & b' & -> & He & Hp).
    destruct (is_BrowserHTTPError (get_exception e)); [apply IH|].
    by exists e, b'.
Qed.

(** *** The hook of a page *)

Lemma loads_app id tr1 tr2 : loads id (tr1 ++ tr2) = loads id tr1 + loads id tr2.
Proof. unfold loads. by rewrite list.filter_app, length_app. Qed.

Lemma loads_older strict lo hi id ext :
  id < lo → Forall (event_ok strict lo hi) ext → loads id ext = 0.
Proof.
  intros Hid. induction 1 as [|ev ext Hev _ IH]; [done|].
  change (ev :: ext) with ([ev] ++ ext). rewrite loads_app, IH.
  unfold loads. rewrite list.filter_cons.
  destruct (decide (ev = OnLoaded id)) as [-> | _]; [|done].
  simpl in Hev. lia.
Qed.

Lemma before_page_adds r (b : State) :
  ∃ pre, trace (before_page SAVE_RESPONSES r b) = trace b ++ pre
         ∧ next_id (before_page SAVE_RESPONSES r b) = next_id b
         ∧ ∀ id, loads id pre = 0.
Proof.
  unfold before_page. destruct SAVE_RESPONSES; simpl.
  - eexists [_; _; _]. rewrite <- !app_assoc. simpl. repeat split.
  - eexists [_]. repeat split.
Qed.

(** A call of [_change_location] that finds a page class and returns has
    made one page, has found the login gate closed,
    and has called [on_loaded] on that page right after making it, once:
    what it adds to the trace is the creation of the page, followed at once
    by the call of its hook, and no other call of that hook before or
    after, however many pages the hook itself loads.  The hook of
    [BasePage] does nothing. *)
Theorem on_loaded_once_after_construction fuel r nl b b' cls m :
  dispatch PAGES dict_items re_match (geturl r) = Some (cls, m) →
  change_location (the_browser fuel) r nl b = (Ok tt, b') →
  (∃ pre post,
     trace b' = trace b ++ pre
                ++ [PageCreated (next_id b) (geturl r); OnLoaded (next_id b)]
                ++ post
     ∧ loads (next_id b) pre = 0
     ∧ loads (next_id b) post = 0)
  ∧ gate is_logged nl (with_page parse cls m r (before_page SAVE_RESPONSES r b)) = false
  ∧ ∀ self : @Self PageCls Document World,
      run self BasePage_on_loaded = ret tt.
Proof.
  intros Hd Hrun.
  rewrite (change_location_found _ r nl b cls m Hd) in Hrun. cbv zeta in Hrun.
  destruct (before_page_adds r b) as (pre & Hpre & Hn & Hloads).
  destruct (gate is_logged nl (with_page parse cls m r (before_page SAVE_RESPONSES r b))) eqn:G.
  { pose proof (bind_raise_not_ok (B := unit)
                 (run (the_browser fuel) login) BrowserRetry
                 (add_event (Log DEBUG Relogin)
                    (with_page parse cls m r (before_page SAVE_RESPONSES r b)))) as Hno.
    rewrite Hrun in Hno. done. }
  split; [|done].
  set (b6 := add_event (OnLoaded (next_id (before_page SAVE_RESPONSES r b)))
               (with_page parse cls m r (before_page SAVE_RESPONSES r b))) in *.
  assert (Hstep : step_ok false b6 b').
  { replace b' with ((run (the_browser fuel) (on_loaded cls) ;; save_cookie)
                       b6).2 by (by rewrite Hrun).
    apply at_bind.
    - apply at_run; [|done]. by apply browser_ok.
    - intros _ b7 _. apply at_save_cookie. }
  destruct Hstep as (post & Hpost & _ & Hok).
  exists pre, post. repeat split.
  - rewrite Hpost. unfold b6. simpl. rewrite Hpre, Hn.
    by rewrite <- !app_assoc.
  - apply Hloads.
  - eapply loads_older; [|exact Hok]. unfold b6. simpl. lia.
Qed.

(** *** Logging in again *)

(** A [location] whose response goes to a page on which the gate is open
    (a password is set, [is_logged] is false) starts [login] once.  If
    [login] returns, [location] tests the page the login left: when there
    is none, or its URL is not the one asked for, [location] calls itself
    once with [no_login=True] and, unless that call raises
    [BrowserHTTPError] (which the decorator answers with a new attempt of
    the whole navigation), the outcome of that call is its own, the page it
    leaves being the current page; this call and the login start no further
    login when they pass the flag on.  When the login left the browser on a
    page of the URL asked for, [location] returns at once and that page
    stays. *)
Theorem relogin_retries_unless_on_target fuel url data b r0 w0 cls0 m0 b2 :
  flagged login → flagged home → (∀ cls, flagged (on_loaded cls)) →
  let t := target_of b (UrlStr url) in
  let b0 := set_world w0 (add_event (MechOpen t data) b) in
  let b1 := with_page parse cls0 m0 r0 (before_page SAVE_RESPONSES r0 b0) in
  mech_open t data (world b) = (Ok r0, w0) →
  dispatch PAGES dict_items re_match (geturl r0) = Some (cls0, m0) →
  gate is_logged false b1 = true →
  run (the_browser fuel) login (add_event (Log DEBUG Relogin) b1)
  = (Ok tt, b2) →
  relogins (trace b2) = S (relogins (trace b))
  ∧ (must_reload t b2 = true →
     ∀ out b3,
       self_location (the_browser fuel) t data true b2 = (out, b3) →
       out ≠ Raise BrowserHTTPError →
       loc (the_browser fuel) (UrlStr url) data false b = (out, b3)
       ∧ relogins (trace b3) = S (relogins (trace b)))
  ∧ (must_reload t b2 = false →
     loc (the_browser fuel) (UrlStr url) data false b = (Ok tt, b2)).
Proof.
  intros Hl Hh Ho t b0 b1 Hopen Hd Hgate Hlogin.
  assert (Hb : self_ok true (the_browser fuel))
    by (apply browser_ok; unfold proc_ok; auto).
  assert (Hcount : relogins (trace b2) = S (relogins (trace b))).
  { replace b2 with ((run (the_browser fuel) login
                        (add_event (Log DEBUG Relogin) b1)).2)
      by (by rewrite Hlogin).
    rewrite (step_ok_relogins _ _
               (at_run true _ login _ Hb (λ _, Hl))).
    simpl. rewrite !relogins_app.
    destruct (before_page_adds r0 b0) as (pre & Hpre & _ & _).
    assert (step_ok true b0 (before_page SAVE_RESPONSES r0 b0)) as Hs
      by apply step_ok_before_page.
    rewrite (step_ok_relogins _ _ Hs). unfold b0. simpl.
    rewrite relogins_app. unfold relogins. simpl. lia. }
  assert (Hbody : loc_body (the_browser fuel) t data false b
                  = (if must_reload t b2
                     then self_location (the_browser fuel) t data true b2
                     else (Ok tt, b2))).
  { unfold location_body, try_except.
    unfold bind at 1. rewrite call_mech_run, Hopen. simpl.
    fold b0. rewrite (change_location_found _ r0 false b0 cls0 m0 Hd).
    cbv zeta. fold b1. rewrite Hgate.
    unfold bind at 1. rewrite Hlogin. unfold raise.
    rewrite bind_get. unfold must_reload.
    destruct (page b2) as [p|]; [|done]. unfold url_differs, t. simpl.
    by destruct (bool_decide _). }
  split; [exact Hcount|]. split.
  - intros Hre out b3 Hnav Hout.
    split.
    + unfold location, check_location. fold t.
      apply retry_not_checked.
      * by rewrite Hbody, Hre.
      * intros e ->. unfold is_BrowserHTTPError.
        apply bool_decide_eq_false. congruence.
    + replace b3 with ((self_location (the_browser fuel) t data true b2).2)
        by (by rewrite Hnav).
      rewrite <- Hcount. apply step_ok_relogins. by apply Hb.
  - intros Hre. unfold location, check_location. fold t.
    apply retry_not_checked; [|done]. by rewrite Hbody, Hre.
Qed.

(** *** What every call keeps *)

Section Keeping.

(** A relation between states that the steps of the engine keep: it holds
    from a state to itself and along two runs in a row; setting the page,
    moving the transport, a plain event, the making of a page, the making
    of a page followed by the call of its hook, the start of a login of a
    browser that has a password, and the saving of a response all keep
    it. *)
Variable R : State → State → Prop.
Hypothesis R_refl : ∀ b, R b b.
Hypothesis R_trans : ∀ b1 b2 b3, R b1 b2 → R b2 b3 → R b1 b3.
Hypothesis R_page : ∀ p b, R b (set_page p b).
Hypothesis R_world : ∀ w b, R b (set_world w b).
Hypothesis R_made : ∀ cls m r b, R b (with_page parse cls m r b).
Hypothesis R_loaded :
  ∀ cls m r b,
    R b (add_event (OnLoaded (next_id b)) (with_page parse cls m r b)).
Hypothesis R_event : ∀ ev b, plain ev → R b (add_event ev b).
Hypothesis R_relogin :
  ∀ b : State, password b ≠ None → R b (add_event (Log DEBUG Relogin) b).
Hypothesis R_saved : ∀ r l b, R b (saved r l b).

Lemma keeps_ret {A} (b : State) (a : A) : keeps R b (ret a).
Proof. apply R_refl. Qed.

Lemma keeps_raise {A} (b : State) e : keeps R b (@raise _ _ _ A e).
Proof. apply R_refl. Qed.

Lemma keeps_diverge {A} (b : State) : keeps R b (@diverge _ _ _ A).
Proof. apply R_refl. Qed.

Lemma keeps_bind {A B} b (m : Method A) (k : A → Method B) :
  keeps R b m →
  (∀ a b1, m b = (Ok a, b1) → keeps R b1 (k a)) →
  keeps R b (bind m k).
Proof.
  unfold keeps, bind. intros Hm Hk.
  destruct (m b) as [[a| e |] b1] eqn:E; simpl in *; [|done..].
  eapply R_trans; [exact Hm|]. by apply Hk.
Qed.

Lemma keeps_try {A} b (m : Method A) handler :
  keeps R b m →
  (∀ e b1 h, m b = (Raise e, b1) → handler e = Some h → keeps R b1 h) →
  keeps R b (try_except m handler).
Proof.
  unfold keeps, try_except. intros Hm Hh.
  destruct (m b) as [[a| e |] b1] eqn:E; simpl in *; [done| |done].
  destruct (handler e) as [h|] eqn:Eh; [|done].
  eapply R_trans; [exact Hm|]. by eapply Hh.
Qed.

Lemma keeps_retry {A} check tries (f : Method A) b :
  (∀ b, keeps R b f) → keeps R b (retry check tries f).
Proof.
  intros Hf. revert b. induction tries as [|n IH]; intros b; simpl; [done|].
  destruct n; [done|].
  apply keeps_try; [done|]. intros e b1 h _ Hh.
  destruct (check e); [|done]. injection Hh as <-. apply IH.
Qed.

Lemma keeps_emit (b : State) ev : plain ev → keeps R b (emit ev).
Proof. intros. by apply R_event. Qed.

Lemma keeps_call_mech (b : State) ev f :
  plain ev → keeps R b (call_mech ev f).
Proof.
  intros Hev. unfold keeps. rewrite call_mech_run. simpl.
  eapply R_trans; [by apply R_event|]. apply R_world.
Qed.

Lemma keeps_save_response (b : State) r w : keeps R b (save_response r w).
Proof. apply (R_saved r (if w then WARNING else INFO) b). Qed.

Lemma keeps_save_cookie (b : State) : keeps R b save_cookie.
Proof.
  unfold save_cookie. apply keeps_bind; [apply keeps_ret|]. intros b0 b1 _.
  destruct (_cookie b0); [by apply keeps_emit | apply keeps_ret].
Qed.

Lemma keeps_run self p (b : State) :
  self_keeps R self → keeps R b (run self p).
Proof.
  intros (Hloc & Hsub & Hfol & Hopen).
  revert b. induction p as [| e | t data nl k IH | nl k IH | k IH
                            | t data f k IH | c k1 IH1 k2 IH2];
    intros b; simpl in *.
  - apply keeps_ret.
  - apply keeps_raise.
  - apply keeps_bind; [apply Hloc|]. intros _ b1 _. apply IH.
  - apply keeps_bind; [apply Hsub|]. intros _ b1 _. apply IH.
  - apply keeps_bind; [apply Hfol|]. intros _ b1 _. apply IH.
  - apply keeps_bind; [apply Hopen|]. intros _ b1 _. apply IH.
  - apply keeps_bind; [apply keeps_ret|]. intros b0 b1 _.
    destruct (c b0); [apply IH1 | apply IH2].
Qed.

Lemma kept_before_page (b : State) r : R b (before_page SAVE_RESPONSES r b).
Proof.
  unfold before_page.
  set (b1 := add_event (Log DEBUG (WentOn (username b) (geturl r))) b).
  assert (R b b1) as H1 by (by apply R_event).
  destruct SAVE_RESPONSES; [|done].
  eapply R_trans; [exact H1|]. apply (R_saved r INFO b1).
Qed.

Lemma gate_password nl (b : State) :
  gate is_logged nl b = true → password b ≠ None.
Proof.
  unfold gate. intros [[_ H]%andb_true_iff _]%andb_true_iff.
  by apply bool_decide_eq_true in H.
Qed.

Lemma keeps_change_location self r nl b :
  self_keeps R self → keeps R b (change_location self r nl).
Proof.
  intros Hself. unfold keeps.
  destruct (dispatch PAGES dict_items re_match (geturl r)) as [[cls m]|] eqn:Hd.
  2:{ rewrite change_location_not_found by done. simpl.
      set (b1 := set_page None b).
      set (b2 := add_event (Log WARNING (NoPageForURL (geturl r))) b1).
      apply R_trans with b1; [apply R_page|].
      apply R_trans with b2; [by apply R_event|].
      apply (R_saved r WARNING b2). }
  rewrite (change_location_found self r nl b cls m Hd). cbv zeta.
  pose proof (kept_before_page b r) as H0.
  set (b0 := before_page SAVE_RESPONSES r b) in *.
  eapply R_trans; [exact H0|].
  destruct (gate is_logged nl (with_page parse cls m r b0)) eqn:G.
  - rewrite bind_raise_snd.
    eapply R_trans; [apply (R_made cls m r b0)|].
    eapply R_trans; [apply R_relogin; by eapply gate_password|].
    by apply keeps_run.
  - eapply R_trans; [apply (R_loaded cls m r b0)|].
    apply keeps_bind; [by apply keeps_run|]. intros _ b2 _.
    apply keeps_save_cookie.
Qed.

Lemma keeps_location_body self t data nl b :
  self_keeps R self → keeps R b (loc_body self t data nl).
Proof.
  intros Hself. unfold location_body.
  apply keeps_try.
  - apply keeps_bind; [by apply keeps_call_mech|]. intros r b1 _.
    by apply keeps_change_location.
  - intros e b1 h _ Hh.
    destruct e; simpl in Hh; try discriminate; injection Hh as <-.
    + (* BrowserRetry *)
      apply keeps_bind; [apply keeps_ret|]. intros b2 b3 _.
      destruct (page b2) as [p|];
        [destruct (url_differs p t); [|apply keeps_ret]|];
        by apply Hself.
    + apply keeps_bind; [apply R_page|]. intros. apply keeps_raise.
    + apply keeps_bind; [apply R_page|]. intros. apply keeps_raise.
    + apply keeps_bind; [apply R_page|]. intros. apply keeps_raise.
    + apply keeps_bind; [apply R_page|]. intros. apply keeps_raise.
    + (* BrowserStateError *)
      apply keeps_bind; [by apply keeps_run|]. intros _ b2 _. by apply Hself.
Qed.

Lemma keeps_location self t data nl b :
  self_keeps R self → keeps R b (loc self t data nl).
Proof.
  intros Hself. unfold location, check_location.
  apply keeps_retry. intros b'. by apply keeps_location_body.
Qed.

Lemma keeps_submit self nl b :
  self_keeps R self → keeps R b (sub self nl).
Proof.
  intros Hself. unfold submit.
  apply keeps_try.
  - apply keeps_bind; [by apply keeps_call_mech|]. intros r b1 _.
    by apply keeps_change_location.
  - intros e b1 h _ Hh.
    destruct e; simpl in Hh; try discriminate; injection Hh as <-;
      first [ apply keeps_raise
            | apply keeps_bind; [apply R_page|]; intros; apply keeps_raise ].
Qed.

Lemma keeps_follow_link self b :
  self_keeps R self → keeps R b (follow self).
Proof.
  intros Hself. unfold follow_link.
  apply keeps_try.
  - apply keeps_bind; [by apply keeps_call_mech|]. intros r b1 _.
    by apply keeps_change_location.
  - intros e b1 h _ Hh.
    destruct e; simpl in Hh; try discriminate; injection Hh as <-;
      first [ apply keeps_bind; [apply R_page|]; intros; apply keeps_raise
            | apply keeps_bind; [by apply keeps_run|]; intros;
              apply keeps_raise ].
Qed.

Lemma keeps_openurl self t data f b :
  self_keeps R self → keeps R b (open_url self t data f).
Proof.
  intros Hself. unfold openurl, check_location.
  apply keeps_retry. intros b'.
  apply keeps_bind; [by apply keeps_emit|]. intros _ b1 _.
  apply keeps_try.
  - apply keeps_bind; [by apply keeps_call_mech|]. intros. apply keeps_ret.
  - intros e b2 h _ Hh.
    destruct e; simpl in Hh; try discriminate; injection Hh as <-;
      first [ destruct f; [apply keeps_raise | apply keeps_ret]
            | apply keeps_bind; [by apply keeps_run|]; intros;
              apply keeps_bind; [by apply keeps_call_mech|]; intros;
              apply keeps_ret ].
Qed.

(** Every method of the browser keeps such a relation, however deep the
    calls nest. *)
Lemma browser_keeps fuel : self_keeps R (the_browser fuel).
Proof.
  induction fuel as [|n IH]; simpl.
  - repeat split; intros; apply keeps_diverge.
  - repeat split; intros.
    + by apply keeps_location.
    + by apply keeps_submit.
    + by apply keeps_follow_link.
    + by apply keeps_openurl.
Qed.

End Keeping.

(** *** The files of the responses *)

Lemma written_app tr1 tr2 : written (tr1 ++ tr2) = written tr1 ++ written tr2.
Proof. unfold written. apply omap_app. Qed.

Lemma files_kept_refl (b : State) : files_kept b b.
Proof.
  exists []. rewrite app_nil_r, Nat.sub_diag. done.
Qed.

Lemma files_kept_trans (b1 b2 b3 : State) :
  files_kept b1 b2 → files_kept b2 b3 → files_kept b1 b3.
Proof.
  intros (e1 & Ht1 & Hc1 & Hw1) (e2 & Ht2 & Hc2 & Hw2).
  exists (e1 ++ e2). split; [by rewrite Ht2, Ht1, app_assoc|].
  split; [lia|]. rewrite written_app, Hw1, Hw2.
  replace (responses_count b3 - responses_count b1)
    with ((responses_count b2 - responses_count b1)
          + (responses_count b3 - responses_count b2)) by lia.
  rewrite seq_app. do 2 f_equal. lia.
Qed.

Lemma files_kept_same (b b' : State) :
  trace b' = trace b → responses_count b' = responses_count b →
  files_kept b b'.
Proof.
  intros Ht Hc. exists []. rewrite app_nil_r, Hc, Nat.sub_diag. done.
Qed.

Lemma files_kept_event (b : State) ev :
  written [ev] = [] → files_kept b (add_event ev b).
Proof.
  intros Hp. exists [ev]. simpl. rewrite Nat.sub_diag.
  split; [done|]. split; [done|]. exact Hp.
Qed.

(** Whatever a module calls, in whatever order and however deep the calls
    nest (a login in a page load in a login ...), the log only grows, the
    counter of the saved responses never goes back, and the files written
    during the calls bear the numbers from the counter before up to the
    counter after, each once and in this order: no call writes over a
    response saved before. *)
Theorem saved_files_numbered (fuel : nat) (p : Proc) (b : State) :
  let b' := (run (the_browser fuel) p b).2 in
  ∃ ext, trace b' = trace b ++ ext
         ∧ responses_count b ≤ responses_count b'
         ∧ written ext
           = seq (responses_count b) (responses_count b' - responses_count b).
Proof.
  apply (keeps_run files_kept files_kept_refl files_kept_trans).
  apply browser_keeps.
  - apply files_kept_refl.
  - apply files_kept_trans.
  - intros. by apply files_kept_same.
  - intros. by apply files_kept_same.
  - intros cls m r b0. exists [PageCreated (next_id b0) (geturl r)].
    simpl. by rewrite Nat.sub_diag.
  - intros cls m r b0.
    exists [PageCreated (next_id b0) (geturl r); OnLoaded (next_id b0)].
    simpl. by rewrite <- app_assoc, Nat.sub_diag.
  - intros ev b0 Hev. apply files_kept_event. by destruct ev.
  - intros. by apply files_kept_event.
  - intros r l b0. unfold saved.
    exists [FileWritten (responses_count b0) r;
            Log l (ResponseSavedTo (responses_count b0))].
    simpl. rewrite <- app_assoc. split; [done|]. split; [lia|].
    replace (S (responses_count b0) - responses_count b0) with 1 by lia.
    done.
Qed.

(** *** A browser without a password *)

Lemma no_login_kept_event (b : State) ev :
  ev ≠ Log DEBUG Relogin → no_login_kept b (add_event ev b).
Proof.
  intros Hev Hp. split; [done|]. simpl. rewrite relogins_app.
  unfold relogins at 2. rewrite list.filter_cons.
  destruct (decide (ev = Log DEBUG Relogin)); [done|]. simpl. lia.
Qed.

(** "If it is [None], Browser will not try to login": from a browser whose
    password is [None], whatever a module calls and whatever [is_logged]
    answers, no call starts a login, and the password stays [None]. *)
Theorem no_password_no_login (fuel : nat) (p : Proc) (b : State) :
  password b = None →
  let b' := (run (the_browser fuel) p b).2 in
  password b' = None ∧ relogins (trace b') = relogins (trace b).
Proof.
  apply (keeps_run no_login_kept).
  - intros b0. done.
  - intros b1 b2 b3 H12 H23 Hp. destruct (H12 Hp) as [Hp2 E2].
    destruct (H23 Hp2) as [Hp3 E3]. split; [done|]. congruence.
  - apply browser_keeps.
    + intros b0. done.
    + intros b1 b2 b3 H12 H23 Hp. destruct (H12 Hp) as [Hp2 E2].
      destruct (H23 Hp2) as [Hp3 E3]. split; [done|]. congruence.
    + intros p0 b0 Hp. done.
    + intros w b0 Hp. done.
    + intros cls m r b0 Hp. split; [done|]. simpl.
      rewrite relogins_app. unfold relogins at 2. simpl. lia.
    + intros cls m r b0 Hp. split; [done|]. simpl.
      rewrite <- app_assoc, relogins_app. unfold relogins at 2. simpl. lia.
    + intros ev b0 Hev. apply no_login_kept_event. by intros ->.
    + intros b0 Hne Hp. done.
    + intros r l b0 Hp. split; [done|]. unfold saved. simpl.
      rewrite <- app_assoc, relogins_app. unfold relogins at 2. simpl.
      rewrite list.filter_cons. destruct (decide _); [done|].
      rewrite list.filter_cons. destruct (decide _); [|simpl; lia].
      destruct l; done.
Qed.

(** *** Absolute URLs *)

Lemma startswith_slash_app (p s : string) :
  startswith_slash p = false →
  startswith_slash (p +:+ String ":" s) = false.
Proof. destruct p as [|a p]; simpl; [done|]. by destruct p. Qed.

(** A relative path given to [location] and the absolute URL [absurl]
    makes of it lead to the same call of mechanize, with the same outcome,
    as long as the browser is not on the site yet (no request, or one to
    another host) and the protocol is a word, not a path: [check_location]
    completes the one as [absurl] does, and leaves the other as it is. *)
Theorem location_of_absurl self (rel abs : string) data nl (b : State) :
  startswith_slash PROTOCOL = false →
  match world_request (world b) with
  | None => True
  | Some r => host r ≠ DOMAIN
  end →
  absurl PROTOCOL DOMAIN (Some rel) = Some abs →
  loc self (UrlStr abs) data nl b
  = loc self (UrlStr (if startswith_slash rel then rel else "/" +:+ rel))
      data nl b.
Proof.
  intros Hproto Hreq [= <-].
  set (rel' := if startswith_slash rel then rel else "/" +:+ rel).
  assert (Hrel : startswith_slash rel' = true).
  { unfold rel'. destruct (startswith_slash rel) eqn:E; done. }
  unfold location, check_location. f_equal.
  unfold check_location_target, check_location_url. f_equal.
  rewrite Hrel.
  assert (startswith_slash (PROTOCOL +:+ "://" +:+ fmt DOMAIN +:+ rel') = false)
    as -> by (by apply startswith_slash_app).
  simpl.
  destruct (world_request (world b)) as [r|]; [|done].
  by rewrite bool_decide_eq_true_2.
Qed.

(** *** Reading a URL *)

Lemma openurl_transport self t data f (b : State) e w :
  mech_open_novisit (target_of b t) data (world b) = (Raise e, w) →
  is_transport_error e = true →
  (f = true → get_exception e ≠ BrowserHTTPError) →
  open_url self t data f b
  = (if f then Raise (get_exception e) else Ok None,
     set_world w
       (add_event (MechOpenNovisit (target_of b t) data)
          (add_event (Log DEBUG (OpeningURL (target_of b t))) b))).
Proof.
  intros Ho He Hf. unfold openurl, check_location.
  apply retry_not_checked.
  - rewrite bind_emit. unfold try_except, bind.
    rewrite call_mech_run. simpl. rewrite Ho. simpl.
    destruct e; try done; by destruct f.
  - intros e' E. destruct f; [|done]. injection E as <-.
    unfold is_BrowserHTTPError. apply bool_decide_eq_false. by apply Hf.
Qed.

Lemma openurl_opened self t data f (b : State) r w :
  mech_open_novisit (target_of b t) data (world b) = (Ok r, w) →
  open_url self t data f b
  = (Ok (Some r),
     set_world w
       (add_event (MechOpenNovisit (target_of b t) data)
          (add_event (Log DEBUG (OpeningURL (target_of b t))) b))).
Proof.
  intros Ho. unfold openurl, check_location.
  apply retry_not_checked; [|done].
  rewrite bind_emit. unfold try_except, bind.
  rewrite call_mech_run. simpl. by rewrite Ho.
Qed.

(** [readurl], called without [if_fail], on a transport that fails (an
    HTTP error, a URL error, a bad status line): the method returns [None]
    and raises nothing, after one attempt; the page stays the current page
    and no file is written. *)
Theorem readurl_failure_is_None (fuel : nat) t data (b : State) e w :
  mech_open_novisit (target_of b t) data (world b) = (Raise e, w) →
  is_transport_error e = true →
  readurl SAVE_RESPONSES (the_browser (S fuel)) t data false b
  = (Ok None,
     set_world w
       (add_event (MechOpenNovisit (target_of b t) data)
          (add_event (Log DEBUG (OpeningURL (target_of b t))) b)))
  ∧ page (readurl SAVE_RESPONSES (the_browser (S fuel)) t data false b).2
    = page b.
Proof.
  intros Ho He.
  assert (E : readurl SAVE_RESPONSES (the_browser (S fuel)) t data false b
              = (Ok None,
                 set_world w
                   (add_event (MechOpenNovisit (target_of b t) data)
                      (add_event (Log DEBUG (OpeningURL (target_of b t))) b)))).
  { unfold readurl, bind. simpl self_openurl.
    by rewrite (openurl_transport _ t data false b e w Ho He). }
  split; [exact E|]. by rewrite E.
Qed.

(** [readurl] on a transport that answers returns the body of the
    response; it makes no page, and the page that was current stays; the
    response is saved, under the next number, when [SAVE_RESPONSES] is
    set, and only then. *)
Theorem readurl_returns_body (fuel : nat) t data f (b : State) r w :
  mech_open_novisit (target_of b t) data (world b) = (Ok r, w) →
  let b1 := set_world w
              (add_event (MechOpenNovisit (target_of b t) data)
                 (add_event (Log DEBUG (OpeningURL (target_of b t))) b)) in
  readurl SAVE_RESPONSES (the_browser (S fuel)) t data f b
  = (Ok (Some (read r)), if SAVE_RESPONSES then saved r INFO b1 else b1)
  ∧ page (readurl SAVE_RESPONSES (the_browser (S fuel)) t data f b).2 = page b
  ∧ next_id (readurl SAVE_RESPONSES (the_browser (S fuel)) t data f b).2
    = next_id b.
Proof.
  intros Ho b1.
  assert (E : readurl SAVE_RESPONSES (the_browser (S fuel)) t data f b
              = (Ok (Some (read r)),
                 if SAVE_RESPONSES then saved r INFO b1 else b1)).
  { unfold readurl, bind. simpl self_openurl.
    rewrite (openurl_opened _ t data f b r w Ho). fold b1.
    by destruct SAVE_RESPONSES. }
  rewrite E. by destruct SAVE_RESPONSES.
Qed.

(** [openurl] with [if_fail='raise'] on a URL that is not found (HTTP 404):
    [BrowserHTTPNotFound] is raised after one attempt, since the decorator
    tries again on [BrowserHTTPError] only; any other failure of the
    transport is followed by a second attempt, whose response, if there is
    one, is returned. *)
Theorem openurl_not_found_once self t data (b : State) :
  let t' := target_of b t in
  let attempt (w : World) (b0 : State) : State :=
    set_world w (add_event (MechOpenNovisit t' data)
                   (add_event (Log DEBUG (OpeningURL t')) b0)) in
  (∀ w, mech_open_novisit t' data (world b) = (Raise (HTTPError 404), w) →
        open_url self t data true b
        = (Raise BrowserHTTPNotFound, attempt w b))
  ∧ (∀ e w1 r w2,
       mech_open_novisit t' data (world b) = (Raise e, w1) →
       is_transport_error e = true → e ≠ HTTPError 404 →
       mech_open_novisit t' data w1 = (Ok r, w2) →
       open_url self t data true b
       = (Ok (Some r), attempt w2 (attempt w1 b))).
Proof.
  intros t' attempt. split.
  - intros w Ho.
    by rewrite (openurl_transport self t data true b (HTTPError 404) w Ho).
  - intros e w1 r w2 Ho1 He Hne Ho2.
    unfold openurl, check_location. fold t'.
    change (retry is_BrowserHTTPError 3 ?f)
      with (try_except f (λ e0, if is_BrowserHTTPError e0
                                then Some (retry is_BrowserHTTPError 2 f)
                                else None)).
    unfold try_except at 1.
    rewrite bind_emit. unfold try_except at 1, bind at 1.
    rewrite call_mech_run. simpl. rewrite Ho1. simpl.
    assert (Hg : get_exception e = BrowserHTTPError).
    { destruct e; try done. simpl.
      destruct code as [|[]|]; try done.
      repeat (match goal with
              | |- context [match ?p with _ => _ end] => destruct p
              end; try done). }
    assert (Hraise :
      (match e with
       | BrowserStateError | BrowserRetry => Some (
           run self home ;;
           r <- call_mech (MechOpen t' data) (mech_open t' data) ;;
           ret (Some r))
       | _ =>
           if is_transport_error e
           then Some (if true then raise (get_exception e) else ret None)
           else None
       end) = Some (raise BrowserHTTPError)).
    { rewrite <- Hg. by destruct e. }
    rewrite Hraise. unfold raise at 1. simpl.
    change (retry is_BrowserHTTPError 2 ?f)
      with (try_except f (λ e0, if is_BrowserHTTPError e0
                                then Some (retry is_BrowserHTTPError 1 f)
                                else None)).
    unfold try_except at 1.
    rewrite bind_emit. unfold try_except at 1, bind at 1.
    rewrite call_mech_run. simpl. rewrite Ho2. done.
Qed.

(** *** Following a link, submitting a form *)

(** [follow_link] on a transport that fails sets the page to [None] and
    raises the error [get_exception] makes of the failure; on a mechanize
    state error it goes home and, once back, raises [BrowserUnavailable]. *)
Theorem follow_link_failure self (b : State) :
  (∀ e w,
     mech_follow_link (world b) = (Raise e, w) →
     is_transport_error e = true →
     follow self b
     = (Raise (get_exception e),
        set_page None (set_world w (add_event MechFollowLink b))))
  ∧ (∀ w b2,
       mech_follow_link (world b) = (Raise BrowserStateError, w) →
       run self home (set_world w (add_event MechFollowLink b)) = (Ok tt, b2) →
       follow self b = (Raise BrowserUnavailable, b2)).
Proof.
  split.
  - intros e w Ho He. unfold follow_link, try_except, bind.
    rewrite call_mech_run, Ho. simpl. by destruct e.
  - intros w b2 Ho Hh. unfold follow_link, try_except.
    unfold bind at 1. rewrite call_mech_run, Ho. simpl.
    unfold bind. by rewrite Hh.
Qed.

(** What [submit] raises is never an error of the transport as mechanize
    raised it, a mechanize state error or a [BrowserRetry]: these leave
    the method as [BrowserHTTPNotFound], [BrowserHTTPError] or
    [BrowserUnavailable]. *)
Theorem submit_raises_browser_errors self nl (b b' : State) e :
  sub self nl b = (Raise e, b') →
  is_transport_error e = false ∧ e ≠ BrowserStateError ∧ e ≠ BrowserRetry.
Proof.
  unfold submit, try_except.
  destruct ((result <- call_mech MechSubmit mech_submit ;;
             change_location self result nl) b) as [[a|e0|] b1]; try done.
  destruct e0; simpl; unfold raise, bind, modify;
    intros [= <- _]; try done.
  simpl. destruct code as [|[]|]; try done;
    repeat (match goal with
            | |- context [match ?p with _ => _ end] => destruct p
            end; try done).
Qed.

(** A form whose response comes from a page on which the gate is open (a
    password is set, [is_logged] is false, the call has no flag): [submit]
    logs in, and when the login returns it raises [BrowserUnavailable]; the
    form is not submitted again, and the hook of the page is not called. *)
Theorem submit_after_login_is_unavailable self (b : State) r w cls m b2 :
  mech_submit (world b) = (Ok r, w) →
  dispatch PAGES dict_items re_match (geturl r) = Some (cls, m) →
  let b1 := with_page parse cls m r
              (before_page SAVE_RESPONSES r
                 (set_world w (add_event MechSubmit b))) in
  gate is_logged false b1 = true →
  run self login (add_event (Log DEBUG Relogin) b1) = (Ok tt, b2) →
  sub self false b = (Raise BrowserUnavailable, b2).
Proof.
  intros Ho Hd b1 Hg Hl. unfold submit, try_except.
  unfold bind at 1. rewrite call_mech_run, Ho. simpl.
  rewrite (change_location_found self r false _ cls m Hd). cbv zeta.
  fold b1. rewrite Hg. unfold bind. by rewrite Hl.
Qed.

(** *** A site that is down *)

Lemma location_down self t data nl (b : State) :
  (∀ w, ∃ e w', mech_open (target_of b t) data w = (Raise e, w')
                ∧ is_transport_error e = true) →
  ∃ e b', loc self t data nl b = (Raise (get_exception e), b')
          ∧ is_transport_error e = true
          ∧ page b' = None.
Proof.
  intros Hdown. unfold location, check_location.
  remember (target_of b t) as t' eqn:Et. clear Et.
  assert (Hbody : ∀ b0, ∃ e b', loc_body self t' data nl b0
                                = (Raise (get_exception e), b')
                                ∧ is_transport_error e = true
                                ∧ page b' = None).
  { intros b0. destruct (Hdown (world b0)) as (e & w' & Ho & He).
    exists e, (set_page None
                 (set_world w' (add_event (MechOpen t' data) b0))).
    split; [by apply location_body_down | done]. }
  generalize 3. intros tries. revert b.
  induction tries as [|n IH]; intros b; simpl; [apply Hbody|].
  destruct n; [apply Hbody|].
  unfold try_except at 1.
  destruct (Hbody b) as (e & b' & -> & He & Hp).
  destruct (is_BrowserHTTPError (get_exception e)); [apply IH|].
  by exists e, b'.
Qed.

(** *** The hook of a page, over a whole run *)

Lemma loaded_app tr1 tr2 : loaded (tr1 ++ tr2) = loaded tr1 ++ loaded tr2.
Proof. unfold loaded. apply omap_app. Qed.

Lemma hooks_kept_refl (b : State) : hooks_kept b b.
Proof.
  exists []. rewrite app_nil_r. repeat split; [lia|constructor|constructor].
Qed.

Lemma hooks_kept_trans (b1 b2 b3 : State) :
  hooks_kept b1 b2 → hooks_kept b2 b3 → hooks_kept b1 b3.
Proof.
  intros (e1 & Ht1 & Hn1 & Hd1 & Hr1) (e2 & Ht2 & Hn2 & Hd2 & Hr2).
  exists (e1 ++ e2). split; [by rewrite Ht2, Ht1, app_assoc|].
  split; [lia|]. rewrite loaded_app. split.
  - apply list.NoDup_app. split; [done|]. split; [|done].
    intros i Hi1 Hi2.
    rewrite list.Forall_forall in Hr1, Hr2.
    specialize (Hr1 i Hi1). specialize (Hr2 i Hi2). lia.
  - apply Forall_app. split.
    + eapply list.Forall_impl; [exact Hr1|]. simpl. intros; lia.
    + eapply list.Forall_impl; [exact Hr2|]. simpl. intros; lia.
Qed.

Lemma hooks_kept_same (b b' : State) :
  trace b' = trace b → next_id b' = next_id b → hooks_kept b b'.
Proof.
  intros Ht Hn. exists []. rewrite app_nil_r, Hn.
  repeat split; [done|lia|constructor|constructor].
Qed.

Lemma hooks_kept_event (b : State) ev :
  loaded [ev] = [] → hooks_kept b (add_event ev b).
Proof.
  intros Hev. exists [ev]. rewrite Hev.
  repeat split; [simpl; lia|constructor|constructor].
Qed.

Lemma loads_loaded id tr :
  loads id tr = length (filter (λ i, i = id) (loaded tr)).
Proof.
  unfold loads, loaded. induction tr as [|ev tr IH]; [done|].
  rewrite list.filter_cons.
  destruct (decide (ev = OnLoaded id)) as [-> | Hne].
  - simpl. rewrite list.filter_cons, decide_True by done. simpl. by rewrite IH.
  - rewrite IH. destruct ev; simpl; try done.
    rewrite list.filter_cons, decide_False; [done|]. congruence.
Qed.

Lemma filter_absent (id : nat) l : id ∉ l → filter (λ i, i = id) l = [].
Proof.
  induction l as [|x l IH]; [done|]. intros Hx.
  apply not_elem_of_cons in Hx as [Hne Hx].
  rewrite list.filter_cons, decide_False by done. by apply IH.
Qed.

Lemma NoDup_filter_length (id : nat) l :
  NoDup l → length (filter (λ i, i = id) l) ≤ 1.
Proof.
  induction 1 as [|x l Hx Hl IH]; [simpl; lia|].
  rewrite list.filter_cons. destruct (decide (x = id)) as [-> | Hne]; [|done].
  simpl. rewrite (filter_absent id l Hx). simpl. lia.
Qed.

(** Whatever a module calls, in whatever order and however deep the calls
    nest, the hook [on_loaded] is called at most once on each page object,
    and never on a page that was there before the calls: a page that was
    loaded is not loaded again. *)
Theorem on_loaded_never_twice (fuel : nat) (p : Proc) (b : State) :
  let b' := (run (the_browser fuel) p b).2 in
  ∃ ext, trace b' = trace b ++ ext
         ∧ ∀ id, loads id ext ≤ 1 ∧ (id < next_id b → loads id ext = 0).
Proof.
  assert (H : hooks_kept b (run (the_browser fuel) p b).2).
  { apply (keeps_run hooks_kept hooks_kept_refl hooks_kept_trans).
    apply browser_keeps.
    - apply hooks_kept_refl.
    - apply hooks_kept_trans.
    - intros. by apply hooks_kept_same.
    - intros. by apply hooks_kept_same.
    - intros cls m r b0. exists [PageCreated (next_id b0) (geturl r)].
      repeat split; [simpl; lia|constructor|constructor].
    - intros cls m r b0.
      exists [PageCreated (next_id b0) (geturl r); OnLoaded (next_id b0)].
      simpl. rewrite <- app_assoc.
      repeat split; [lia|apply NoDup_singleton|].
      constructor; [lia|constructor].
    - intros ev b0 Hev. apply hooks_kept_event. by destruct ev.
    - intros. by apply hooks_kept_event.
    - intros r l b0. unfold saved.
      exists [FileWritten (responses_count b0) r;
              Log l (ResponseSavedTo (responses_count b0))].
      simpl. rewrite <- app_assoc.
      repeat split; [lia|constructor|constructor]. }
  destruct H as (ext & Ht & Hn & Hd & Hr).
  exists ext. split; [exact Ht|]. intros id. rewrite loads_loaded. split.
  - by apply NoDup_filter_length.
  - intros Hid. rewrite filter_absent; [done|].
    intros Hin. rewrite list.Forall_forall in Hr. specialize (Hr id Hin). lia.
Qed.

(** *** The page a navigation leaves *)

(** A navigation that is answered, whose response has a URL of the table,
    with the gate closed and a page class that keeps the hook of
    [BasePage]: [location] returns, and the current page is a new object of
    the class found, built on the parsed response, with the URL of the
    response (after redirections, not the one asked for) and the groups of
    the match. *)
Theorem location_makes_page self t data nl (b : State) r w cls m :
  mech_open (target_of b t) data (world b) = (Ok r, w) →
  dispatch PAGES dict_items re_match (geturl r) = Some (cls, m) →
  let b0 := before_page SAVE_RESPONSES r
              (set_world w (add_event (MechOpen (target_of b t) data) b)) in
  gate is_logged nl (with_page parse cls m r b0) = false →
  on_loaded cls = BasePage_on_loaded →
  ∃ b', loc self t data nl b = (Ok tt, b')
        ∧ page b'
          = Some (mkPage (next_id b) cls (parse r) (geturl r)
                    (m_groups m) (m_groupdict m))
        ∧ next_id b' = S (next_id b).
Proof.
  intros Ho Hd b0 Hg Hhook.
  assert (Hn : next_id b0 = next_id b).
  { unfold b0, before_page. by destruct SAVE_RESPONSES. }
  set (b1 := add_event (OnLoaded (next_id b0)) (with_page parse cls m r b0)).
  exists (if _cookie b1 then add_event CookieSaved b1 else b1). split.
  - unfold location, check_location.
    apply retry_not_checked; [|done].
    unfold location_body, try_except.
    unfold bind at 1. rewrite call_mech_run, Ho. simpl.
    rewrite (change_location_found self r nl _ cls m Hd). cbv zeta.
    fold b0. rewrite Hg, Hhook. unfold BasePage_on_loaded. simpl run.
    rewrite bind_ret. unfold save_cookie. rewrite bind_get. fold b1.
    change (_cookie b1) with (_cookie b0).
    by destruct (_cookie b0).
  - rewrite <- Hn. change (_cookie b1) with (_cookie b0).
    by destruct (_cookie b0).
Qed.

End Runs.

(** The login of the bank that posts the password with the flag: no login
    starts while it runs. *)
Lemma flagged_calls_start_no_login_witness :
  relogins
    (trace (run (Bank.bank Bank.PAGES Bank.login_post Bank.is_logged_by_page
                           Bank.home_pass 3)
                Bank.login_post Bank.start).2)
  = 0.
Proof.
  refine (proj1 (flagged_calls_start_no_login
                   "http" (Some "bank") Bank.PAGES false Bank.dict_items Regex.re_match
                   Bank.parse Bank.serve Bank.serve Bank.serve_submit
                   Bank.serve_link Bank.request Bank.login_post
                   Bank.is_logged_by_page Bank.home_pass
                   (λ _, BasePage_on_loaded) 3 Bank.start _ _ _)).
  - simpl. auto.
  - exact I.
  - intros _. exact I.
Defined.

(** C4, as the spec has it, fails: a login that goes to the login page
    without the flag starts a login from inside the login, and so on as deep
    as the calls may nest. *)
Lemma unflagged_login_nests :
  let self := Bank.bank Bank.PAGES Bank.login_visit_unflagged
                        Bank.is_logged_by_page Bank.home_base 3 in
  relogins (trace Bank.start) = 0
  ∧ relogins (trace (run self Bank.login_visit_unflagged Bank.start).2) = 3.
Proof. vm_compute. done. Qed.

(** ** The bank *)

(** A URL of the bank that is not in its table: [location] returns, and
    there is no page. *)
Lemma unmatched_url_returns_without_page_witness :
  let self := Bank.bank Bank.PAGES Bank.login_post Bank.is_logged_by_page
                        Bank.home_base 1 in
  let out := self_location self (UrlStr "http://bank/other") None false
                           Bank.at_home in
  out.1 = Ok tt ∧ page out.2 = None.
Proof.
  intros self out.
  destruct (unmatched_url_returns_without_page
              "http" (Some "bank") Bank.PAGES false Bank.dict_items Regex.re_match Bank.parse
              Bank.serve Bank.serve_submit Bank.serve_link Bank.request
              Bank.login_post Bank.is_logged_by_page Bank.home_base
              (λ _, BasePage_on_loaded)
              (Bank.bank Bank.PAGES Bank.login_post Bank.is_logged_by_page
                         Bank.home_base 0)
              (Bank.respond "http://bank/other") eq_refl)
    as (_ & Hloc & _).
  specialize (Hloc (UrlStr "http://bank/other") None false Bank.at_home
                   _ eq_refl).
  split; [exact (f_equal fst Hloc) | exact (f_equal (λ x, page x.2) Hloc)].
Defined.

(** C2, as the spec has it, fails: the navigation to a URL that is not in
    the table raises nothing. *)
Lemma unmatched_url_is_no_failure :
  ¬ (∀ (t : Target) (data : option string) (b : Bank.State) r w,
       Bank.serve (check_location_target "http" (Some "bank") Bank.request b t)
                  data (world b) = (Ok r, w) →
       dispatch Bank.PAGES Bank.dict_items Regex.re_match (geturl r) = None →
       ∃ e, (self_location
               (Bank.bank Bank.PAGES Bank.login_post Bank.is_logged_by_page
                          Bank.home_base 1) t data false b).1 = Raise e).
Proof.
  intros H.
  destruct (H (UrlStr "http://bank/other") None Bank.at_home _ _
              eq_refl eq_refl) as [e He].
  vm_compute in He. discriminate He.
Qed.

(** A page of the bank that cannot be reached: after three attempts
    [location] raises, and the home page the browser was on is gone. *)
Lemma transport_failure_clears_page_witness :
  let self := Bank.bank Bank.PAGES Bank.login_post Bank.is_logged_by_page
                        Bank.home_base 1 in
  page Bank.at_home ≠ None
  ∧ ∃ e b',
      self_location self (UrlStr "http://bank/down") None false Bank.at_home
      = (Raise (get_exception e), b')
      ∧ is_transport_error e = true
      ∧ page b' = None.
Proof.
  intros self. split; [discriminate|].
  apply (proj2 (proj2 (transport_failure_clears_page
                         "http" (Some "bank") Bank.PAGES false Bank.dict_items Regex.re_match
                         Bank.parse Bank.serve Bank.serve_submit Bank.request
                         Bank.login_post Bank.is_logged_by_page Bank.home_base
                         (λ _, BasePage_on_loaded)
                         (Bank.bank Bank.PAGES Bank.login_post
                                    Bank.is_logged_by_page Bank.home_base 0)))
               (UrlStr "http://bank/down") None false Bank.at_home).
  intros w. exists URLError, w. split; reflexivity.
Defined.

(** The home page of the bank, loaded by a visitor with a session. *)
Lemma on_loaded_once_after_construction_witness :
  let self := Bank.bank Bank.PAGES Bank.login_post Bank.is_logged_by_session
                        Bank.home_base 1 in
  let r := Bank.respond "http://bank/home" in
  let b' := (_change_location Bank.PAGES false Bank.dict_items Regex.re_match Bank.parse
               Bank.login_post Bank.is_logged_by_session
               (λ _, BasePage_on_loaded) self r false Bank.at_home).2 in
  ∃ pre post,
    trace b' = trace Bank.at_home ++ pre
               ++ [PageCreated 1 "http://bank/home"; OnLoaded 1] ++ post
    ∧ loads 1 pre = 0 ∧ loads 1 post = 0.
Proof.
  intros self r b'.
  refine (proj1 (on_loaded_once_after_construction
                   "http" (Some "bank") Bank.PAGES false Bank.dict_items Regex.re_match
                   Bank.parse Bank.serve Bank.serve Bank.serve_submit
                   Bank.serve_link Bank.request Bank.login_post
                   Bank.is_logged_by_session Bank.home_base
                   (λ _, BasePage_on_loaded) 1 r false Bank.at_home b'
                   Bank.HomePage (mkMatch [] []) _ _)); reflexivity.
Defined.

(** C8 at a login that loads no page.  The docstring of [location] has the
    page object created, "then the [on_loaded] method of this object is
    called", and the page reloaded after a login.  Here the gate is open on
    the page [location] has made, so [_change_location] calls [login] in
    the place of the hook; the login posts the password with [openurl] and
    loads no page; and as the page has the URL asked for, [location] does
    not load it again.  It returns normally with that page as the current
    page: the page was made once, in the one navigation to its URL, and
    its hook was never called. *)
Lemma page_handed_back_unloaded :
  let self := Bank.bank Bank.PAGES Bank.login_openurl
                        Bank.is_logged_by_session Bank.home_base 2 in
  let out := self_location self (UrlStr "http://bank/home") None false
                           Bank.start in
  out.1 = Ok tt
  ∧ (∃ p, page out.2 = Some p ∧ page_id p = 0)
  ∧ PageCreated 0 "http://bank/home" ∈ trace out.2
  ∧ loads 0 (trace out.2) = 0
  ∧ relogins (trace out.2) = 1
  ∧ opens (UrlStr "http://bank/home") None (trace out.2) = 1.
Proof.
  vm_compute. repeat split.
  - eexists. split; reflexivity.
  - apply list_elem_of_In. simpl. auto.
Qed.

(** The accounts of the bank, asked for without a session: the site answers
    with the login page, the login posts the password and lands on the
    home page, and [location] loads the accounts again, once. *)
Lemma relogin_retries_unless_on_target_witness :
  let self := Bank.bank Bank.PAGES Bank.login_post Bank.is_logged_by_page
                        Bank.home_pass 2 in
  let out := self_location self (UrlStr "http://bank/accounts") None false
                           Bank.start in
  out.1 = Ok tt
  ∧ relogins (trace out.2) = 1
  ∧ (page_cls <$> page out.2) = Some Bank.AccountsPage.
Proof.
  intros self out.
  pose (self1 := Bank.bank Bank.PAGES Bank.login_post Bank.is_logged_by_page
                           Bank.home_pass 1).
  pose (t := UrlStr "http://bank/accounts").
  pose (r0 := Bank.respond "http://bank/login").
  pose (b0 := set_world (Bank.on_bank (world Bank.start))
                (add_event (MechOpen t None) Bank.start)).
  pose (b1 := with_page Bank.parse Bank.LoginPage (mkMatch [] []) r0
                (before_page false r0 b0)).
  pose (b2 := (run self1 Bank.login_post
                   (add_event (Log DEBUG Relogin) b1)).2).
  pose (b3 := (self_location self1 t None true b2).2).
  destruct (relogin_retries_unless_on_target
              "http" (Some "bank") Bank.PAGES false Bank.dict_items Regex.re_match Bank.parse
              Bank.serve Bank.serve Bank.serve_submit Bank.serve_link
              Bank.request Bank.login_post Bank.is_logged_by_page
              Bank.home_pass (λ _, BasePage_on_loaded)
              1 "http://bank/accounts" None Bank.start r0
              (Bank.on_bank (world Bank.start)) Bank.LoginPage
              (mkMatch [] []) b2)
    as (_ & Hretry & _).
  - simpl. auto.
  - exact I.
  - intros _. exact I.
  - reflexivity.
  - reflexivity.
  - reflexivity.
  - vm_compute. reflexivity.
  - destruct (Hretry eq_refl (Ok tt) b3) as [Hloc Hcount].
    + vm_compute. reflexivity.
    + discriminate.
    + assert (Hout : out = (Ok tt, b3)) by exact Hloc.
      rewrite Hout. split; [reflexivity|]. split; [exact Hcount|].
      vm_compute. reflexivity.
Defined.

(** C3 at a login that lands on the URL asked for.  The docstring of
    [location] has it "login with [login()] and reload the page".  Here the
    site shows its login form under the URL asked for; the login submits
    the form and lands on that URL, and [location], which reloads only when
    the page the login left has another URL, does not load it again: one
    login, one call of mechanize for the URL and no second one, and the
    current page is the one the login left, not one of a navigation made
    again. *)
Lemma login_on_target_is_not_retried :
  let self := Bank.bank Bank.PAGES Bank.login_submit
                        Bank.is_logged_by_session Bank.home_base 2 in
  let out := self_location self (UrlStr "http://bank/home") None false
                           Bank.start in
  out.1 = Ok tt
  ∧ trace out.2
    = [MechOpen (UrlStr "http://bank/home") None;
       Log DEBUG (WentOn (Some "alice") "http://bank/home");
       PageCreated 0 "http://bank/home";
       Log DEBUG Relogin;
       MechSubmit;
       Log DEBUG (WentOn (Some "alice") "http://bank/home");
       PageCreated 1 "http://bank/home";
       OnLoaded 1]
  ∧ relogins (trace out.2) = 1
  ∧ opens (UrlStr "http://bank/home") None (trace out.2) = 1.
Proof. vm_compute. repeat split. Qed.

(** ** The URL of a request *)

Lemma append_cons c a b : String c a +:+ b = String c (a +:+ b).
Proof. reflexivity. Qed.

Lemma cut_last_hash_none f : occurs "#" f = false → cut_last_hash f = None.
Proof.
  induction f as [|c f IH]; simpl; [done|].
  intros [Hc Hf]%orb_false_iff. rewrite (IH Hf).
  apply bool_decide_eq_false in Hc. by rewrite decide_False.
Qed.

Lemma cut_last_hash_app a f :
  occurs "#" f = false → cut_last_hash (a +:+ String "#" f) = Some a.
Proof.
  intros Hf. induction a as [|c a IH].
  - change ("" +:+ String "#" f) with (String "#" f). simpl.
    by rewrite (cut_last_hash_none f Hf).
  - rewrite append_cons. simpl. by rewrite IH.
Qed.

Lemma occurs_app c a b : occurs c (a +:+ b) = occurs c a || occurs c b.
Proof.
  induction a as [|x a IH]; [done|].
  rewrite append_cons. simpl. rewrite IH. by rewrite orb_assoc.
Qed.

Lemma lines_one_line s : occurs newline s = false → lines s = [s].
Proof.
  induction s as [|c s IH]; simpl; [done|].
  intros [Hc Hs]%orb_false_iff. apply bool_decide_eq_false in Hc.
  rewrite decide_False by done. by rewrite (IH Hs).
Qed.

(** On one line, [sub_fragment] cuts at the last ['#']. *)
Lemma sub_fragment_last_hash a f :
  occurs newline a = false → occurs newline f = false →
  occurs "#" f = false →
  sub_fragment (a +:+ String "#" f) = a.
Proof.
  intros Ha Hf Hh. unfold sub_fragment.
  rewrite lines_one_line.
  - simpl. by rewrite cut_last_hash_app.
  - rewrite occurs_app. simpl. by rewrite Ha, Hf.
Qed.

Lemma sub_fragment_no_hash url :
  occurs newline url = false → occurs "#" url = false →
  sub_fragment url = url.
Proof.
  intros Hn Hh. unfold sub_fragment. rewrite lines_one_line by done.
  simpl. by rewrite cut_last_hash_none.
Qed.

Lemma without_fragment_app a f :
  occurs "#" a = false → without_fragment (a +:+ String "#" f) = a.
Proof.
  induction a as [|c a IH]; [done|].
  rewrite append_cons. simpl.
  intros [Hc Ha]%orb_false_iff. apply bool_decide_eq_false in Hc.
  rewrite decide_False by done. by rewrite IH.
Qed.

(** A URL of one line with one ['#'] loses its fragment. *)
Lemma sub_fragment_one_hash a f :
  occurs newline a = false → occurs newline f = false →
  occurs "#" a = false → occurs "#" f = false →
  sub_fragment (a +:+ String "#" f) = without_fragment (a +:+ String "#" f).
Proof.
  intros. by rewrite sub_fragment_last_hash, without_fragment_app.
Qed.

(** With a second ['#'] the two differ: what is cut is less than the
    fragment. *)
Lemma sub_fragment_two_hashes a f g :
  occurs newline a = false → occurs newline f = false →
  occurs newline g = false →
  occurs "#" a = false → occurs "#" g = false →
  sub_fragment (a +:+ String "#" (f +:+ String "#" g))
  = a +:+ String "#" f
  ∧ without_fragment (a +:+ String "#" (f +:+ String "#" g)) = a.
Proof.
  intros Ha Hf Hg Hha Hhg. split; [|by apply without_fragment_app].
  assert (a +:+ String "#" (f +:+ String "#" g)
          = (a +:+ String "#" f) +:+ String "#" g) as ->.
  { clear. induction a as [|c a IH]; [done|].
    by rewrite !append_cons, IH. }
  apply sub_fragment_last_hash; [|done..].
  rewrite occurs_app. simpl. by rewrite Ha, Hf.
Qed.

(** C9 on a URL with two ['#'].  The host is put before the path, as there
    is no request yet; the fragment of the URL is ["2019#march"], and
    [check_location] cuts at the last ['#'] only: the URL [location] hands
    to mechanize still has a ['#'] and the first part of the fragment. *)
Lemma check_location_cuts_at_last_hash :
  let url := "/accounts#2019#march" in
  let self := Bank.bank Bank.PAGES Bank.login_post Bank.is_logged_by_page
                        Bank.home_base 1 in
  check_location_url "http" (Some "bank") Bank.request Bank.start url
  = "http://bank/accounts#2019"
  ∧ without_fragment ("http://bank" +:+ url) = "http://bank/accounts"
  ∧ head (trace (self_location self (UrlStr url) None true Bank.start).2)
    = Some (MechOpen (UrlStr "http://bank/accounts#2019") None).
Proof. repeat split. Qed.

(** With one ['#'] the fragment goes, and the host is put before a path
    only when the browser is on no request or on another host. *)
Lemma check_location_one_hash :
  check_location_url "http" (Some "bank") Bank.request Bank.start
                     "/accounts#march"
  = "http://bank/accounts"
  ∧ check_location_url "http" (Some "bank") Bank.request Bank.at_home
                       "/accounts#march"
    = "/accounts"
  ∧ check_location_url "http" (Some "other") Bank.request Bank.at_home
                       "/accounts#march"
    = "http://other/accounts".
Proof. repeat split. Qed.

(** ** The invariants on the bank *)

(** A visitor without a password asks for the accounts and is shown the
    login page: no login is started. *)
Lemma no_password_no_login_witness :
  let b := mkBrowser None (Some "alice") None false 0 0 []
             (Bank.mkSite false None) : Bank.State in
  let self := Bank.bank Bank.PAGES Bank.login_post Bank.is_logged_by_page
                        Bank.home_base 3 in
  let b' := (run self (PLocation (UrlStr "/accounts") None false PDone) b).2 in
  relogins (trace b') = 0.
Proof.
  intros b self b'.
  exact (proj2 (no_password_no_login
                  "http" (Some "bank") Bank.PAGES false Bank.dict_items
                  Regex.re_match Bank.parse
                  Bank.serve Bank.serve Bank.serve_submit Bank.serve_link
                  Bank.request
                  Bank.login_post Bank.is_logged_by_page Bank.home_base
                  (λ _, BasePage_on_loaded) 3
                  (PLocation (UrlStr "/accounts") None false PDone) b
                  eq_refl)).
Defined.

(** The accounts of the bank, by path and by absolute URL, from a browser
    that has not moved yet. *)
Lemma location_of_absurl_witness :
  let self := Bank.bank Bank.PAGES Bank.login_post Bank.is_logged_by_page
                        Bank.home_base 2 in
  self_location self (UrlStr "http://bank/accounts") None false Bank.start
  = self_location self (UrlStr "/accounts") None false Bank.start.
Proof.
  intros self.
  exact (location_of_absurl
           "http" (Some "bank") Bank.PAGES false Bank.dict_items
           Regex.re_match Bank.parse Bank.serve Bank.request
           Bank.login_post Bank.is_logged_by_page Bank.home_base
           (λ _, BasePage_on_loaded)
           (Bank.bank Bank.PAGES Bank.login_post Bank.is_logged_by_page
                      Bank.home_base 1)
           "/accounts" "http://bank/accounts" None false Bank.start
           eq_refl I eq_refl).
Defined.

(** A page of the bank that cannot be reached, read from the home page. *)
Lemma readurl_failure_is_None_witness :
  let self := Bank.bank Bank.PAGES Bank.login_post Bank.is_logged_by_page
                        Bank.home_base 1 in
  let out := readurl false self (UrlStr "http://bank/down") None false Bank.at_home in
  out.1 = Ok None ∧ page out.2 = page Bank.at_home.
Proof.
  intros self out.
  destruct (readurl_failure_is_None
              "http" (Some "bank") Bank.PAGES false Bank.dict_items
              Regex.re_match Bank.parse
              Bank.serve Bank.serve Bank.serve_submit Bank.serve_link
              Bank.request
              Bank.login_post Bank.is_logged_by_page Bank.home_base
              (λ _, BasePage_on_loaded) 0
              (UrlStr "http://bank/down") None Bank.at_home URLError _ eq_refl eq_refl)
    as [H1 H2].
  split; [exact (f_equal fst H1) | exact H2].
Defined.

(** The home page of the bank, read from the home page. *)
Lemma readurl_returns_body_witness :
  let self := Bank.bank Bank.PAGES Bank.login_post Bank.is_logged_by_page
                        Bank.home_base 1 in
  let out := readurl false self (UrlStr "http://bank/home") None false Bank.at_home in
  out.1 = Ok (Some "<html></html>") ∧ page out.2 = page Bank.at_home.
Proof.
  intros self out.
  destruct (readurl_returns_body
              "http" (Some "bank") Bank.PAGES false Bank.dict_items
              Regex.re_match Bank.parse
              Bank.serve Bank.serve Bank.serve_submit Bank.serve_link
              Bank.request
              Bank.login_post Bank.is_logged_by_page Bank.home_base
              (λ _, BasePage_on_loaded) 0
              (UrlStr "http://bank/home") None false Bank.at_home _ _ eq_refl)
    as (H1 & H2 & _).
  split; [exact (f_equal fst H1) | exact H2].
Defined.

(** A page of the bank that does not exist. *)
Lemma openurl_not_found_once_witness :
  let self := Bank.bank Bank.PAGES Bank.login_post Bank.is_logged_by_page
                        Bank.home_base 1 in
  (self_openurl self (UrlStr "http://bank/gone") None true Bank.at_home).1
  = Raise BrowserHTTPNotFound.
Proof.
  intros self.
  exact (f_equal fst
           (proj1 (openurl_not_found_once
                     "http" (Some "bank") Bank.serve Bank.serve Bank.request
                     Bank.home_base
                     (Bank.bank Bank.PAGES Bank.login_post
                        Bank.is_logged_by_page Bank.home_base 0)
                     (UrlStr "http://bank/gone") None Bank.at_home)
              _ eq_refl)).
Defined.

(** A link that cannot be followed. *)
Lemma follow_link_failure_witness :
  let self := Bank.bank Bank.PAGES Bank.login_post Bank.is_logged_by_page
                        Bank.home_base 1 in
  let out := follow_link Bank.PAGES false Bank.dict_items Regex.re_match
               Bank.parse (λ w, (Raise URLError, w))
               Bank.login_post Bank.is_logged_by_page Bank.home_base
               (λ _, BasePage_on_loaded) self Bank.at_home in
  out.1 = Raise BrowserHTTPError ∧ page out.2 = None.
Proof.
  intros self out.
  pose proof (proj1 (follow_link_failure
                       Bank.PAGES false Bank.dict_items Regex.re_match
                       Bank.parse (λ w, (Raise URLError, w))
                       Bank.login_post Bank.is_logged_by_page Bank.home_base
                       (λ _, BasePage_on_loaded) self Bank.at_home)
                URLError _ eq_refl eq_refl) as H.
  split; [exact (f_equal fst H) | exact (f_equal (λ x, page x.2) H)].
Defined.

(** A form of the bank whose submission meets a server error. *)
Lemma submit_raises_browser_errors_witness :
  let self := Bank.bank Bank.PAGES Bank.login_post Bank.is_logged_by_page
                        Bank.home_base 1 in
  let out := submit Bank.PAGES false Bank.dict_items Regex.re_match
               Bank.parse (λ w, (Raise (HTTPError 500), w))
               Bank.login_post Bank.is_logged_by_page
               (λ _, BasePage_on_loaded) self false Bank.at_home in
  out.1 = Raise BrowserHTTPError
  ∧ is_transport_error BrowserHTTPError = false.
Proof.
  intros self out. split; [reflexivity|].
  exact (proj1 (submit_raises_browser_errors
                  Bank.PAGES false Bank.dict_items Regex.re_match
                  Bank.parse (λ w, (Raise (HTTPError 500), w))
                  Bank.login_post Bank.is_logged_by_page
                  (λ _, BasePage_on_loaded) self false Bank.at_home _
                  BrowserHTTPError eq_refl)).
Defined.

(** A form whose submission leads to the login page, in a module whose
    login finds nothing to do. *)
Lemma submit_after_login_is_unavailable_witness :
  let self := Bank.bank Bank.PAGES PDone Bank.is_logged_by_page
                        Bank.home_base 1 in
  (submit Bank.PAGES false Bank.dict_items Regex.re_match Bank.parse
     (λ w, (Ok (Bank.respond "http://bank/login"), w))
     PDone Bank.is_logged_by_page (λ _, BasePage_on_loaded) self false
     Bank.at_home).1
  = Raise BrowserUnavailable.
Proof.
  intros self.
  exact (f_equal fst
           (submit_after_login_is_unavailable
              Bank.PAGES false Bank.dict_items Regex.re_match Bank.parse
              (λ w, (Ok (Bank.respond "http://bank/login"), w))
              PDone Bank.is_logged_by_page (λ _, BasePage_on_loaded) self
              Bank.at_home (Bank.respond "http://bank/login") _
              Bank.LoginPage (mkMatch [] []) _
              eq_refl eq_refl eq_refl eq_refl)).
Defined.

(** ** Building a browser *)

Lemma get_exception_cases e :
  get_exception e = BrowserHTTPNotFound ∨ get_exception e = BrowserHTTPError.
Proof.
  unfold get_exception.
  repeat match goal with
         | |- context [match ?x with _ => _ end] => destruct x
         end; auto.
Qed.

Section Building.

Context {PageCls Document World : Type}.

Variable PROTOCOL : string.
Variable DOMAIN : option string.
Variable PAGES : gmap string PageCls.
Variable SAVE_RESPONSES : bool.
Variable dict_items : gmap string PageCls → list (string * PageCls).
Variable re_match : string → string → option Match.
Variable parse : Response → Document.
Variable mech_open : Target → option string → World → Outcome Response * World.
Variable mech_open_novisit :
  Target → option string → World → Outcome Response * World.
Variable mech_submit : World → Outcome Response * World.
Variable mech_follow_link : World → Outcome Response * World.
Variable world_request : World → option Request.
Variable login : @Proc PageCls Document World.
Variable is_logged : @BrowserState PageCls Document World → bool.
Variable on_loaded : PageCls → @Proc PageCls Document World.

(** "Do not abort the build of browser when the website is down": for a
    module that keeps the [home] of [BaseBrowser], on a transport whose
    every [open] fails (an HTTP error, a URL error, a bad status line), the
    constructor returns, whatever the user name, the password and
    [get_home] are, and the browser it has built has no current page. *)
Theorem browser_built_when_site_is_down (fuel : nat)
    (username password : option string) (cookies get_home : bool)
    (w : World) :
  (∀ t d w0, ∃ e w1, mech_open t d w0 = (Raise e, w1)
                     ∧ is_transport_error e = true) →
  let home := BaseBrowser_home PROTOCOL DOMAIN in
  let self := browser PROTOCOL DOMAIN PAGES SAVE_RESPONSES dict_items
                re_match parse mech_open mech_open_novisit mech_submit
                mech_follow_link world_request login is_logged home
                on_loaded (S fuel) in
  ∃ b', BaseBrowser_init home self username password cookies get_home w
        = (Ok tt, b')
        ∧ page b' = None.
Proof.
  intros Hdown home self. unfold BaseBrowser_init.
  destruct (nonempty password && get_home); [|by eexists].
  unfold try_except, home, BaseBrowser_home.
  destruct DOMAIN as [d|]; [|by eexists].
  simpl run. unfold bind. simpl self_location.
  match goal with
  | |- context [location _ _ _ _ _ _ _ _ _ _ _ ?h _ ?s ?t ?dt ?nl ?b] =>
      destruct (location_down PROTOCOL (Some d) PAGES SAVE_RESPONSES
                  dict_items re_match parse mech_open world_request
                  login is_logged h on_loaded s t dt nl b)
        as (e & b' & -> & He & Hp)
  end.
  { intros w0. apply Hdown. }
  exists b'. split; [|done].
  by destruct (get_exception_cases e) as [-> | ->].
Qed.

End Building.

(** A bank that cannot be reached at all. *)
Lemma browser_built_when_site_is_down_witness :
  let down (t : Target) (d : option string) (w : Bank.Site) :=
    (@Raise Response URLError, w) in
  let home := @BaseBrowser_home Bank.Cls string Bank.Site "http" (Some "bank") in
  let self := browser "http" (Some "bank") Bank.PAGES false Bank.dict_items
                Regex.re_match Bank.parse down down Bank.serve_submit
                Bank.serve_link Bank.request Bank.login_post
                Bank.is_logged_by_page home (λ _, BasePage_on_loaded) 1 in
  ∃ b', BaseBrowser_init home self (Some "alice") (Some "secret") false true
          (Bank.mkSite false None)
        = (Ok tt, b')
        ∧ page b' = None.
Proof.
  intros down home self.
  apply (browser_built_when_site_is_down
           "http" (Some "bank") Bank.PAGES false Bank.dict_items
           Regex.re_match Bank.parse down down Bank.serve_submit
           Bank.serve_link Bank.request Bank.login_post
           Bank.is_logged_by_page (λ _, BasePage_on_loaded) 0
           (Some "alice") (Some "secret") false true (Bank.mkSite false None)).
  intros t d w0. exists URLError, w0. split; reflexivity.
Defined.

(** ** The proxy *)

Lemma strip_prefix_Some p s rest :
  strip_prefix p s = Some rest → s = p +:+ rest.
Proof.
  revert s. induction p as [|a p IH]; intros s; simpl.
  - by intros [= ->].
  - destruct s as [|c s]; [done|].
    destruct (decide (a = c)) as [->|]; [|done].
    intros H. by rewrite (IH s H).
Qed.

Lemma strip_prefix_app p rest : strip_prefix p (p +:+ rest) = Some rest.
Proof.
  induction p as [|a p IH]; simpl; [done|].
  by rewrite decide_True.
Qed.

Lemma append_assoc a b c : (a +:+ b) +:+ c = a +:+ b +:+ c.
Proof.
  induction a as [|x a IH]; [done|]. rewrite !append_cons. by rewrite IH.
Qed.

Lemma split_once_Some sep s a b :
  sep ≠ "" →
  split_once sep s = Some (a, b) →
  s = a +:+ sep +:+ b ∧ ∀ x y, a ≠ x +:+ sep +:+ y.
Proof.
  intros Hsep. revert a. induction s as [|c s IH]; intros a; simpl.
  - destruct (strip_prefix sep "") as [rest|] eqn:E; [|done].
    intros [= <- <-]. apply strip_prefix_Some in E.
    destruct sep; done.
  - destruct (strip_prefix sep (String c s)) as [rest|] eqn:E.
    + intros [= <- <-]. apply strip_prefix_Some in E.
      split; [done|]. intros x y Hx.
      destruct x; [|done]. change ("" = sep +:+ y) in Hx. by destruct sep.
    + destruct (split_once sep s) as [[a' b']|] eqn:Es; [|done].
      intros [= <- <-]. destruct (IH a' eq_refl) as [-> Hno].
      split; [done|]. intros x y Hx.
      destruct x as [|c' x].
      * change (String c (a' +:+ sep +:+ b'))
          with (String c a' +:+ sep +:+ b') in E.
        change (String c a' = sep +:+ y) in Hx.
        rewrite Hx, append_assoc, strip_prefix_app in E. done.
      * rewrite append_cons in Hx. injection Hx as _ Hx. by apply (Hno x y).
Qed.

Lemma split_once_None sep s :
  split_once sep s = None → ∀ x y, s ≠ x +:+ sep +:+ y.
Proof.
  induction s as [|c s IH]; simpl.
  - destruct (strip_prefix sep "") eqn:E; [done|].
    intros _ x y Hx. destruct x; [|done].
    change ("" = sep +:+ y) in Hx.
    rewrite Hx, strip_prefix_app in E. done.
  - destruct (strip_prefix sep (String c s)) eqn:E; [done|].
    destruct (split_once sep s) as [[a b]|] eqn:Es; [done|].
    intros _ x y Hx. destruct x as [|c' x].
    + change (String c s = sep +:+ y) in Hx.
      rewrite Hx, strip_prefix_app in E. done.
    + rewrite append_cons in Hx. injection Hx as _ Hx.
      by apply (IH eq_refl x y).
Qed.

(** The proxy given to the constructor: when it names its protocol, the
    protocol is what stands before the first ["://"] and the address what
    follows it, so that the two put together give the proxy back; when it
    names none, the protocol is ["http"] and the address the proxy as
    given. *)
Theorem proxy_setting_splits (p : string) :
  p ≠ "" →
  ∃ proto domain,
    proxy_setting (Some p) = Some (proto, domain)
    ∧ (∀ x y, proto ≠ x +:+ "://" +:+ y)
    ∧ (p = proto +:+ "://" +:+ domain
       ∨ (proto = "http" ∧ domain = p ∧ ∀ x y, p ≠ x +:+ "://" +:+ y)).
Proof.
  intros Hp. unfold proxy_setting.
  destruct p as [|c p]; [done|].
  destruct (split_once "://" (String c p)) as [[proto domain]|] eqn:E.
  - apply split_once_Some in E as [E Hno]; [|done].
    exists proto, domain. split; [done|]. split; [done|]. by left.
  - exists "http", (String c p). split; [done|].
    split.
    + apply split_once_None. reflexivity.
    + right. split; [done|]. split; [done|]. by apply split_once_None.
Qed.

(** A SOCKS proxy, and a proxy given by host and port only. *)
Lemma proxy_setting_splits_witness :
  proxy_setting (Some "socks5://localhost:9050")
  = Some ("socks5", "localhost:9050")
  ∧ ∃ proto domain,
      proxy_setting (Some "proxy.example:3128") = Some (proto, domain)
      ∧ (∀ x y, proto ≠ x +:+ "://" +:+ y)
      ∧ ("proxy.example:3128" = proto +:+ "://" +:+ domain
         ∨ (proto = "http" ∧ domain = "proxy.example:3128"
            ∧ ∀ x y, "proxy.example:3128" ≠ x +:+ "://" +:+ y)).
Proof.
  split; [reflexivity|].
  apply (proxy_setting_splits "proxy.example:3128"). discriminate.
Defined.

(** The home page of the bank, asked for by a browser that has not moved
    yet and has no password. *)
Lemma location_makes_page_witness :
  let b := mkBrowser None (Some "alice") None false 0 0 []
             (Bank.mkSite false None) : Bank.State in
  let self := Bank.bank Bank.PAGES Bank.login_post Bank.is_logged_by_page
                        Bank.home_base 1 in
  ∃ b', self_location self (UrlStr "/home") None false b = (Ok tt, b')
        ∧ page b'
          = Some (mkPage 0 Bank.HomePage "<html></html>" "http://bank/home"
                    [] [])
        ∧ next_id b' = 1.
Proof.
  intros b self.
  exact (location_makes_page
           "http" (Some "bank") Bank.PAGES false Bank.dict_items
           Regex.re_match Bank.parse Bank.serve Bank.request
           Bank.login_post Bank.is_logged_by_page Bank.home_base
           (λ _, BasePage_on_loaded)
           (Bank.bank Bank.PAGES Bank.login_post Bank.is_logged_by_page
                      Bank.home_base 0)
           (UrlStr "/home") None false b
           (Bank.respond "http://bank/home") _ Bank.HomePage (mkMatch [] [])
           eq_refl eq_refl eq_refl eq_refl).
Defined.

End BrowserFacts.

(** * Facts about the module of Crédit du Nord *)

Module CreditDuNordFacts.

Import Browser CreditDuNord.
Local Open Scope string_scope.
Local Open Scope list_scope.

Lemma group_before_fr_label name rest :
  name ≠ "" → occurs "." name = false →
  group_before_fr (name +:+ ".fr" +:+ rest) = Some name.
Proof.
  induction name as [|c name IH]; [done|]. intros _ Hdot.
  simpl in Hdot. apply orb_false_iff in Hdot as [Hc Hdot].
  apply bool_decide_eq_false in Hc.
  change (String c name +:+ ".fr" +:+ rest)
    with (String c (name +:+ ".fr" +:+ rest)).
  cbn [group_before_fr]. rewrite decide_False by done.
  destruct name as [|c' name].
  - change ("" +:+ ".fr" +:+ rest)
      with (String "." (String "f" (String "r" rest))).
    cbn [group_before_fr]. rewrite decide_True by done.
    by rewrite decide_False.
  - by rewrite IH.
Qed.

(** The bank [login] names in the form it posts: for a site
    [www.<label>.fr], with a label of one or more characters and no point
    in it, followed by anything, it is the label. *)
Theorem bank_name_is_label (name rest : string) :
  name ≠ "" → occurs "." name = false →
  bank_name ("www." +:+ name +:+ ".fr" +:+ rest) = name.
Proof.
  intros Hne Hdot.
  change ("www." +:+ name +:+ ".fr" +:+ rest)
    with (String "w" (String "w" (String "w" (String "."
            (name +:+ ".fr" +:+ rest))))).
  unfold bank_name. rewrite decide_False by done.
  by rewrite group_before_fr_label.
Qed.

(** The site of the Banque Kolb, of the same group. *)
Lemma bank_name_is_label_witness :
  bank_name "www.banque-kolb.fr" = "banque-kolb".
Proof.
  apply (bank_name_is_label "banque-kolb" ""); [discriminate | reflexivity].
Defined.

Section Login.

Context {Document World : Type}.
Variable urlencode : list (string * string) → string.
Variable dict_items : gmap string string → list (string * string).
Variable encode : string → string.
Variable website : string.

(** [login] of Crédit du Nord, whatever the site answers and whatever the
    pages do when loaded: if it returns, the browser is on a page that is
    not the login page; and if the navigation that posts the credentials
    returns with the browser on the login page or on no page, [login]
    raises [BrowserIncorrectPassword]. *)
Theorem login_returns_logged (self : @Self Cls Document World)
    (username password : string) (b b' : @BrowserState Cls Document World)
    (out : Outcome unit) :
  run self (login urlencode dict_items encode website username password) b
  = (out, b') →
  (out = Ok tt → is_logged b' = true)
  ∧ (∀ b1,
       self_location self (UrlStr "/saga/authentification")
         (Some (urlencode (dict_items
                  (login_data encode website username password))))
         true b = (Ok tt, b1) →
       is_logged b1 = false →
       out = Raise BrowserIncorrectPassword ∧ b' = b1).
Proof.
  unfold login, buildurl. simpl run. unfold bind at 1.
  destruct (self_location self _ _ true b) as [[[]|e|] b1] eqn:E.
  - unfold bind, get. destruct (is_logged b1) eqn:L; simpl.
    + intros [= <- <-]. split; [done|]. intros b2 [= <-]. congruence.
    + intros [= <- <-]. split; [done|]. by intros b2 [= <-].
  - intros [= <- <-]. split; [done|]. by intros b2 [=].
  - intros [= <- <-]. split; [done|]. by intros b2 [=].
Qed.

End Login.

(** A site that answers the credentials with the page of the accounts, and
    a browser whose table knows that page. *)
Lemma login_returns_logged_witness :
  let pages : gmap string Cls :=
    {[ "https://www.credit-du-nord.fr/vos-comptes/particuliers"
       := AccountsPage ]} in
  let answer (t : Target) (d : option string) (w : unit) :=
    (Ok (mkResponse "https://www.credit-du-nord.fr/vos-comptes/particuliers"
           "text/html" ""), w) in
  let signin := @login string unit (λ _, "") map_to_list id
                  "www.credit-du-nord.fr" "alice" "secret" in
  let self := browser "https" (Some "www.credit-du-nord.fr") pages false
                map_to_list Regex.re_match read answer answer
                (λ w, (Raise BrowserStateError, w))
                (λ w, (Raise BrowserStateError, w)) (λ _, None)
                signin is_logged PDone (λ _, BasePage_on_loaded) 1 in
  let out := run self signin
               (new_browser (Some "alice") (Some "secret") false tt) in
  out.1 = Ok tt ∧ is_logged out.2 = true.
Proof.
  intros pages answer signin self out.
  assert (E : out.1 = Ok tt) by (vm_compute; reflexivity).
  split; [exact E|].
  apply (proj1 (login_returns_logged (λ _, "") map_to_list id
                  "www.credit-du-nord.fr" self "alice" "secret"
                  (new_browser (Some "alice") (Some "secret") false tt)
                  out.2 out.1 (surjective_pairing out)) E).
Defined.

End CreditDuNordFacts.
